(** * Script loader of the Hydrogen demo store

    A shallow embedding of
    [packages/hydrogen/src/foundation/Script/loadScript.ts]: the four
    module-level caches, the module-level [ignoreProps] array, the script
    elements the function creates, the promises that track their load and
    error events and the queue of animation-frame callbacks through which
    the elements reach (and leave) the document. *)

From Stdlib Require Import ZArith String Ascii List Bool Lia.
From stdpp Require Import base option list gmap strings pretty.

Local Open Scope string_scope.
Local Open Scope list_scope.

(** ** JavaScript values *)

Module Js.

(** Functions are opaque: the no-op arrow of a destructuring default and
    the functions the caller passes in. What is known of a function is
    whether it returns or throws, and the error it throws. *)
Inductive Fn : Type :=
  | NoOp
  | Callback (n : nat)
  | Thrower (n : nat) (error : string).

(** The values a descriptor property can hold. [VHtml h] is the object
    [{__html: h}] of [dangerouslySetInnerHTML]. The type [ScriptProps] of the
    descriptor is declared in [types.ts], which is not among the sources:
    a descriptor is any object, and where the loader relies on the type of
    a property (a string [id] or [src]) the definition says so. *)
Inductive Value : Type :=
  | VUndefined
  | VNull
  | VBool (b : bool)
  | VNumber (n : Z)
  | VString (s : string)
  | VArray (items : list string)
  | VHtml (html : option string)
  | VFunction (f : Fn).

#[global] Instance Fn_eq_dec : EqDecision Fn.
Proof. solve_decision. Defined.

#[global] Instance Value_eq_dec : EqDecision Value.
Proof. solve_decision. Defined.

(** ToBoolean. *)
Definition truthy (v : Value) : bool :=
  match v with
  | VUndefined | VNull => false
  | VBool b => b
  | VNumber n => negb (n =? 0)%Z
  | VString s => negb (s =? "")
  | VArray _ | VHtml _ | VFunction _ => true
  end.

(** [v = d] in a destructuring pattern: the default applies to
    [undefined] only. *)
Definition default_to (d v : Value) : Value :=
  match v with
  | VUndefined => d
  | _ => v
  end.

(** [v ?? ''] where [v] is typed [string | undefined] (the [id] and [src]
    of [ScriptProps]). *)
Definition or_empty (v : Value) : string :=
  match v with
  | VString s => s
  | _ => ""
  end.

(** An object as the ordered list of its own enumerable entries, which is
    what [Object.entries] returns. *)
Definition Object : Type := list (string * Value).

(** Property read: [undefined] for a missing key. *)
Fixpoint get (k : string) (o : Object) : Value :=
  match o with
  | [] => VUndefined
  | (k', v) :: rest => if k =? k' then v else get k rest
  end.

(** [Array.prototype.includes] on an array of strings. *)
Fixpoint includes (k : string) (l : list string) : bool :=
  match l with
  | [] => false
  | x :: rest => (k =? x) || includes k rest
  end.

(** A JavaScript string is held as the bytes of its UTF-8 encoding, which
    is how a string literal of this development is read. A surrogate that
    stands alone, which [slice] can leave behind, is held as the three bytes
    the same scheme gives it. *)

Definition lower_ascii (c : ascii) : ascii :=
  let n := nat_of_ascii c in
  if (65 <=? n)%nat && (n <=? 90)%nat then ascii_of_nat (n + 32) else c.

(** Lower-casing of the ASCII letters: what the DOM does to the name of
    an attribute, and what [String.prototype.toLowerCase] does to a name
    without other cased letters, as the property names of a script are. *)
Fixpoint toLowerCase (s : string) : string :=
  match s with
  | EmptyString => EmptyString
  | String c rest => String (lower_ascii c) (toLowerCase rest)
  end.

(** The white space and the line terminators of ECMAScript. Of one byte:
    U+0009 to U+000D and U+0020. *)
Definition is_space (c : ascii) : bool :=
  let n := nat_of_ascii c in
  ((9 <=? n)%nat && (n <=? 13)%nat) || (n =? 32)%nat.

(** Of two bytes: U+00A0. *)
Definition is_space2 (c1 c2 : ascii) : bool :=
  (nat_of_ascii c1 =? 194)%nat && (nat_of_ascii c2 =? 160)%nat.

(** Of three bytes: U+1680, U+2000 to U+200A, U+2028, U+2029, U+202F,
    U+205F, U+3000 and U+FEFF. *)
Definition is_space3 (c1 c2 c3 : ascii) : bool :=
  let n1 := nat_of_ascii c1 in
  let n2 := nat_of_ascii c2 in
  let n3 := nat_of_ascii c3 in
  ((n1 =? 225) && (n2 =? 154) && (n3 =? 128))%nat
  || ((n1 =? 226) && (n2 =? 128)
      && (((128 <=? n3) && (n3 <=? 138)) || (n3 =? 168) || (n3 =? 169) || (n3 =? 175)))%nat
  || ((n1 =? 226) && (n2 =? 129) && (n3 =? 159))%nat
  || ((n1 =? 227) && (n2 =? 128) && (n3 =? 128))%nat
  || ((n1 =? 239) && (n2 =? 187) && (n3 =? 191))%nat.

(** The string without the white space it starts with. With [backwards]
    the bytes are those of a reversed string, so that the bytes of a
    character come last byte first. *)
Fixpoint dropSpace (backwards : bool) (s : string) : string :=
  match s with
  | EmptyString => EmptyString
  | String a rest1 =>
      if is_space a then dropSpace backwards rest1
      else
        match rest1 with
        | EmptyString => s
        | String b rest2 =>
            if (if backwards then is_space2 b a else is_space2 a b)
            then dropSpace backwards rest2
            else
              match rest2 with
              | EmptyString => s
              | String c rest3 =>
                  if (if backwards then is_space3 c b a else is_space3 a b c)
                  then dropSpace backwards rest3
                  else s
              end
        end
  end.

Definition reverse (s : string) : string :=
  string_of_list_ascii (rev (list_ascii_of_string s)).

(** [String.prototype.trim]. *)
Definition trim (s : string) : string :=
  reverse (dropSpace true (reverse (dropSpace false s))).

(** The high surrogate of the character of four bytes [a b c d], in three
    bytes. *)
Definition highSurrogate (a b c d : ascii) : string :=
  let cp := (((N_of_ascii a mod 8) * 262144) + ((N_of_ascii b mod 64) * 4096)
             + ((N_of_ascii c mod 64) * 64) + (N_of_ascii d mod 64))%N in
  let hi := (55296 + (cp - 65536) / 1024)%N in
  String (ascii_of_N 237)
    (String (ascii_of_N (128 + (hi / 64) mod 64))
       (String (ascii_of_N (128 + hi mod 64)) EmptyString)).

(** [s.slice(0, n)]: the first [n] UTF-16 code units of the string. A
    character of up to three bytes is one unit, a character of four bytes
    is two units, of which the slice may keep the first only. *)
Fixpoint slice (n : nat) (s : string) {struct s} : string :=
  match n, s with
  | 0, _ => EmptyString
  | _, EmptyString => EmptyString
  | S m, String a rest1 =>
      if (nat_of_ascii a <? 192)%nat then String a (slice m rest1)
      else
        match rest1 with
        | EmptyString => s
        | String b rest2 =>
            if (nat_of_ascii a <? 224)%nat then String a (String b (slice m rest2))
            else
              match rest2 with
              | EmptyString => s
              | String c rest3 =>
                  if (nat_of_ascii a <? 240)%nat
                  then String a (String b (String c (slice m rest3)))
                  else
                    match rest3 with
                    | EmptyString => s
                    | String d rest4 =>
                        match m with
                        | 0 => highSurrogate a b c d
                        | S m' =>
                            String a (String b (String c (String d (slice m' rest4))))
                        end
                    end
              end
        end
  end.

(** [items.join('')]. *)
Definition join (items : list string) : string :=
  fold_right String.append "" items.

End Js.

Import Js.

(** ** Results *)

(** The [event] of a result: one of the loader's own messages or the
    browser's event object. *)
Inductive EventValue : Type :=
  | Message (s : string)
  | BrowserEvent (n : nat).

(** Modelled from the spec: [ScriptResponse] is declared in [types.ts],
    which is not among the sources. The spec gives the produced result as
    [{status: boolean, event: <browser event | string>}], and these are the
    two fields the loader writes. *)
Record ScriptResponse : Type := {
  status : bool;
  event : EventValue
}.

(** A promise is pending, fulfilled with a result, rejected with a
    result, or rejected with the error a callback threw. *)
Inductive Settlement : Type :=
  | Pending
  | Fulfilled (r : ScriptResponse)
  | Rejected (r : ScriptResponse)
  | RejectedWith (error : string).

#[global] Instance EventValue_eq_dec : EqDecision EventValue.
Proof. solve_decision. Defined.

#[global] Instance ScriptResponse_eq_dec : EqDecision ScriptResponse.
Proof. solve_decision. Defined.

#[global] Instance Settlement_eq_dec : EqDecision Settlement.
Proof. solve_decision. Defined.

(** What the body of the [async function] returns. The caller receives the
    promise of the async function, which is settled by this completion:
    fulfilled with [r] for [return Promise.resolve(r)], and following the
    promise [p] for [return p]. *)
Inductive Completion : Type :=
  | Resolved (r : ScriptResponse)
  | Awaits (p : nat).

(** ** Promises *)

(** The [.catch] callback of [loadPromise] with what it closes over. *)
Record CatchHandler : Type := {
  ch_key : string;
  ch_src : Value;
  ch_onError : Value;
  ch_derived : nat            (* the promise [.catch] returns *)
}.

Record Promise : Type := {
  settlement : Settlement;
  reaction : option CatchHandler
}.

(** ** Script elements *)

(** [script.onload] with what it closes over; [script.onerror] closes over
    the [reject] of the same promise. *)
Record LoadListener : Type := {
  ls_onLoad : Value;
  ls_onReady : Value;
  ls_key : string;
  ls_src : Value;
  ls_promise : nat
}.

(** A script element. Its content is text: [el_text] is the data of its
    one text node, and is empty when the element has no child. The
    attributes are held under the names the element stores them by, with
    the values the loader passes. *)
Record HTMLScriptElement : Type := {
  el_key : string;            (* ghost: the ScriptKey the element was made for *)
  el_attributes : gmap string Value;
  el_text : string;
  el_onload : option LoadListener;
  el_onerror : option nat
}.

(** [document.createElement('script')], for the key of the call. *)
Definition createElement (key : string) : HTMLScriptElement :=
  {| el_key := key; el_attributes := ∅; el_text := "";
     el_onload := None; el_onerror := None |}.

(** [script.setAttribute(name, value)]: an element of an HTML document
    lower-cases the name. *)
Definition setAttribute (name : string) (value : Value)
    (el : HTMLScriptElement) : HTMLScriptElement :=
  {| el_key := el_key el;
     el_attributes := <[toLowerCase name := value]> (el_attributes el);
     el_text := el_text el;
     el_onload := el_onload el;
     el_onerror := el_onerror el |}.

(** [script.getAttribute(name)], which lower-cases the name as well. *)
Definition getAttribute (name : string) (el : HTMLScriptElement)
    : option Value :=
  el_attributes el !! toLowerCase name.

(** What the HTML parser makes of the characters of a script's content: a
    carriage return, alone or before a line feed, becomes one line feed,
    and a NUL becomes U+FFFD. *)
Fixpoint parsedText (s : string) : string :=
  match s with
  | EmptyString => EmptyString
  | String c rest =>
      if (nat_of_ascii c =? 13)%nat then
        String (ascii_of_nat 10)
          match rest with
          | EmptyString => EmptyString
          | String c' rest' =>
              if (nat_of_ascii c' =? 10)%nat then parsedText rest'
              else parsedText rest
          end
      else if (nat_of_ascii c =? 0)%nat then
        String (ascii_of_nat 239)
          (String (ascii_of_nat 191) (String (ascii_of_nat 189) (parsedText rest)))
      else String c (parsedText rest)
  end.

(** [script.innerHTML = s]: the content becomes the text the parser reads
    from [s]. *)
Definition set_innerHTML (s : string) (el : HTMLScriptElement)
    : HTMLScriptElement :=
  {| el_key := el_key el;
     el_attributes := el_attributes el;
     el_text := parsedText s;
     el_onload := el_onload el;
     el_onerror := el_onerror el |}.

(** [script.textContent = s]: the content becomes the text [s]. *)
Definition set_textContent (s : string) (el : HTMLScriptElement)
    : HTMLScriptElement :=
  {| el_key := el_key el;
     el_attributes := el_attributes el;
     el_text := s;
     el_onload := el_onload el;
     el_onerror := el_onerror el |}.

(** Reading [script.textContent]; [script.innerHTML] reads the same
    text, since the content of a script is serialised as it is. *)
Definition textContent (el : HTMLScriptElement) : string := el_text el.

Definition set_listeners (l : LoadListener) (p : nat)
    (el : HTMLScriptElement) : HTMLScriptElement :=
  {| el_key := el_key el;
     el_attributes := el_attributes el;
     el_text := el_text el;
     el_onload := Some l;
     el_onerror := Some p |}.

(** ** The document and the animation-frame queue *)

Record Document : Type := {
  head : list nat;
  body : list nat
}.

Inductive FrameAction : Type :=
  | AppendScript
  | RemoveScript.

(** The closure [appendScript(target, script)] or
    [removeScript(target, script)], with its one-shot flag. *)
Record FrameCallback : Type := {
  fc_action : FrameAction;
  fc_target : Value;
  fc_script : nat;
  fc_done : bool
}.

#[global] Instance FrameAction_eq_dec : EqDecision FrameAction.
Proof. solve_decision. Defined.

#[global] Instance FrameCallback_eq_dec : EqDecision FrameCallback.
Proof. solve_decision. Defined.

Definition appendScript (target : Value) (script : nat) : FrameCallback :=
  {| fc_action := AppendScript; fc_target := target;
     fc_script := script; fc_done := false |}.

Definition removeScript (target : Value) (script : nat) : FrameCallback :=
  {| fc_action := RemoveScript; fc_target := target;
     fc_script := script; fc_done := false |}.

(** ** What the page can observe *)

Inductive Argument : Type :=
  | ArgEvent (n : nat)
  | ArgResponse (r : ScriptResponse).

Inductive Observation : Type :=
  | Called (f : Value) (arg : Argument)
  | LoggedPerformance (key : string) (src : Value)
  | Settled (p : nat) (s : Settlement)
  | Uncaught (what : string).

(** ** Module state *)

(** Modelled from the spec: [ScriptCacheProps] is declared in [types.ts],
    which is not among the sources. The spec gives an entry of the instance
    registry a pending result and an owned script element; the loader reads
    both with [?.] and tests them, so either may be missing. *)
Record ScriptCacheProps : Type := {
  promise : option nat;
  script : option nat
}.

(** The module-level array and caches, followed by what the loader creates
    in the page: elements and promises (each named by its index), the
    callbacks waiting for the next frame, the children of [document.head]
    and [document.body], and what the page has observed so far. *)
Record State : Type := {
  ignoreProps : list string;
  StartTimeCache : gmap string Z;
  PrevPathCache : gmap string string;
  LoadCache : gset string;
  ScriptCache : gmap string ScriptCacheProps;
  elements : list HTMLScriptElement;
  promises : list Promise;
  animationFrames : list FrameCallback;
  document : Document;
  trace : list Observation
}.

(** The part of [window] and [performance] a call reads; the time stamp is
    only stored. *)
Record Window : Type := {
  location_pathname : string;
  performance_now : Z
}.

(** [ignoreProps] as the module is loaded. *)
Definition initial_ignoreProps : list string :=
  ["children"; "dangerouslySetInnerHTML"; "onError"; "onLoad"; "onReady";
   "load"; "target"; "reload"].

(** The table of aliases, read by its own keys. *)
Definition DOMAttributeNames : Object :=
  [("acceptCharset", VString "accept-charset");
   ("className", VString "class");
   ("htmlFor", VString "for");
   ("httpEquiv", VString "http-equiv");
   ("noModule", VString "noModule")].

(** The page when the module has just been loaded. *)
Definition initial : State :=
  {| ignoreProps := initial_ignoreProps;
     StartTimeCache := ∅;
     PrevPathCache := ∅;
     LoadCache := ∅;
     ScriptCache := ∅;
     elements := [];
     promises := [];
     animationFrames := [];
     document := {| head := []; body := [] |};
     trace := [] |}.

(** ** Field updates *)

Definition set_ignoreProps (f : list string -> list string) (st : State) : State :=
  {| ignoreProps := f (ignoreProps st);
     StartTimeCache := StartTimeCache st; PrevPathCache := PrevPathCache st;
     LoadCache := LoadCache st; ScriptCache := ScriptCache st;
     elements := elements st; promises := promises st;
     animationFrames := animationFrames st; document := document st;
     trace := trace st |}.

Definition set_StartTimeCache (f : gmap string Z -> gmap string Z) (st : State) : State :=
  {| ignoreProps := ignoreProps st;
     StartTimeCache := f (StartTimeCache st); PrevPathCache := PrevPathCache st;
     LoadCache := LoadCache st; ScriptCache := ScriptCache st;
     elements := elements st; promises := promises st;
     animationFrames := animationFrames st; document := document st;
     trace := trace st |}.

Definition set_PrevPathCache (f : gmap string string -> gmap string string) (st : State) : State :=
  {| ignoreProps := ignoreProps st;
     StartTimeCache := StartTimeCache st; PrevPathCache := f (PrevPathCache st);
     LoadCache := LoadCache st; ScriptCache := ScriptCache st;
     elements := elements st; promises := promises st;
     animationFrames := animationFrames st; document := document st;
     trace := trace st |}.

Definition set_LoadCache (f : gset string -> gset string) (st : State) : State :=
  {| ignoreProps := ignoreProps st;
     StartTimeCache := StartTimeCache st; PrevPathCache := PrevPathCache st;
     LoadCache := f (LoadCache st); ScriptCache := ScriptCache st;
     elements := elements st; promises := promises st;
     animationFrames := animationFrames st; document := document st;
     trace := trace st |}.

Definition set_ScriptCache
    (f : gmap string ScriptCacheProps -> gmap string ScriptCacheProps)
    (st : State) : State :=
  {| ignoreProps := ignoreProps st;
     StartTimeCache := StartTimeCache st; PrevPathCache := PrevPathCache st;
     LoadCache := LoadCache st; ScriptCache := f (ScriptCache st);
     elements := elements st; promises := promises st;
     animationFrames := animationFrames st; document := document st;
     trace := trace st |}.

Definition set_elements
    (f : list HTMLScriptElement -> list HTMLScriptElement) (st : State) : State :=
  {| ignoreProps := ignoreProps st;
     StartTimeCache := StartTimeCache st; PrevPathCache := PrevPathCache st;
     LoadCache := LoadCache st; ScriptCache := ScriptCache st;
     elements := f (elements st); promises := promises st;
     animationFrames := animationFrames st; document := document st;
     trace := trace st |}.

Definition set_promises (f : list Promise -> list Promise) (st : State) : State :=
  {| ignoreProps := ignoreProps st;
     StartTimeCache := StartTimeCache st; PrevPathCache := PrevPathCache st;
     LoadCache := LoadCache st; ScriptCache := ScriptCache st;
     elements := elements st; promises := f (promises st);
     animationFrames := animationFrames st; document := document st;
     trace := trace st |}.

Definition set_animationFrames
    (f : list FrameCallback -> list FrameCallback) (st : State) : State :=
  {| ignoreProps := ignoreProps st;
     StartTimeCache := StartTimeCache st; PrevPathCache := PrevPathCache st;
     LoadCache := LoadCache st; ScriptCache := ScriptCache st;
     elements := elements st; promises := promises st;
     animationFrames := f (animationFrames st); document := document st;
     trace := trace st |}.

Definition set_document (f : Document -> Document) (st : State) : State :=
  {| ignoreProps := ignoreProps st;
     StartTimeCache := StartTimeCache st; PrevPathCache := PrevPathCache st;
     LoadCache := LoadCache st; ScriptCache := ScriptCache st;
     elements := elements st; promises := promises st;
     animationFrames := animationFrames st; document := f (document st);
     trace := trace st |}.

Definition set_trace (f : list Observation -> list Observation) (st : State) : State :=
  {| ignoreProps := ignoreProps st;
     StartTimeCache := StartTimeCache st; PrevPathCache := PrevPathCache st;
     LoadCache := LoadCache st; ScriptCache := ScriptCache st;
     elements := elements st; promises := promises st;
     animationFrames := animationFrames st; document := document st;
     trace := f (trace st) |}.

(** [requestAnimationFrame(cb)]: the callback joins the queue of the next
    frame; nothing runs now. *)
Definition requestAnimationFrame (cb : FrameCallback) (st : State) : State :=
  set_animationFrames (fun q => q ++ [cb]) st.

(** ** loadScript *)

Definition already_loaded : ScriptResponse :=
  {| status := true; event := Message "already loaded" |}.

Definition promise_not_found : ScriptResponse :=
  {| status := false; event := Message "Script load promise not found" |}.

Definition inline_script : ScriptResponse :=
  {| status := true; event := Message "inline script" |}.

(** [(id ?? '') + (src ?? '')]. *)
Definition scriptKey (props : Object) : string :=
  or_empty (get "id" props) +:+ or_empty (get "src" props).

(** [prevPathname ? pathname !== prevPathname : false]. *)
Definition pathChanged (pathname : string) (prevPathname : option string) : bool :=
  match prevPathname with
  | Some prev => if negb (prev =? "") then negb (pathname =? prev) else false
  | None => false
  end.

(** [key && LoadCache.has(key)]. *)
Definition hasLoaded (key : string) (st : State) : bool :=
  negb (key =? "") && bool_decide (key ∈ LoadCache st).

(** [DOMAttributeNames[k] || k.toLowerCase()]. *)
Definition attributeName (k : string) : string :=
  match get k DOMAttributeNames with
  | VString a => if negb (a =? "") then a else toLowerCase k
  | _ => toLowerCase k
  end.

(** The loop over [Object.entries(props)]. *)
Fixpoint spreadProps (ignored : list string) (entries : Object)
    (el : HTMLScriptElement) : HTMLScriptElement :=
  match entries with
  | [] => el
  | (k, value) :: rest =>
      if bool_decide (value = VUndefined) || includes k ignored
      then spreadProps ignored rest el
      else spreadProps ignored rest (setAttribute (attributeName k) value el)
  end.

(** The body given to the new element. *)
Definition setBody (dangerouslySetInnerHTML children : Value)
    (el : HTMLScriptElement) : HTMLScriptElement :=
  if truthy dangerouslySetInnerHTML then
    set_innerHTML
      (trim (match dangerouslySetInnerHTML with
             | VHtml (Some html) => html
             | _ => ""
             end)) el
  else if truthy children then
    set_textContent
      (match children with
       | VString s => s
       | VArray items => join items
       | _ => ""
       end) el
  else el.

(** The block that runs when a loaded key is called again on another path
    with [reload]: the tracked element leaves the caches and its removal is
    requested for the next frame. *)
Definition remount (key : string) (target : Value) (st : State) : State :=
  match ScriptCache st !! key with
  | Some scriptCache =>
      match script scriptCache with
      | Some old =>
          let st := set_LoadCache (fun c => c ∖ {[key]}) st in
          let st := set_ScriptCache (delete key) st in
          let st := set_StartTimeCache (delete key) st in
          requestAnimationFrame (removeScript target old) st
      | None => st
      end
  | None => st
  end.

(** The element between [document.createElement('script')] and the
    request to append it: body, attributes, [type], [data-load] and the two
    listeners, which close over the promise [inner]. *)
Definition buildScript (ignored : list string) (props : Object) (key : string)
    (inner : nat) : HTMLScriptElement :=
  let children := default_to (VString "") (get "children" props) in
  let dangerouslySetInnerHTML := get "dangerouslySetInnerHTML" props in
  let onLoad := get "onLoad" props in
  let onReady := default_to VNull (get "onReady" props) in
  let src := get "src" props in
  let load := default_to (VString "afterHydration") (get "load" props) in
  let el := createElement key in
  let el := setBody dangerouslySetInnerHTML children el in
  let el := spreadProps ignored props el in
  let el :=
    if bool_decide (load = VString "inWorker")
    then setAttribute "type" (VString "text/partytown") el
    else el in
  let el :=
    if truthy src
    then setAttribute "data-load" load el
    else setAttribute "data-load" (VString "inline") el in
  set_listeners
    {| ls_onLoad := onLoad; ls_onReady := onReady; ls_key := key;
       ls_src := src; ls_promise := inner |} inner el.

(** [new Promise(...).catch(...)]: the promise the listeners settle and the
    promise [.catch] returns, which is [loadPromise]. *)
Definition newLoadPromise (props : Object) (key : string) (inner : nat)
    : list Promise :=
  let onError := default_to (VFunction NoOp) (get "onError" props) in
  [ {| settlement := Pending;
       reaction := Some {| ch_key := key; ch_src := get "src" props;
                           ch_onError := onError; ch_derived := S inner |} |};
    {| settlement := Pending; reaction := None |} ].

(** From [LoadCache.add(key)] and [document.createElement('script')] to the
    end. *)
Definition createScript (props : Object) (key : string) (st : State)
    : Completion * State :=
  let src := get "src" props in
  let target := default_to (VString "body") (get "target" props) in
  let st := set_LoadCache (fun c => c ∪ {[key]}) st in
  let st :=
    if negb (truthy src)
    then set_ignoreProps (fun l => l ++ ["async"; "defer"]) st
    else st in
  let inner := length (promises st) in
  let loadPromise := S inner in
  let el := buildScript (ignoreProps st) props key inner in
  let st := set_promises (fun ps => ps ++ newLoadPromise props key inner) st in
  let script := length (elements st) in
  let st := set_elements (fun es => es ++ [el]) st in
  let st := requestAnimationFrame (appendScript target script) st in
  if truthy src then
    (Awaits loadPromise,
     set_ScriptCache
       (<[key := {| promise := Some loadPromise; script := Some script |}]>) st)
  else (Resolved inline_script, st).

(** [if (!StartTimeCache.has(key)) StartTimeCache.set(key, performance.now())]. *)
Definition stampStart (key : string) (w : Window) (st : State) : State :=
  match StartTimeCache st !! key with
  | Some _ => st
  | None => set_StartTimeCache (<[key := performance_now w]>) st
  end.

(** From the start time stamp to the end. *)
Definition mountScript (props : Object) (key : string) (w : Window) (st : State)
    : Completion * State :=
  let st := stampStart key w st in
  match ScriptCache st !! key with
  | Some scriptCache =>
      let st := set_LoadCache (fun c => c ∪ {[key]}) st in
      match promise scriptCache with
      | Some p => (Awaits p, st)
      | None => (Resolved promise_not_found, st)
      end
  | None => createScript props key st
  end.

Definition loadScript (props : Object) (w : Window) (st : State)
    : Completion * State :=
  let target := default_to (VString "body") (get "target" props) in
  let reload := default_to (VBool false) (get "reload" props) in
  let key := scriptKey props in
  let pathname := location_pathname w in
  let prevPathname := PrevPathCache st !! key in
  let pathChanged := pathChanged pathname prevPathname in
  let reloadOnNavigation := pathChanged && truthy reload in
  let hasLoaded := hasLoaded key st in
  let st := set_PrevPathCache (<[key := pathname]>) st in
  if hasLoaded then
    if negb reloadOnNavigation then (Resolved already_loaded, st)
    else mountScript props key w (remount key target st)
  else mountScript props key w st.

(** ** Animation frames *)

Inductive TargetNode : Type :=
  | Head
  | Body.

(** [document[target]]: only [head] and [body] name a node. *)
Definition resolveTarget (target : Value) : option TargetNode :=
  match target with
  | VString s =>
      if s =? "head" then Some Head
      else if s =? "body" then Some Body
      else None
  | _ => None
  end.

Definition childrenOf (t : TargetNode) (d : Document) : list nat :=
  match t with
  | Head => head d
  | Body => body d
  end.

Fixpoint without (x : nat) (l : list nat) : list nat :=
  match l with
  | [] => []
  | y :: rest => if (x =? y)%nat then without x rest else y :: without x rest
  end.

Fixpoint member (x : nat) (l : list nat) : bool :=
  match l with
  | [] => false
  | y :: rest => (x =? y)%nat || member x rest
  end.

(** [node.appendChild(script)]: a node that already has a parent is moved. *)
Definition appendChild (t : TargetNode) (x : nat) (d : Document) : Document :=
  match t with
  | Head => {| head := without x (head d) ++ [x]; body := without x (body d) |}
  | Body => {| head := without x (head d); body := without x (body d) ++ [x] |}
  end.

(** [node.removeChild(script)]: [None] is the NotFoundError thrown when the
    script is not a child of the node. *)
Definition removeChild (t : TargetNode) (x : nat) (d : Document)
    : option Document :=
  if member x (childrenOf t d) then
    Some match t with
         | Head => {| head := without x (head d); body := body d |}
         | Body => {| head := head d; body := without x (body d) |}
         end
  else None.

(** One call of a queued closure. The closure sets its flag after the DOM
    call; the browser calls a queued callback once and drops it, so the
    flag is not read again. *)
Definition invoke (cb : FrameCallback) (st : State) : State :=
  if fc_done cb then st
  else
    match resolveTarget (fc_target cb) with
    | None => set_trace (fun t => t ++ [Uncaught "TypeError"]) st
    | Some t =>
        match fc_action cb with
        | AppendScript => set_document (appendChild t (fc_script cb)) st
        | RemoveScript =>
            match removeChild t (fc_script cb) (document st) with
            | Some d => set_document (fun _ => d) st
            | None => set_trace (fun t => t ++ [Uncaught "NotFoundError"]) st
            end
        end
    end.

Fixpoint invokeAll (q : list FrameCallback) (st : State) : State :=
  match q with
  | [] => st
  | cb :: rest => invokeAll rest (invoke cb st)
  end.

(** A rendering frame: the queued callbacks run in the order of their
    registration and the queue is emptied. *)
Definition animationFrame (st : State) : State :=
  invokeAll (animationFrames st) (set_animationFrames (fun _ => []) st).

(** ** Load and error events *)

(** The error that ends a call of [f], if any: a function throws or
    returns, and calling what is not a function is a TypeError. *)
Definition thrownBy (f : Value) : option string :=
  match f with
  | VFunction (Thrower _ error) => Some error
  | VFunction _ => None
  | _ => Some "TypeError"
  end.

(** The page sees a function being called. *)
Definition call (f : Value) (arg : Argument) (st : State) : State :=
  match f with
  | VFunction _ => set_trace (fun t => t ++ [Called f arg]) st
  | _ => st
  end.

(** An error nobody catches is reported to the page. *)
Definition uncaught (error : string) (st : State) : State :=
  set_trace (fun t => t ++ [Uncaught error]) st.

(** [if (f) f(arg)]: the state after the call and the error it threw. *)
Definition callIfGiven (f : Value) (arg : Argument) (st : State)
    : State * option string :=
  if truthy f then (call f arg st, thrownBy f) else (st, None).

(** Modelled from the spec: [logScriptPerformance] lives in a module that
    is not among the sources. The spec describes it as a diagnostic hook
    given the key and the source URL; only the call is recorded. *)
Definition logScriptPerformance (key : string) (src : Value) (st : State) : State :=
  set_trace (fun t => t ++ [LoggedPerformance key src]) st.

(** A promise settles once: settling a settled promise does nothing. *)
Definition settlePromise (p : nat) (s : Settlement) (st : State) : State :=
  match promises st !! p with
  | Some pr =>
      match settlement pr with
      | Pending =>
          set_trace (fun t => t ++ [Settled p s])
            (set_promises
               (fun ps => <[p := {| settlement := s; reaction := reaction pr |}]> ps)
               st)
      | _ => st
      end
  | None => st
  end.

Definition isPending (p : nat) (st : State) : bool :=
  match promises st !! p with
  | Some pr => bool_decide (settlement pr = Pending)
  | None => false
  end.

Definition reactionOf (p : nat) (st : State) : option CatchHandler :=
  match promises st !! p with
  | Some pr => reaction pr
  | None => None
  end.

(** [resolve(r)] of promise [p]; [.catch] hands a fulfilment on to the
    promise it returned. *)
Definition resolve (p : nat) (r : ScriptResponse) (st : State) : State :=
  if isPending p st then
    let st := settlePromise p (Fulfilled r) st in
    match reactionOf p st with
    | Some h => settlePromise (ch_derived h) (Fulfilled r) st
    | None => st
    end
  else st.

(** [reject(r)] of promise [p], followed by the [.catch] callback: the
    promise it returned is rejected with [r] again when [onError] returns,
    and with the error of [onError] when it throws. *)
Definition reject (DEV : bool) (p : nat) (r : ScriptResponse) (st : State) : State :=
  if isPending p st then
    let st := settlePromise p (Rejected r) st in
    match reactionOf p st with
    | Some h =>
        let st := if DEV then logScriptPerformance (ch_key h) (ch_src h) st else st in
        let (st, thrown) := callIfGiven (ch_onError h) (ArgResponse r) st in
        settlePromise (ch_derived h)
          match thrown with
          | Some error => RejectedWith error
          | None => Rejected r
          end st
    | None => st
    end
  else st.

(** [script.onload(event)]: an error thrown by [onLoad] or [onReady] ends
    the listener there. *)
Definition onload (DEV : bool) (script ev : nat) (st : State) : State :=
  match elements st !! script with
  | Some el =>
      match el_onload el with
      | Some l =>
          let (st, thrown) := callIfGiven (ls_onLoad l) (ArgEvent ev) st in
          match thrown with
          | Some error => uncaught error st
          | None =>
              let (st, thrown) := callIfGiven (ls_onReady l) (ArgEvent ev) st in
              match thrown with
              | Some error => uncaught error st
              | None =>
                  let st :=
                    if DEV then logScriptPerformance (ls_key l) (ls_src l) st else st in
                  resolve (ls_promise l) {| status := true; event := BrowserEvent ev |} st
              end
          end
      | None => st
      end
  | None => st
  end.

(** [script.onerror(event)]. *)
Definition onerror (DEV : bool) (script ev : nat) (st : State) : State :=
  match elements st !! script with
  | Some el =>
      match el_onerror el with
      | Some p => reject DEV p {| status := false; event := BrowserEvent ev |} st
      | None => st
      end
  | None => st
  end.

(** ** The page as a transition system *)

Inductive Action : Type :=
  | CallLoadScript (props : Object) (w : Window)
  | Frame
  | LoadEvent (script ev : nat)
  | ErrorEvent (script ev : nat).

Definition step (DEV : bool) (a : Action) (st : State) : State :=
  match a with
  | CallLoadScript props w => snd (loadScript props w st)
  | Frame => animationFrame st
  | LoadEvent script ev => onload DEV script ev st
  | ErrorEvent script ev => onerror DEV script ev st
  end.

Fixpoint run (DEV : bool) (actions : list Action) (st : State) : State :=
  match actions with
  | [] => st
  | a :: rest => run DEV rest (step DEV a st)
  end.

Definition settlementOf (p : nat) (st : State) : option Settlement :=
  settlement <$> promises st !! p.

(** ** Vocabulary of the statements *)

(** An entry the loop copies: defined and not in the blocklist. *)
Definition copied (ignored : list string) (k : string) (value : Value) : bool :=
  negb (bool_decide (value = VUndefined) || includes k ignored).

(** The requested strategy: [load = 'afterHydration'] by default. *)
Definition requestedLoad (props : Object) : Value :=
  default_to (VString "afterHydration") (get "load" props).

(** [target = 'body'] by default. *)
Definition targetOf (props : Object) : Value :=
  default_to (VString "body") (get "target" props).

(** [reload = false] by default. *)
Definition reloadOf (props : Object) : Value :=
  default_to (VBool false) (get "reload" props).

(** The source URL of a descriptor: a [src] that is a non-empty string. *)
Definition sourceURL (props : Object) : option string :=
  match get "src" props with
  | VString s => if s =? "" then None else Some s
  | _ => None
  end.

(** The blocklist the loop of a creating call consults: the array after the
    push of [async] and [defer] when the descriptor has no [src]. *)
Definition blocklistFor (props : Object) (st : State) : list string :=
  if truthy (get "src" props) then ignoreProps st
  else ignoreProps st ++ ["async"; "defer"].

(** The name under which the element stores the attribute of the
    property [k]: the name the loader passes, lower-cased by the element. *)
Definition storedName (k : string) : string := toLowerCase (attributeName k).

(** The attribute [a] is only reached through the property of the same
    name: no property of the descriptor under another spelling ([Async],
    [DEFER]) is stored under it. *)
Definition spelt_exactly (a : string) (props : Object) : Prop :=
  forall k v, In (k, v) props -> storedName k = a -> k = a.

(** The descriptor without the properties of the given names. *)
Fixpoint omit (names : list string) (props : Object) : Object :=
  match props with
  | [] => []
  | (k, v) :: rest =>
      if includes k names then omit names rest else (k, v) :: omit names rest
  end.

(** [ScriptProps] types [src] as an optional string. *)
Definition src_typed (a : Action) : Prop :=
  match a with
  | CallLoadScript props w =>
      match get "src" props with
      | VUndefined | VNull | VString _ => True
      | _ => False
      end
  | _ => True
  end.

(** ** What events and frames leave alone *)

(** What a load or error event leaves alone: everything but the promises
    and the trace. *)
Definition same_page (st st' : State) : Prop :=
  ignoreProps st' = ignoreProps st /\
  StartTimeCache st' = StartTimeCache st /\
  PrevPathCache st' = PrevPathCache st /\
  LoadCache st' = LoadCache st /\
  ScriptCache st' = ScriptCache st /\
  elements st' = elements st /\
  animationFrames st' = animationFrames st /\
  document st' = document st.

(** What a rendering frame leaves alone: everything but the document, the
    queue and the trace. *)
Definition same_module (st st' : State) : Prop :=
  ignoreProps st' = ignoreProps st /\
  StartTimeCache st' = StartTimeCache st /\
  PrevPathCache st' = PrevPathCache st /\
  LoadCache st' = LoadCache st /\
  ScriptCache st' = ScriptCache st /\
  elements st' = elements st /\
  promises st' = promises st.

(** ** Promises and elements *)

(** Element [i] owns the promises [2 * i], which its listeners settle, and
    [2 * i + 1], which [.catch] returned. *)
Definition heap_wf (st : State) : Prop :=
  length (promises st) = 2 * length (elements st) /\
  forall i el, elements st !! i = Some el ->
    (exists l, el_onload el = Some l /\ ls_promise l = 2 * i) /\
    el_onerror el = Some (2 * i) /\
    (exists pr h, promises st !! (2 * i) = Some pr /\
                  reaction pr = Some h /\ ch_derived h = S (2 * i)) /\
    (exists pr, promises st !! S (2 * i) = Some pr /\ reaction pr = None).

(** The promises differ in their settlements only. *)
Definition same_reactions (ps ps' : list Promise) : Prop :=
  length ps' = length ps /\
  forall i, reaction <$> ps' !! i = reaction <$> ps !! i.

Definition not_event_on (script : nat) (a : Action) : Prop :=
  match a with
  | LoadEvent i _ | ErrorEvent i _ => i <> script
  | _ => True
  end.

(** What the page sees of the call of the callback [f], when it is
    given. *)
Definition callOf (f : Value) (arg : Argument) : list Observation :=
  if truthy f then
    match f with
    | VFunction _ => [Called f arg]
    | _ => []
    end
  else [].

(** The error that ends the call of the callback [f], when it is given
    and throws. *)
Definition failureOf (f : Value) : option string :=
  if truthy f then thrownBy f else None.

(** The callbacks of a descriptor as the loader reads them. *)
Definition onLoadOf (props : Object) : Value := get "onLoad" props.

Definition onReadyOf (props : Object) : Value :=
  default_to VNull (get "onReady" props).

Definition onErrorOf (props : Object) : Value :=
  default_to (VFunction NoOp) (get "onError" props).

Definition performanceLog (DEV : bool) (props : Object) : list Observation :=
  if DEV then [LoggedPerformance (scriptKey props) (get "src" props)] else [].

(** ** Live elements of a key *)

(** Whether element [e] was created for the key [k]. *)
Definition keyIs (k : string) (els : list HTMLScriptElement) (e : nat) : bool :=
  match els !! e with
  | Some el => bool_decide (el_key el = k)
  | None => false
  end.

Fixpoint liveIn (k : string) (els : list HTMLScriptElement) (ids : list nat)
    : list nat :=
  match ids with
  | [] => []
  | e :: rest => if keyIs k els e then e :: liveIn k els rest else liveIn k els rest
  end.

(** The elements of a key that are in the document. *)
Definition attached (k : string) (st : State) : list nat :=
  liveIn k (elements st) (head (document st) ++ body (document st)).

Definition otherTarget (t : TargetNode) : TargetNode :=
  match t with
  | Head => Body
  | Body => Head
  end.

#[global] Instance TargetNode_eq_dec : EqDecision TargetNode.
Proof. solve_decision. Defined.

(** The callbacks of the queue that concern the key [k], read in order from
    the element [cur] of the key that is in the document (if any): an append
    must find no element of the key attached, a removal must remove the one
    that is; both on the target [t]. The result is the element of the key
    that the queue leaves in the document. *)
Fixpoint schedule (k : string) (t : TargetNode) (els : list HTMLScriptElement)
    (cur : option nat) (q : list FrameCallback) : option (option nat) :=
  match q with
  | [] => Some cur
  | cb :: rest =>
      if keyIs k els (fc_script cb) then
        if fc_done cb then None
        else
          match resolveTarget (fc_target cb) with
          | Some t' =>
              if bool_decide (t' = t) then
                match fc_action cb, cur with
                | AppendScript, None => schedule k t els (Some (fc_script cb)) rest
                | RemoveScript, Some e =>
                    if (e =? fc_script cb)%nat then schedule k t els None rest
                    else None
                | _, _ => None
                end
              else None
          | None => None
          end
      else schedule k t els cur rest
  end.

(** The element [ScriptCache] tracks for a key. *)
Definition tracked (k : string) (st : State) : option nat :=
  ScriptCache st !! k ≫= script.

(** Every entry of [ScriptCache] holds a promise and an element made for
    its key. *)
Definition cache_wf (st : State) : Prop :=
  forall k sc, ScriptCache st !! k = Some sc ->
    exists p e el, sc = {| promise := Some p; script := Some e |} /\
                   elements st !! e = Some el /\ el_key el = k.

(** The queue and the document only mention elements that exist. *)
Definition bounded (st : State) : Prop :=
  (forall cb, In cb (animationFrames st) -> fc_script cb < length (elements st)) /\
  (forall e, In e (head (document st) ++ body (document st)) ->
             e < length (elements st)).

Definition one_live (k : string) (t : TargetNode) (st : State) : Prop :=
  cache_wf st /\ bounded st /\
  exists cur,
    liveIn k (elements st) (childrenOf t (document st)) = option_list cur /\
    liveIn k (elements st) (childrenOf (otherTarget t) (document st)) = [] /\
    schedule k t (elements st) cur (animationFrames st) = Some (tracked k st).

(** At most one element was made for the key [k]. *)
Definition one_made (k : string) (els : list HTMLScriptElement) : Prop :=
  forall e1 e2, keyIs k els e1 = true -> keyIs k els e2 = true -> e1 = e2.

(** No script is twice in the document. *)
Definition document_wf (d : Document) : Prop := NoDup (head d ++ body d).

(** At most one element was made for the key, the key of an element that
    was made is loaded, and no script is twice in the document. *)
Definition made_once (k : string) (st : State) : Prop :=
  one_made k (elements st) /\
  (forall e, keyIs k (elements st) e = true -> k ∈ LoadCache st) /\
  document_wf (document st).

(** No call of the run finds a reload of the key [k] due: each call that
    bears the key comes without [reload], or on the path of the call with
    that key before it. *)
Fixpoint reload_never_due (DEV : bool) (k : string) (actions : list Action)
    (st : State) : Prop :=
  match actions with
  | [] => True
  | a :: rest =>
      match a with
      | CallLoadScript props w =>
          scriptKey props = k ->
          pathChanged (location_pathname w) (PrevPathCache st !! k)
            && truthy (reloadOf props) = false
      | _ => True
      end /\ reload_never_due DEV k rest (step DEV a st)
  end.

(** The call finds its key loaded, on a changed path, with [reload], and
    an element tracked for it: the block of the reload runs. *)
Definition remountDue (props : Object) (w : Window) (st : State) : bool :=
  hasLoaded (scriptKey props) st
  && pathChanged (location_pathname w) (PrevPathCache st !! scriptKey props)
  && truthy (reloadOf props)
  && bool_decide (is_Some (tracked (scriptKey props) st)).

(** The call is answered "already loaded". *)
Definition shortCircuits (props : Object) (w : Window) (st : State) : bool :=
  hasLoaded (scriptKey props) st
  && negb (pathChanged (location_pathname w) (PrevPathCache st !! scriptKey props)
           && truthy (reloadOf props)).

(** Every call of the run that bears the key [k] and is not answered
    "already loaded" carries a [src] and names the target [t]. *)
Fixpoint mounts_on (DEV : bool) (k : string) (t : TargetNode) (actions : list Action)
    (st : State) : Prop :=
  match actions with
  | [] => True
  | a :: rest =>
      match a with
      | CallLoadScript props w =>
          scriptKey props = k ->
          shortCircuits props w st = true \/
          (truthy (get "src" props) = true /\ resolveTarget (targetOf props) = Some t)
      | _ => True
      end /\ mounts_on DEV k t rest (step DEV a st)
  end.

(** The calls of a run that bear on the key [k] carry a source URL and
    name the target [t]. *)
Definition loads_from_source (k : string) (t : TargetNode) (a : Action) : Prop :=
  match a with
  | CallLoadScript props w =>
      scriptKey props = k ->
      truthy (get "src" props) = true /\ resolveTarget (targetOf props) = Some t
  | _ => True
  end.

(** Every tracked key is loaded and tracked in full. *)
Definition tracked_loaded (st : State) : Prop :=
  forall k sc, ScriptCache st !! k = Some sc ->
    hasLoaded k st = true /\ is_Some (promise sc) /\ is_Some (script sc).

(** ** The exported caches, written from outside the loader *)

(** [LoadCache.delete(key)]. *)
Definition evict (key : string) (st : State) : State :=
  set_LoadCache (fun c => c ∖ {[key]}) st.

(** [ScriptCache.set(key, {script})]: an entry without a promise. *)
Definition track_without_promise (key : string) (el : nat) (st : State) : State :=
  set_ScriptCache (<[key := {| promise := None; script := Some el |}]>) st.

(** ** Sample windows and descriptors *)

Definition home : Window := {| location_pathname := "/"; performance_now := 5 |}.

Definition about : Window := {| location_pathname := "/about"; performance_now := 9 |}.

Definition worker_descriptor : Object :=
  [("id", VString "analytics"); ("src", VString "/ga.js");
   ("type", VString "module"); ("load", VString "inWorker")].

Definition inline_descriptor : Object :=
  [("id", VString "gtm"); ("async", VBool true); ("defer", VBool true);
   ("children", VString "window.dataLayer = []")].


Definition cdn_descriptor : Object :=
  [("id", VString "a"); ("src", VString "b.js")].

(** No [src], and the same key as [cdn_descriptor]. *)
Definition shadow_descriptor : Object :=
  [("id", VString "ab.js"); ("children", VString "init()")].

Definition async_descriptor : Object :=
  [("id", VString "y"); ("src", VString "/z.js"); ("async", VBool true)].

(** An empty [id] and no [src]: the key is the empty string. *)
Definition keyless_descriptor : Object :=
  [("id", VString ""); ("children", VString "init()")].

Definition reloading_descriptor : Object :=
  [("id", VString "chat"); ("src", VString "/chat.js"); ("target", VString "head");
   ("reload", VBool true)].

Definition chat_body : Object :=
  [("id", VString "chat"); ("src", VString "/chat.js"); ("target", VString "body");
   ("reload", VBool true)].

Definition inline_reloading : Object :=
  [("id", VString "pixel"); ("children", VString "track()"); ("reload", VBool true)].

Definition callbacks_descriptor : Object :=
  [("id", VString "maps"); ("src", VString "/maps.js");
   ("onLoad", VFunction (Callback 1)); ("onReady", VFunction (Callback 2));
   ("onError", VFunction (Callback 3))].

(** Callbacks that throw. *)
Definition throwing_descriptor : Object :=
  [("id", VString "maps"); ("src", VString "/maps.js");
   ("onLoad", VFunction (Thrower 1 "RangeError")); ("onReady", VFunction (Callback 2));
   ("onError", VFunction (Thrower 3 "SyntaxError"))].

(** [async] under another spelling. *)
Definition capital_descriptor : Object :=
  [("id", VString "gtm"); ("Async", VBool true);
   ("children", VString "window.dataLayer = []")].

(** ** Vocabulary of the further properties *)

(** An element made from a descriptor without a source URL. *)
Definition sourceless (el : HTMLScriptElement) : bool :=
  match el_onload el with
  | Some l => negb (truthy (ls_src l))
  | None => false
  end.

Fixpoint countIf {A : Type} (f : A -> bool) (l : list A) : nat :=
  match l with
  | [] => 0
  | x :: rest => (if f x then 1 else 0) + countIf f rest
  end.

(** No call of the run bears on the key [k]. *)
Definition other_key (k : string) (a : Action) : Prop :=
  match a with
  | CallLoadScript props w => scriptKey props <> k
  | _ => True
  end.

(** [n] pushes of [async] and [defer]. *)
Fixpoint pushes (n : nat) : list string :=
  match n with
  | 0 => []
  | S m => pushes m ++ ["async"; "defer"]
  end.

(** The text a descriptor gives to the body of its element. *)
Definition rawHtml (props : Object) : string :=
  match get "dangerouslySetInnerHTML" props with
  | VHtml (Some html) => html
  | _ => ""
  end.

Definition childrenText (props : Object) : string :=
  match default_to (VString "") (get "children" props) with
  | VString s => s
  | VArray items => join items
  | _ => ""
  end.

Definition both_bodies_descriptor : Object :=
  [("id", VString "boot"); ("dangerouslySetInnerHTML", VHtml (Some "  init()  "));
   ("children", VArray ["a()"; "b()"])].

(** * The worker entry: caching of assets *)

Module Worker.

(** [s.split(sep)] for a separator of one character: never an empty
    array. *)
Fixpoint split (sep : ascii) (s : string) : list string :=
  match s with
  | EmptyString => [""]
  | String c rest =>
      if Ascii.eqb c sep then "" :: split sep rest
      else
        match split sep rest with
        | piece :: pieces => String c piece :: pieces
        | [] => [String c ""]
        end
  end.

(** [array.pop()]: the last element; [None] is the [undefined] of an empty
    array. *)
Fixpoint pop (l : list string) : option string :=
  match l with
  | [] => None
  | [x] => Some x
  | _ :: rest => pop rest
  end.

(** The part of a [Response] the handler reads and writes. Its headers
    are read by name: a name holds one value, which combines what was given
    under it. *)
Record Response : Type := {
  status : nat;
  headers : gmap string string;
  body : string
}.

(** What awaiting a promise gives: its value, or the error it was rejected
    with (or that was thrown on the way). *)
Inductive Outcome : Type :=
  | Returned (r : Response)
  | Failed (error : string).

(** [response.headers.append(name, value)]: names are kept in lower case,
    and a value appended to a name that has one already is joined to it
    with a comma and a space. *)
Definition headers_append (name value : string) (r : Response) : Response :=
  let name := toLowerCase name in
  {| status := status r;
     headers :=
       <[name := match headers r !! name with
                 | Some old => old +:+ ", " +:+ value
                 | None => value
                 end]> (headers r);
     body := body r |}.

(** [filename.split('.').length > 2 ? 31536000 : 86400]. *)
Definition maxAge (filename : string) : N :=
  if (2 <? length (split "." filename))%nat then 31536000%N else 86400%N.

(** [assetHandler(url)], given the outcome of [getAssetFromKV] and
    [url.pathname]. Reading [split] of a missing file name is the
    TypeError of a property read on [undefined]. *)
Definition assetHandler (fetched : Outcome) (pathname : string) : Outcome :=
  match fetched with
  | Failed error => Failed error
  | Returned response =>
      if (status response <? 400)%nat then
        match pop (split "/" pathname) with
        | Some filename =>
            Returned
              (headers_append "cache-control"
                 ("public, max-age=" +:+ pretty (maxAge filename)) response)
        | None => Failed "TypeError"
        end
      else Returned response
  end.

(** The number of occurrences of a character. *)
Fixpoint occurrences (c : ascii) (s : string) : nat :=
  match s with
  | EmptyString => 0
  | String x rest => (if Ascii.eqb x c then 1 else 0) + occurrences c rest
  end.

End Worker.

(** * The script rendered before hydration *)

Module BeforeHydration.

Definition ignoreProps : list string := ["load"; "onReady"; "target"].

(** [delete o[k]]. *)
Fixpoint delete_key (k : string) (o : Object) : Object :=
  match o with
  | [] => []
  | (k', v) :: rest =>
      if k =? k' then delete_key k rest else (k', v) :: delete_key k rest
  end.

(** [o[k] = v]: an own key keeps its place, a new one goes last. *)
Fixpoint assign (k : string) (v : Value) (o : Object) : Object :=
  match o with
  | [] => [(k, v)]
  | (k', v') :: rest =>
      if k =? k' then (k, v) :: rest else (k', v') :: assign k v rest
  end.

(** [{...dst, ...src}]. *)
Fixpoint spread (src dst : Object) : Object :=
  match src with
  | [] => dst
  | (k, v) :: rest => spread rest (assign k v dst)
  end.

(** The element a JSX expression evaluates to. React keeps [key] apart
    from the props, and a component never finds [key] among the props it is
    given. *)
Record ReactElement : Type := {
  type : string;
  key : string;
  props : Object
}.

Inductive Rendering : Type :=
  | Rendered (el : ReactElement)
  | Threw (error : string).

(** The copy of the props without the keys of [ignoreProps]: the
    [reduce] over [Object.keys(passedProps)]. *)
Fixpoint withoutIgnored (keys : list string) (acc : Object) : Object :=
  match keys with
  | [] => acc
  | k :: rest =>
      withoutIgnored rest (if includes k ignoreProps then delete_key k acc else acc)
  end.

(** [typeof srcProp === 'string' ? srcProp : undefined]. *)
Definition srcOf (passedProps : Object) : Value :=
  match default_to VNull (get "src" passedProps) with
  | VString s => VString s
  | _ => VUndefined
  end.

(** [props.dangerouslySetInnerHTML?.__html]. *)
Definition htmlOf (props : Object) : Value :=
  match get "dangerouslySetInnerHTML" props with
  | VHtml (Some html) => VString html
  | _ => VUndefined
  end.

(** [!src && (props.children !== undefined ||
    props.dangerouslySetInnerHTML?.__html)]. *)
Definition isInlineScript (passedProps : Object) : bool :=
  let props := withoutIgnored (map fst passedProps) passedProps in
  negb (truthy (srcOf passedProps))
  && (negb (bool_decide (get "children" props = VUndefined)) || truthy (htmlOf props)).

(** [items.join(',')]. *)
Fixpoint joinWithComma (items : list string) : string :=
  match items with
  | [] => ""
  | [x] => x
  | x :: rest => x +:+ "," +:+ joinWithComma rest
  end.

(** The text of [id] in [id + js.slice(0, 24)]. [BeforeHydrationProps]
    types [id] as a string, which may be missing; a number is read as an
    integer that is printed in decimal, and the source text of a function,
    which the model does not hold, as the empty text. *)
Definition idText (id : Value) : string :=
  match id with
  | VString s => s
  | VUndefined => "undefined"
  | VNull => "null"
  | VBool true => "true"
  | VBool false => "false"
  | VNumber n => pretty n
  | VArray items => joinWithComma items
  | VHtml _ => "[object Object]"
  | VFunction _ => ""
  end.

Definition ScriptBeforeHydration (passedProps : Object) : Rendering :=
  let id := get "id" passedProps in
  let src := srcOf passedProps in
  let props := withoutIgnored (map fst passedProps) passedProps in
  if isInlineScript passedProps then
    let props := delete_key "src" props in
    let inline (js : string) (props : Object) :=
      Rendered
        {| type := "script";
           key := idText id +:+ slice 24 js;
           props :=
             assign "data-load" (VString "beforeHydration")
               (assign "dangerouslySetInnerHTML" (VHtml (Some js))
                  (assign "suppressHydrationWarning" (VBool true)
                     (spread props [("id", id)]))) |} in
    if truthy (get "children" props) then
      inline
        (match get "children" props with
         | VString s => s
         | VArray items => join items
         | _ => ""
         end)
        (delete_key "children" props)
    else if truthy (get "dangerouslySetInnerHTML" props) then
      match get "dangerouslySetInnerHTML" props with
      | VHtml (Some html) => inline (trim html) (delete_key "dangerouslySetInnerHTML" props)
      | _ => Threw "TypeError"
      end
    else inline "" props
  else
    Rendered
      {| type := "script";
         key := or_empty id +:+ or_empty src;
         props :=
           assign "data-load" (VString "beforeHydration")
             (assign "defer" (VBool false)
                (assign "async" (VBool false)
                   (assign "src" src
                      (assign "id" id (spread props []))))) |}.

Definition keys (o : Object) : list string := map fst o.

End BeforeHydration.

Definition hashed_asset : Worker.Response :=
  {| Worker.status := 200;
     Worker.headers := {[ "content-type" := "text/css" ]};
     Worker.body := "" |}.

(** A response that comes with a cache policy of its own. *)
Definition uncached_asset : Worker.Response :=
  {| Worker.status := 200;
     Worker.headers := {[ "cache-control" := "no-store" ]};
     Worker.body := "" |}.

Definition inline_children_props : Object :=
  [("id", VString "gtm"); ("load", VString "beforeHydration");
   ("dangerouslySetInnerHTML", VHtml (Some " ignored() "));
   ("children", VArray ["window.dataLayer = window.dataLayer || [];"; "go()"])].

Definition external_props : Object :=
  [("id", VString "cdn"); ("src", VString "/before.js"); ("async", VBool true);
   ("defer", VBool true); ("target", VString "head"); ("onReady", VFunction (Callback 1))].

Definition external_rendered : BeforeHydration.ReactElement :=
  {| BeforeHydration.type := "script";
     BeforeHydration.key := "cdn/before.js";
     BeforeHydration.props :=
       [("id", VString "cdn"); ("src", VString "/before.js");
        ("async", VBool false); ("defer", VBool false);
        ("data-load", VString "beforeHydration")] |}.

Definition inline_rendered : BeforeHydration.ReactElement :=
  {| BeforeHydration.type := "script";
     BeforeHydration.key := "gtmwindow.dataLayer = windo";
     BeforeHydration.props :=
       [("id", VString "gtm");
        ("dangerouslySetInnerHTML",
         VHtml (Some "window.dataLayer = window.dataLayer || [];go()"));
        ("suppressHydrationWarning", VBool true);
        ("data-load", VString "beforeHydration")] |}.

(** The element of an inline script, for the body [js] and the props that
    are left. *)
Definition inlineElement (id : Value) (js : string) (props : Object)
    : BeforeHydration.ReactElement :=
  {| BeforeHydration.type := "script";
     BeforeHydration.key := BeforeHydration.idText id +:+ slice 24 js;
     BeforeHydration.props :=
       BeforeHydration.assign "data-load" (VString "beforeHydration")
         (BeforeHydration.assign "dangerouslySetInnerHTML" (VHtml (Some js))
            (BeforeHydration.assign "suppressHydrationWarning" (VBool true)
               (BeforeHydration.spread props [("id", id)]))) |}.

(** The props the component spreads in the inline case, before the
    body's source is taken out. *)
Definition inlineProps (passedProps : Object) : Object :=
  BeforeHydration.delete_key "src"
    (BeforeHydration.withoutIgnored (map fst passedProps) passedProps).

(** The usage example of the component with children, whose first
    string holds a character of four bytes. *)
Definition example_children_props : Object :=
  [("id", VString "beforeHydration-children"); ("load", VString "beforeHydration");
   ("children",
    VArray ["console.log('🎉 Inline code inside <Script children/> works');";
            "window.dataLayer = window.dataLayer || [];"])].

Definition example_children_rendered : BeforeHydration.ReactElement :=
  {| BeforeHydration.type := "script";
     BeforeHydration.key := "beforeHydration-childrenconsole.log('🎉 Inline c";
     BeforeHydration.props :=
       [("id", VString "beforeHydration-children");
        ("suppressHydrationWarning", VBool true);
        ("dangerouslySetInnerHTML",
         VHtml (Some ("console.log('🎉 Inline code inside <Script children/> works');"
                      +:+ "window.dataLayer = window.dataLayer || [];")));
        ("data-load", VString "beforeHydration")] |}.

Definition empty_object_html_props : Object :=
  [("id", VString "boot"); ("children", VString "");
   ("dangerouslySetInnerHTML", VHtml None)].

Definition forwarded_props : Object :=
  [("id", VString "cdn"); ("src", VString "/before.js");
   ("crossOrigin", VString "anonymous"); ("load", VString "beforeHydration")].

Definition forwarded_rendered : BeforeHydration.ReactElement :=
  {| BeforeHydration.type := "script";
     BeforeHydration.key := "cdn/before.js";
     BeforeHydration.props :=
       [("id", VString "cdn"); ("src", VString "/before.js");
        ("crossOrigin", VString "anonymous"); ("async", VBool false);
        ("defer", VBool false); ("data-load", VString "beforeHydration")] |}.

(** * Properties *)

(** ** Attributes of a new element *)



(** The attribute an element stores under the name [n]. *)
Lemma attributes_setAttribute n b v el :
  el_attributes (setAttribute b v el) !! n =
  if decide (toLowerCase b = n) then Some v else el_attributes el !! n.
Proof. unfold setAttribute; cbn [el_attributes]. apply lookup_insert. Qed.

Lemma getAttribute_stored a el :
  getAttribute a el = el_attributes el !! toLowerCase a.
Proof. reflexivity. Qed.

Lemma includes_In k l : includes k l = true <-> In k l.
Proof.
  induction l as [|x l IH]; simpl; [split; [discriminate | tauto]|].
  rewrite orb_true_iff, IH, String.eqb_eq. split; intros [H|H]; auto.
Qed.

Lemma includes_app k l1 l2 : includes k (l1 ++ l2) = includes k l1 || includes k l2.
Proof.
  induction l1 as [|x l1 IH]; simpl; [reflexivity|].
  now rewrite IH, orb_assoc.
Qed.

Lemma spreadProps_cons ignored k value rest el :
  spreadProps ignored ((k, value) :: rest) el =
  spreadProps ignored rest
    (if copied ignored k value then setAttribute (attributeName k) value el else el).
Proof.
  unfold copied; simpl.
  destruct (bool_decide (value = VUndefined) || includes k ignored); reflexivity.
Qed.

(** An attribute no copied entry is stored under is left as it was. *)
Lemma spreadProps_untouched ignored n entries : forall el,
  (forall k v, In (k, v) entries -> copied ignored k v = true -> storedName k <> n) ->
  el_attributes (spreadProps ignored entries el) !! n = el_attributes el !! n.
Proof.
  induction entries as [|[k v] rest IH]; intros el H; [reflexivity|].
  rewrite spreadProps_cons, IH.
  - destruct (copied ignored k v) eqn:E; [|reflexivity].
    rewrite attributes_setAttribute.
    destruct (decide (toLowerCase (attributeName k) = n)) as [Heq|]; [|reflexivity].
    exfalso. eapply H; [left; reflexivity| |]; eassumption.
  - intros k' v' Hin. apply H. right; exact Hin.
Qed.





Lemma spreadProps_fields ignored entries : forall el,
  let el' := spreadProps ignored entries el in
  el_key el' = el_key el /\ el_text el' = el_text el /\
  el_onload el' = el_onload el /\ el_onerror el' = el_onerror el.
Proof.
  induction entries as [|[k v] rest IH]; intros el; [simpl; tauto|].
  cbv zeta. rewrite spreadProps_cons.
  destruct (copied ignored k v); [exact (IH (setAttribute _ _ el)) | exact (IH el)].
Qed.

Lemma setBody_attributes h c el : el_attributes (setBody h c el) = el_attributes el.
Proof. unfold setBody. destruct (truthy h); [reflexivity|]. now destruct (truthy c). Qed.

(** The attributes of a new element: [data-load] and, in a worker, [type]
    are written after the loop and win; the rest comes from the loop. *)
Lemma buildScript_attributes ignored props key inner n :
  el_attributes (buildScript ignored props key inner) !! n =
  if decide ("data-load" = n) then
    Some (if truthy (get "src" props) then requestedLoad props else VString "inline")
  else if decide (requestedLoad props = VString "inWorker" /\ "type" = n) then
    Some (VString "text/partytown")
  else el_attributes (spreadProps ignored props (createElement key)) !! n.
Proof.
  unfold buildScript, requestedLoad.
  set (load := default_to _ (get "load" props)).
  set (body := setBody _ _ _).
  assert (Hsp : forall b, el_attributes (spreadProps ignored props body) !! b
                      = el_attributes (spreadProps ignored props (createElement key)) !! b).
  { assert (Hb : el_attributes body = el_attributes (createElement key))
      by apply setBody_attributes.
    clearbody body. revert Hb. generalize (createElement key).
    revert body. induction props as [|[k v] rest IH]; intros e1 e2 Hb b.
    - simpl. now rewrite Hb.
    - rewrite !spreadProps_cons. apply IH.
      destruct (copied ignored k v); [|exact Hb].
      unfold setAttribute; simpl. now rewrite Hb. }
  change (el_attributes (set_listeners ?l ?p ?e)) with (el_attributes e).
  destruct (truthy (get "src" props));
    rewrite attributes_setAttribute;
    change (toLowerCase "data-load") with "data-load";
    (destruct (decide ("data-load" = n)); [reflexivity|]);
    (case_bool_decide as Hl;
     [ rewrite attributes_setAttribute;
       change (toLowerCase "type") with "type";
       destruct (decide ("type" = n));
       [ rewrite decide_True by tauto; reflexivity
       | rewrite decide_False by tauto; apply Hsp ]
     | rewrite decide_False by tauto; apply Hsp ]).
Qed.

(** ** The shape of a call *)

Lemma app_one_neq {A} (l : list A) (x : A) : l <> l ++ [x].
Proof.
  intros H. apply (f_equal (@length A)) in H.
  rewrite length_app in H. simpl in H. lia.
Qed.

Lemma remount_frame key target st :
  elements (remount key target st) = elements st /\
  ignoreProps (remount key target st) = ignoreProps st /\
  promises (remount key target st) = promises st /\
  document (remount key target st) = document st /\
  trace (remount key target st) = trace st /\
  PrevPathCache (remount key target st) = PrevPathCache st.
Proof.
  unfold remount. destruct (ScriptCache st !! key) as [[p [e|]]|]; simpl; tauto.
Qed.

Lemma stampStart_frame key w st :
  elements (stampStart key w st) = elements st /\
  ignoreProps (stampStart key w st) = ignoreProps st /\
  promises (stampStart key w st) = promises st /\
  document (stampStart key w st) = document st /\
  trace (stampStart key w st) = trace st /\
  PrevPathCache (stampStart key w st) = PrevPathCache st /\
  ScriptCache (stampStart key w st) = ScriptCache st /\
  LoadCache (stampStart key w st) = LoadCache st /\
  animationFrames (stampStart key w st) = animationFrames st.
Proof.
  unfold stampStart. destruct (StartTimeCache st !! key); simpl; tauto.
Qed.

Lemma createScript_elements props key st :
  elements (snd (createScript props key st)) =
  elements st ++ [buildScript (blocklistFor props st) props key (length (promises st))].
Proof.
  unfold createScript, blocklistFor. destruct (truthy (get "src" props)); reflexivity.
Qed.

Lemma createScript_ignoreProps props key st :
  ignoreProps (snd (createScript props key st)) = blocklistFor props st.
Proof.
  unfold createScript, blocklistFor. destruct (truthy (get "src" props)); reflexivity.
Qed.

Lemma mountScript_elements props key w st :
  elements (snd (mountScript props key w st)) = elements st \/
  (ScriptCache st !! key = None /\
   mountScript props key w st = createScript props key (stampStart key w st)).
Proof.
  unfold mountScript.
  destruct (stampStart_frame key w st) as (He & _ & _ & _ & _ & _ & Hc & _).
  rewrite Hc. destruct (ScriptCache st !! key) as [[[p|] e]|]; simpl; auto.
Qed.

(** A call that adds an element went through [createScript], from a state
    with the same elements, promises and blocklist, in which the key has no
    entry in [ScriptCache]. *)
Lemma loadScript_creates props w st c st' el :
  loadScript props w st = (c, st') ->
  elements st' = elements st ++ [el] ->
  exists st1,
    createScript props (scriptKey props) st1 = (c, st') /\
    elements st1 = elements st /\ ignoreProps st1 = ignoreProps st /\
    promises st1 = promises st /\ ScriptCache st1 !! scriptKey props = None.
Proof.
  unfold loadScript. set (key := scriptKey props).
  set (st0 := set_PrevPathCache _ st).
  set (target := default_to _ (get "target" props)).
  assert (H0 : elements st0 = elements st /\ ignoreProps st0 = ignoreProps st /\
               promises st0 = promises st) by (simpl; tauto).
  assert (Hm : forall s, elements s = elements st -> ignoreProps s = ignoreProps st ->
             promises s = promises st ->
             mountScript props key w s = (c, st') ->
             elements st' = elements st ++ [el] ->
             exists st1, createScript props key st1 = (c, st') /\
               elements st1 = elements st /\ ignoreProps st1 = ignoreProps st /\
               promises st1 = promises st /\ ScriptCache st1 !! key = None).
  { intros s He Hi Hp Hs Hel.
    destruct (mountScript_elements props key w s) as [Hsame|[Hnone Hcr]].
    - rewrite Hs in Hsame. simpl in Hsame. rewrite Hsame, He in Hel.
      now apply app_one_neq in Hel.
    - exists (stampStart key w s).
      destruct (stampStart_frame key w s) as (E1 & E2 & E3 & _ & _ & _ & E4 & _).
      rewrite <- Hcr, E1, E2, E3, E4. auto. }
  destruct H0 as (E1 & E2 & E3).
  destruct (hasLoaded key st).
  - destruct (negb _).
    + intros [= <- <-] Hel. rewrite E1 in Hel. now apply app_one_neq in Hel.
    + destruct (remount_frame key target st0) as (R1 & R2 & R3 & _).
      apply Hm; congruence.
  - apply Hm; assumption.
Qed.

Lemma createScript_created props key st c st' el :
  createScript props key st = (c, st') ->
  elements st' = elements st ++ [el] ->
  el = buildScript (blocklistFor props st) props key (length (promises st)).
Proof.
  intros H Hel.
  pose proof (createScript_elements props key st) as E.
  rewrite H in E. simpl in E. rewrite E in Hel.
  apply app_inj_tail in Hel. now destruct Hel.
Qed.

Lemma blocked_attribute_absent ignored props key inner a :
  In a ignored -> spelt_exactly a props ->
  a <> "data-load" -> a <> "type" ->
  el_attributes (buildScript ignored props key inner) !! a = None.
Proof.
  intros Hin Hsp Hd Ht. rewrite buildScript_attributes.
  rewrite decide_False by congruence.
  rewrite decide_False by (intros [_ E]; congruence).
  rewrite spreadProps_untouched; [reflexivity|].
  intros k v Hk Hc Hname. apply (Hsp k v Hk) in Hname. subst k.
  unfold copied in Hc. apply includes_In in Hin. rewrite Hin, orb_true_r in Hc.
  discriminate.
Qed.

(** ** A descriptor without some of its properties *)

Lemma get_omit names k props :
  includes k names = false -> get k (omit names props) = get k props.
Proof.
  intros Hk. induction props as [|[k0 v0] rest IH]; [reflexivity|].
  cbn [omit get]. destruct (includes k0 names) eqn:E0.
  - rewrite IH. destruct (k =? k0) eqn:E; [|reflexivity].
    apply String.eqb_eq in E. subst k0. congruence.
  - cbn [get]. now rewrite IH.
Qed.

(** The loop skips the properties of the blocklist: it does not matter
    whether the descriptor holds them. *)
Lemma spreadProps_omit ignored names props : forall el,
  (forall a, In a names -> In a ignored) ->
  spreadProps ignored (omit names props) el = spreadProps ignored props el.
Proof.
  intros el Hsub. revert el.
  induction props as [|[k v] rest IH]; intros el; [reflexivity|].
  cbn [omit]. destruct (includes k names) eqn:E.
  - rewrite IH, spreadProps_cons.
    assert (Hc : copied ignored k v = false).
    { unfold copied. apply includes_In, Hsub, includes_In in E.
      now rewrite E, orb_true_r. }
    now rewrite Hc.
  - now rewrite !spreadProps_cons, IH.
Qed.

Lemma buildScript_omit ignored props key inner :
  In "async" ignored -> In "defer" ignored ->
  buildScript ignored (omit ["async"; "defer"] props) key inner =
  buildScript ignored props key inner.
Proof.
  intros Ha Hd. unfold buildScript.
  rewrite !get_omit by reflexivity.
  rewrite spreadProps_omit; [reflexivity|].
  intros a [<-|[<-|[]]]; assumption.
Qed.

Lemma createScript_omit props key st :
  In "async" (blocklistFor props st) -> In "defer" (blocklistFor props st) ->
  createScript (omit ["async"; "defer"] props) key st = createScript props key st.
Proof.
  unfold blocklistFor, createScript, newLoadPromise. intros Ha Hd.
  rewrite !get_omit by reflexivity.
  destruct (truthy (get "src" props)); cbn [negb];
    rewrite buildScript_omit by assumption; reflexivity.
Qed.

Lemma mountScript_omit props key w st :
  In "async" (blocklistFor props st) -> In "defer" (blocklistFor props st) ->
  mountScript (omit ["async"; "defer"] props) key w st = mountScript props key w st.
Proof.
  intros Ha Hd. unfold mountScript.
  destruct (ScriptCache _ !! _); [reflexivity|].
  apply createScript_omit; unfold blocklistFor in *;
    now destruct (stampStart_frame key w st) as (_ & -> & _).
Qed.

(** A call whose loop would skip [async] and [defer] does what it does
    for the descriptor without these two properties. *)
Lemma loadScript_omit props w st :
  In "async" (blocklistFor props st) -> In "defer" (blocklistFor props st) ->
  loadScript (omit ["async"; "defer"] props) w st = loadScript props w st.
Proof.
  intros Ha Hd. unfold loadScript, scriptKey.
  rewrite !get_omit by reflexivity.
  fold (scriptKey props).
  destruct (hasLoaded _ _).
  - destruct (negb _); [reflexivity|].
    apply mountScript_omit; unfold blocklistFor in *;
      match goal with |- context [remount ?k ?t ?s] =>
        destruct (remount_frame k t s) as (_ & -> & _) end; assumption.
  - apply mountScript_omit; assumption.
Qed.

(** C6: a new element of a descriptor with a source URL carries
    [data-load] with the requested load strategy: the [load] of the
    descriptor when it has one, and [afterHydration] when it has none. A
    new element of a descriptor whose strategy is [inWorker] carries
    [type="text/partytown"], whatever [type] the descriptor itself
    supplies. *)
Theorem strategy_tag_and_worker_type props w st c st' el :
  loadScript props w st = (c, st') ->
  elements st' = elements st ++ [el] ->
  (truthy (get "src" props) = true ->
   (forall load, get "load" props = load -> load <> VUndefined ->
      getAttribute "data-load" el = Some load) /\
   (get "load" props = VUndefined ->
      getAttribute "data-load" el = Some (VString "afterHydration"))) /\
  (get "load" props = VString "inWorker" ->
   getAttribute "type" el = Some (VString "text/partytown")).
Proof.
  intros Hcall Hel.
  destruct (loadScript_creates _ _ _ _ _ _ Hcall Hel) as (st1 & Hcr & He & _).
  rewrite <- He in Hel.
  rewrite (createScript_created _ _ _ _ _ _ Hcr Hel).
  rewrite !getAttribute_stored.
  change (toLowerCase "data-load") with "data-load".
  change (toLowerCase "type") with "type".
  split.
  - intros Hsrc. split.
    + intros load Hload Hdef. rewrite buildScript_attributes, Hsrc.
      rewrite decide_True by reflexivity. unfold requestedLoad. rewrite Hload.
      destruct load; try reflexivity. contradiction.
    + intros Hload. rewrite buildScript_attributes, Hsrc.
      rewrite decide_True by reflexivity. unfold requestedLoad. now rewrite Hload.
  - intros Hload. rewrite buildScript_attributes.
    rewrite decide_False by discriminate.
    rewrite decide_True; [reflexivity|].
    unfold requestedLoad. rewrite Hload. auto.
Qed.

Lemma strategy_tag_and_worker_type_witness :
  let worker := buildScript initial_ignoreProps worker_descriptor "analytics/ga.js" 0 in
  let plain := buildScript initial_ignoreProps cdn_descriptor "ab.js" 0 in
  getAttribute "data-load" worker = Some (VString "inWorker") /\
  getAttribute "type" worker = Some (VString "text/partytown") /\
  getAttribute "data-load" plain = Some (VString "afterHydration").
Proof.
  intros worker plain.
  destruct (strategy_tag_and_worker_type worker_descriptor home initial
              (fst (loadScript worker_descriptor home initial))
              (snd (loadScript worker_descriptor home initial)) worker) as [H1 H2].
  - apply surjective_pairing.
  - vm_compute. reflexivity.
  - destruct (strategy_tag_and_worker_type cdn_descriptor home initial
                (fst (loadScript cdn_descriptor home initial))
                (snd (loadScript cdn_descriptor home initial)) plain) as [H3 _].
    + apply surjective_pairing.
    + vm_compute. reflexivity.
    + split; [|split].
      * apply (proj1 (H1 eq_refl) (VString "inWorker")); [reflexivity|discriminate].
      * apply H2. reflexivity.
      * apply (proj2 (H3 eq_refl)). reflexivity.
Defined.

(** C5, as amended: for a descriptor without a source URL that creates a
    new element, the [async] and [defer] properties of the descriptor are
    not copied: the call does what it does for the descriptor without
    them, and the element has no [async] (no [defer]) attribute unless
    another property of the descriptor is stored under that name. The
    element carries [data-load="inline"]; the call completes with the
    resolved [{status: true, event: "inline script"}] and leaves no entry
    for the key in [ScriptCache]. *)
Theorem inline_script_created props w st c st' el :
  truthy (get "src" props) = false ->
  loadScript props w st = (c, st') ->
  elements st' = elements st ++ [el] ->
  loadScript (omit ["async"; "defer"] props) w st = (c, st') /\
  (spelt_exactly "async" props -> getAttribute "async" el = None) /\
  (spelt_exactly "defer" props -> getAttribute "defer" el = None) /\
  getAttribute "data-load" el = Some (VString "inline") /\
  (exists r, c = Resolved r /\ status r = true /\ event r = Message "inline script") /\
  ScriptCache st' !! scriptKey props = None.
Proof.
  intros Hsrc Hcall Hel.
  assert (Hb : forall s, blocklistFor props s = ignoreProps s ++ ["async"; "defer"])
    by (intros s; unfold blocklistFor; now rewrite Hsrc).
  split.
  { rewrite loadScript_omit; [exact Hcall| |]; rewrite Hb; apply in_or_app; right;
      simpl; auto. }
  destruct (loadScript_creates _ _ _ _ _ _ Hcall Hel) as (st1 & Hcr & He & _ & _ & Hnone).
  rewrite <- He in Hel.
  rewrite (createScript_created _ _ _ _ _ _ Hcr Hel).
  rewrite Hb, !getAttribute_stored.
  change (toLowerCase "async") with "async".
  change (toLowerCase "defer") with "defer".
  change (toLowerCase "data-load") with "data-load".
  repeat match goal with |- _ /\ _ => split end.
  - intros Ha. apply blocked_attribute_absent; try discriminate; [|exact Ha].
    apply in_or_app; right; simpl; auto.
  - intros Hd. apply blocked_attribute_absent; try discriminate; [|exact Hd].
    apply in_or_app; right; simpl; auto.
  - rewrite buildScript_attributes, Hsrc. reflexivity.
  - unfold createScript in Hcr. rewrite Hsrc in Hcr. simpl in Hcr.
    injection Hcr as <- _. eexists. split; [reflexivity|]. split; reflexivity.
  - unfold createScript in Hcr. rewrite Hsrc in Hcr. simpl in Hcr.
    injection Hcr as _ <-. exact Hnone.
Qed.

Lemma inline_script_created_witness :
  let el := buildScript (initial_ignoreProps ++ ["async"; "defer"])
              inline_descriptor "gtm" 0 in
  loadScript [("id", VString "gtm"); ("children", VString "window.dataLayer = []")]
    home initial = loadScript inline_descriptor home initial /\
  getAttribute "async" el = None /\
  getAttribute "defer" el = None /\
  getAttribute "data-load" el = Some (VString "inline") /\
  fst (loadScript inline_descriptor home initial) =
    Resolved {| status := true; event := Message "inline script" |}.
Proof.
  intros el.
  destruct (inline_script_created inline_descriptor home initial
              (fst (loadScript inline_descriptor home initial))
              (snd (loadScript inline_descriptor home initial)) el)
    as (H1 & H2 & H3 & H4 & (r & H5 & H6 & H7) & _).
  - reflexivity.
  - apply surjective_pairing.
  - vm_compute. reflexivity.
  - assert (Hsp : forall a, a = "async" \/ a = "defer" -> spelt_exactly a inline_descriptor).
    { intros a Ha k v Hin Hname. simpl in Hin.
      destruct Ha as [-> | ->];
        repeat (destruct Hin as [[= <- <-]|Hin];
                [first [reflexivity | discriminate Hname]|]);
        destruct Hin. }
    split; [rewrite <- surjective_pairing in H1; exact H1|].
    split; [apply H2, Hsp; auto|]. split; [apply H3, Hsp; auto|].
    split; [exact H4|].
    rewrite H5. destruct r as [s e]. simpl in H6, H7. now subst.
Defined.

(** C5, as stated, fails on a descriptor that spells [async] with a
    capital: the property [Async] is not in the blocklist, the loader
    lower-cases its name, and the new element of this descriptor without
    source URL has an [async] attribute. *)
Lemma inline_script_counterexample :
  let st' := snd (loadScript capital_descriptor home initial) in
  truthy (get "src" capital_descriptor) = false /\
  exists el,
    elements st' = elements initial ++ [el] /\
    getAttribute "async" el = Some (VBool true).
Proof.
  split; [reflexivity|].
  eexists. split; vm_compute; reflexivity.
Qed.

(** ** What events and frames leave alone *)

Lemma same_page_refl st : same_page st st.
Proof. unfold same_page; tauto. Qed.

Lemma same_page_trans st1 st2 st3 :
  same_page st1 st2 -> same_page st2 st3 -> same_page st1 st3.
Proof.
  unfold same_page. intros (A1&A2&A3&A4&A5&A6&A7&A8) (B1&B2&B3&B4&B5&B6&B7&B8).
  repeat split; congruence.
Qed.

Lemma settlePromise_same_page p s st : same_page st (settlePromise p s st).
Proof.
  unfold settlePromise, same_page.
  destruct (promises st !! p) as [[[| | |] r]|]; simpl; tauto.
Qed.

Lemma call_same_page f arg st : same_page st (call f arg st).
Proof. unfold same_page, call. destruct f as [| | | | | | |fn]; simpl; tauto. Qed.

Lemma uncaught_same_page error st : same_page st (uncaught error st).
Proof. unfold same_page; simpl; tauto. Qed.

(** A callback that is given is called and ends as [failureOf] says; the
    page sees the call and nothing else changes. *)
Lemma callIfGiven_spec f arg st :
  snd (callIfGiven f arg st) = failureOf f /\
  trace (fst (callIfGiven f arg st)) = trace st ++ callOf f arg /\
  promises (fst (callIfGiven f arg st)) = promises st /\
  same_page st (fst (callIfGiven f arg st)).
Proof.
  unfold callIfGiven, failureOf, callOf, call.
  destruct (truthy f); cbn [fst snd];
    [|rewrite app_nil_r; auto using same_page_refl].
  destruct f as [| | | | | | |fn]; cbn [trace set_trace promises];
    rewrite ?app_nil_r; repeat split; try reflexivity.
Qed.

Lemma logScriptPerformance_same_page key src st :
  same_page st (logScriptPerformance key src st).
Proof. unfold same_page; simpl; tauto. Qed.

Lemma resolve_same_page p r st : same_page st (resolve p r st).
Proof.
  unfold resolve. destruct (isPending p st); [|apply same_page_refl].
  destruct (reactionOf p _);
    eauto using same_page_trans, settlePromise_same_page.
Qed.

Lemma reject_same_page DEV p r st : same_page st (reject DEV p r st).
Proof.
  unfold reject. destruct (isPending p st); [|apply same_page_refl].
  destruct (reactionOf p _) as [h|]; [|apply settlePromise_same_page].
  match goal with |- context [callIfGiven ?f ?a ?s] =>
    destruct (callIfGiven_spec f a s) as (_ & _ & _ & Hc);
    destruct (callIfGiven f a s) as [s1 thrown] end.
  cbn [fst] in Hc.
  eapply same_page_trans; [apply settlePromise_same_page|].
  eapply same_page_trans; [|apply settlePromise_same_page].
  eapply same_page_trans; [|exact Hc].
  destruct DEV; [apply logScriptPerformance_same_page|apply same_page_refl].
Qed.

Lemma onload_same_page DEV script ev st : same_page st (onload DEV script ev st).
Proof.
  unfold onload. destruct (elements st !! script) as [el|]; [|apply same_page_refl].
  destruct (el_onload el) as [l|]; [|apply same_page_refl].
  destruct (callIfGiven_spec (ls_onLoad l) (ArgEvent ev) st) as (_ & _ & _ & H1).
  destruct (callIfGiven (ls_onLoad l) (ArgEvent ev) st) as [s1 t1]. cbn [fst] in H1.
  destruct t1 as [error|].
  { eapply same_page_trans; [exact H1|apply uncaught_same_page]. }
  destruct (callIfGiven_spec (ls_onReady l) (ArgEvent ev) s1) as (_ & _ & _ & H2).
  destruct (callIfGiven (ls_onReady l) (ArgEvent ev) s1) as [s2 t2]. cbn [fst] in H2.
  destruct t2 as [error|].
  { eapply same_page_trans; [exact H1|].
    eapply same_page_trans; [exact H2|apply uncaught_same_page]. }
  eapply same_page_trans; [exact H1|].
  eapply same_page_trans; [exact H2|].
  eapply same_page_trans; [|apply resolve_same_page].
  destruct DEV; [apply logScriptPerformance_same_page|apply same_page_refl].
Qed.

Lemma onerror_same_page DEV script ev st : same_page st (onerror DEV script ev st).
Proof.
  unfold onerror. destruct (elements st !! script) as [el|]; [|apply same_page_refl].
  destruct (el_onerror el); [apply reject_same_page|apply same_page_refl].
Qed.

Lemma same_module_refl st : same_module st st.
Proof. unfold same_module; tauto. Qed.

Lemma same_module_trans st1 st2 st3 :
  same_module st1 st2 -> same_module st2 st3 -> same_module st1 st3.
Proof.
  unfold same_module. intros (A1&A2&A3&A4&A5&A6&A7) (B1&B2&B3&B4&B5&B6&B7).
  repeat split; congruence.
Qed.

Lemma invoke_same_module cb st : same_module st (invoke cb st).
Proof.
  unfold invoke. destruct (fc_done cb); [apply same_module_refl|].
  destruct (resolveTarget _); [|unfold same_module; simpl; tauto].
  destruct (fc_action cb); [unfold same_module; simpl; tauto|].
  destruct (removeChild _ _ _); unfold same_module; simpl; tauto.
Qed.

Lemma invokeAll_same_module q : forall st, same_module st (invokeAll q st).
Proof.
  induction q as [|cb q IH]; intros st; [apply same_module_refl|].
  simpl. eapply same_module_trans; [apply invoke_same_module|apply IH].
Qed.

Lemma animationFrame_same_module st : same_module st (animationFrame st).
Proof.
  unfold animationFrame.
  eapply same_module_trans; [|apply invokeAll_same_module].
  unfold same_module; simpl; tauto.
Qed.

(** ** The registries, the elements and the promises across a call *)

Lemma createScript_fields props key st :
  let st' := snd (createScript props key st) in
  LoadCache st' = LoadCache st ∪ {[key]} /\
  PrevPathCache st' = PrevPathCache st /\
  StartTimeCache st' = StartTimeCache st /\
  animationFrames st' =
    animationFrames st ++ [appendScript (targetOf props) (length (elements st))] /\
  document st' = document st /\
  trace st' = trace st /\
  promises st' = promises st ++ newLoadPromise props key (length (promises st)).
Proof.
  unfold createScript, targetOf. destruct (truthy (get "src" props)); simpl; tauto.
Qed.

Lemma createScript_result props key st :
  truthy (get "src" props) = true ->
  fst (createScript props key st) = Awaits (S (length (promises st))) /\
  ScriptCache (snd (createScript props key st)) =
    <[key := {| promise := Some (S (length (promises st)));
                script := Some (length (elements st)) |}]> (ScriptCache st).
Proof.
  intros H. unfold createScript. rewrite H. simpl. tauto.
Qed.

(** The elements, the promises and the blocklist of a call: all
    unchanged, or one element and its two promises more, with the
    blocklist the loop of the call has consulted. *)
Lemma loadScript_heap props w st :
  let st' := snd (loadScript props w st) in
  (elements st' = elements st /\ promises st' = promises st /\
   ignoreProps st' = ignoreProps st) \/
  (elements st' =
     elements st ++ [buildScript (blocklistFor props st) props (scriptKey props)
                       (length (promises st))] /\
   promises st' =
     promises st ++ newLoadPromise props (scriptKey props) (length (promises st)) /\
   ignoreProps st' = blocklistFor props st).
Proof.
  assert (Hm : forall s, elements s = elements st -> promises s = promises st ->
            ignoreProps s = ignoreProps st ->
            let st' := snd (mountScript props (scriptKey props) w s) in
            (elements st' = elements st /\ promises st' = promises st /\
             ignoreProps st' = ignoreProps st) \/
            (elements st' =
               elements st ++ [buildScript (blocklistFor props st) props (scriptKey props)
                                 (length (promises st))] /\
             promises st' =
               promises st ++ newLoadPromise props (scriptKey props) (length (promises st)) /\
             ignoreProps st' = blocklistFor props st)).
  { intros s He Hp Hi. unfold mountScript.
    destruct (stampStart_frame (scriptKey props) w s) as (E1 & E2 & E3 & _).
    destruct (ScriptCache _ !! _) as [[[p|] e]|]; simpl.
    - left. repeat split; congruence.
    - left. repeat split; congruence.
    - right. rewrite createScript_elements, createScript_ignoreProps.
      destruct (createScript_fields props (scriptKey props)
                  (stampStart (scriptKey props) w s)) as (_&_&_&_&_&_& ->).
      unfold blocklistFor. rewrite E1, E2, E3, He, Hp, Hi. auto. }
  unfold loadScript. destruct (hasLoaded _ _).
  - destruct (negb _); [left; simpl; auto|].
    destruct (remount_frame (scriptKey props) (default_to (VString "body") (get "target" props))
      (set_PrevPathCache <[scriptKey props:=location_pathname w]> st)) as (R1 & R2 & R3 & _).
    apply Hm; assumption.
  - apply Hm; reflexivity.
Qed.

(** ** The blocklist along a run *)

Lemma loadScript_ignoreProps props w st :
  exists extra, ignoreProps (snd (loadScript props w st)) = ignoreProps st ++ extra.
Proof.
  destruct (loadScript_heap props w st) as [(_ & _ & ->)|(_ & _ & ->)].
  - exists []. now rewrite app_nil_r.
  - unfold blocklistFor. destruct (truthy _); [exists []; now rewrite app_nil_r|eauto].
Qed.

Lemma step_ignoreProps DEV a st :
  exists extra, ignoreProps (step DEV a st) = ignoreProps st ++ extra.
Proof.
  destruct a as [props w| |script ev|script ev]; simpl.
  - apply loadScript_ignoreProps.
  - exists []. rewrite app_nil_r. apply animationFrame_same_module.
  - exists []. rewrite app_nil_r. apply onload_same_page.
  - exists []. rewrite app_nil_r. apply onerror_same_page.
Qed.

(** Nothing ever leaves the blocklist. *)
Lemma run_ignoreProps DEV actions : forall st,
  exists extra, ignoreProps (run DEV actions st) = ignoreProps st ++ extra.
Proof.
  induction actions as [|a rest IH]; intros st; simpl.
  - exists []. now rewrite app_nil_r.
  - destruct (IH (step DEV a st)) as [e2 H2].
    destruct (step_ignoreProps DEV a st) as [e1 H1].
    exists (e1 ++ e2). now rewrite H2, H1, app_assoc.
Qed.


Lemma countIf_app {A : Type} (f : A -> bool) l1 l2 :
  countIf f (l1 ++ l2) = countIf f l1 + countIf f l2.
Proof. induction l1 as [|x l1 IH]; simpl; [reflexivity|]. rewrite IH. lia. Qed.

Lemma pushes_length n : length (pushes n) = 2 * n.
Proof. induction n as [|n IH]; [reflexivity|]. cbn [pushes]. rewrite length_app, IH. simpl. lia. Qed.

Lemma pushes_In n k : In k (pushes n) <-> 0 < n /\ (k = "async" \/ k = "defer").
Proof.
  induction n as [|n IH]; cbn [pushes].
  - split; [intros []|intros [H _]; lia].
  - rewrite in_app_iff, IH. simpl. split.
    + intros [[_ H]|[<-|[<-|[]]]]; (split; [lia|auto]).
    + intros [_ [->| ->]]; auto.
Qed.

Lemma loadScript_blocklist props w st :
  let st' := snd (loadScript props w st) in
  (elements st' = elements st /\ ignoreProps st' = ignoreProps st) \/
  (exists el, elements st' = elements st ++ [el] /\
     sourceless el = negb (truthy (get "src" props)) /\
     ignoreProps st' = blocklistFor props st).
Proof.
  intros st'. subst st'.
  destruct (loadScript_heap props w st) as [(He & _ & Hi)|(He & _ & Hi)].
  - left. auto.
  - right. eexists. split; [exact He|]. split; [reflexivity|exact Hi].
Qed.

(** In the runs of the page the blocklist is the eight names the module
    starts with, followed by one pair [async], [defer] for each element
    made from a descriptor without a source URL. *)
Lemma run_blocklist DEV actions :
  ignoreProps (run DEV actions initial) =
  initial_ignoreProps ++ pushes (countIf sourceless (elements (run DEV actions initial))).
Proof.
  assert (Hinv : forall acts s,
    ignoreProps s = initial_ignoreProps ++ pushes (countIf sourceless (elements s)) ->
    ignoreProps (run DEV acts s) =
      initial_ignoreProps ++ pushes (countIf sourceless (elements (run DEV acts s)))).
  { induction acts as [|a rest IH]; intros s Hs; [exact Hs|].
    cbn [run]. apply IH. clear IH.
    destruct a as [props w| |j ev|j ev]; cbn [step].
    - destruct (loadScript_blocklist props w s) as [[-> ->]|(el & -> & Hsl & ->)];
        [exact Hs|].
      rewrite countIf_app. cbn [countIf]. rewrite Hsl. unfold blocklistFor.
      destruct (truthy (get "src" props)); cbn [negb].
      + now rewrite !Nat.add_0_r.
      + rewrite Hs, <- app_assoc. f_equal.
        replace (countIf sourceless (elements s) + (1 + 0))
          with (S (countIf sourceless (elements s))) by lia.
        reflexivity.
    - destruct (animationFrame_same_module s) as (-> &_&_&_&_& -> &_). exact Hs.
    - destruct (onload_same_page DEV j ev s) as (-> &_&_&_&_& -> &_). exact Hs.
    - destruct (onerror_same_page DEV j ev s) as (-> &_&_&_&_& -> &_). exact Hs. }
  apply Hinv. reflexivity.
Qed.






(** C10, as amended: once a call without a source URL has created an
    element, every later call, whatever its descriptor and whatever calls,
    frames and events lie in between, leaves the [async] and [defer]
    properties of its descriptor out of what it copies: it does what it
    does for the descriptor without them, and an element it creates has no
    [async] (no [defer]) attribute unless another property of the
    descriptor is stored under that name. *)
Theorem exclusion_is_sticky DEV props w st el0 actions props2 w2 :
  truthy (get "src" props) = false ->
  elements (snd (loadScript props w st)) = elements st ++ [el0] ->
  let s := run DEV actions (snd (loadScript props w st)) in
  loadScript (omit ["async"; "defer"] props2) w2 s = loadScript props2 w2 s /\
  (forall el, elements (snd (loadScript props2 w2 s)) = elements s ++ [el] ->
     (spelt_exactly "async" props2 -> getAttribute "async" el = None) /\
     (spelt_exactly "defer" props2 -> getAttribute "defer" el = None)).
Proof.
  intros Hsrc Hel0 s.
  set (st1 := snd (loadScript props w st)) in *.
  assert (Hpushed : exists l r, ignoreProps st1 = l ++ ["async"; "defer"] ++ r).
  { destruct (loadScript_creates props w st (fst (loadScript props w st)) st1 el0)
      as (s0 & Hcr & _ & Hi & _); [apply surjective_pairing|exact Hel0|].
    pose proof (createScript_ignoreProps props (scriptKey props) s0) as E.
    rewrite Hcr in E. simpl in E. unfold blocklistFor in E. rewrite Hsrc in E.
    exists (ignoreProps s0), []. now rewrite app_nil_r. }
  destruct Hpushed as (l & r & Hst1).
  destruct (run_ignoreProps DEV actions st1) as [e1 H1]. fold s in H1.
  assert (Hin : forall (q : Object) s', ignoreProps s' = ignoreProps s ->
            forall a, In a ["async"; "defer"] -> In a (blocklistFor q s')).
  { intros q s' Hs' a Hin. unfold blocklistFor.
    assert (In a (ignoreProps s')).
    { rewrite Hs', H1, Hst1. rewrite !in_app_iff. auto. }
    destruct (truthy (get "src" q)); [assumption|]. apply in_or_app. now left. }
  split.
  - apply loadScript_omit; apply Hin; simpl; auto.
  - intros el Hel.
    destruct (loadScript_creates props2 w2 s (fst (loadScript props2 w2 s)) _ el
                (surjective_pairing _) Hel) as (s2 & Hcr & He & Hi & _).
    rewrite <- He in Hel.
    pose proof (createScript_created _ _ _ _ _ _ Hcr Hel) as ->.
    rewrite !getAttribute_stored.
    change (toLowerCase "async") with "async".
    change (toLowerCase "defer") with "defer".
    split; intros Hsp; apply blocked_attribute_absent; try discriminate; try assumption;
      apply Hin; simpl; auto.
Qed.

Lemma exclusion_is_sticky_witness :
  let st1 := run false [Frame] (snd (loadScript inline_descriptor home initial)) in
  let el := buildScript (ignoreProps st1) async_descriptor "y/z.js" 2 in
  loadScript [("id", VString "y"); ("src", VString "/z.js")] home st1 =
    loadScript async_descriptor home st1 /\
  elements (snd (loadScript async_descriptor home st1)) = elements st1 ++ [el] /\
  getAttribute "async" el = None.
Proof.
  intros st1 el.
  assert (H : elements (snd (loadScript async_descriptor home st1)) = elements st1 ++ [el])
    by (vm_compute; reflexivity).
  destruct (exclusion_is_sticky false inline_descriptor home initial
           (buildScript (initial_ignoreProps ++ ["async"; "defer"]) inline_descriptor "gtm" 0)
           [Frame] async_descriptor home) as [H1 H2].
  - reflexivity.
  - vm_compute. reflexivity.
  - split; [exact H1|]. split; [exact H|].
    apply (H2 el H).
    intros k v Hin Hname. simpl in Hin.
    repeat (destruct Hin as [[= <- <-]|Hin]; [first [reflexivity | discriminate Hname]|]).
    destruct Hin.
Defined.

(** C10, as stated, fails when the call without a source URL is answered
    "already loaded": the key ["ab.js"] was loaded from [id="a"] and
    [src="b.js"], the call with [id="ab.js"] and no [src] returns before
    the push, and the next descriptor with a source URL still gets its
    [async] attribute. *)
Lemma exclusion_is_sticky_counterexample :
  let st1 := snd (loadScript cdn_descriptor home initial) in
  let inline_call := loadScript shadow_descriptor home st1 in
  let st2 := snd inline_call in
  truthy (get "src" shadow_descriptor) = false /\
  fst inline_call = Resolved {| status := true; event := Message "already loaded" |} /\
  exists el,
    elements (snd (loadScript async_descriptor home st2)) = elements st2 ++ [el] /\
    getAttribute "async" el = Some (VBool true).
Proof.
  split; [reflexivity|]. split; [vm_compute; reflexivity|].
  eexists. split; vm_compute; reflexivity.
Qed.

(** ** What a call does to the page *)

Lemma setBody_key h c el : el_key (setBody h c el) = el_key el.
Proof. unfold setBody. destruct (truthy h); [reflexivity|]. now destruct (truthy c). Qed.

Lemma buildScript_key ignored props key inner :
  el_key (buildScript ignored props key inner) = key.
Proof.
  unfold buildScript. cbn [set_listeners el_key].
  destruct (truthy (get "src" props)); cbn [setAttribute el_key];
    destruct (bool_decide _); cbn [setAttribute el_key];
    match goal with |- el_key (spreadProps ?i ?p ?e) = _ =>
      destruct (spreadProps_fields i p e) as (-> & _) end;
    now rewrite setBody_key.
Qed.

(** What mounting does to the elements, the queue, the instance cache and
    the document. *)
Lemma mountScript_effects props key w st :
  let st' := snd (mountScript props key w st) in
  document st' = document st /\
  match ScriptCache st !! key with
  | Some _ =>
      elements st' = elements st /\ animationFrames st' = animationFrames st /\
      ScriptCache st' = ScriptCache st
  | None =>
      exists el,
        elements st' = elements st ++ [el] /\ el_key el = key /\
        animationFrames st' =
          animationFrames st ++ [appendScript (targetOf props) (length (elements st))] /\
        ScriptCache st' =
          if truthy (get "src" props)
          then <[key := {| promise := Some (S (length (promises st)));
                           script := Some (length (elements st)) |}]> (ScriptCache st)
          else ScriptCache st
  end.
Proof.
  unfold mountScript.
  destruct (stampStart_frame key w st) as (E1 & _ & E3 & E4 & _ & _ & E7 & _ & E9).
  rewrite E7. destruct (ScriptCache st !! key) as [[[p|] e]|]; simpl.
  - auto.
  - auto.
  - destruct (createScript_fields props key (stampStart key w st))
      as (_ & _ & _ & Hq & Hd & _).
    split; [congruence|].
    eexists. rewrite createScript_elements, E1. split; [reflexivity|].
    split; [apply buildScript_key|]. split; [rewrite Hq, E9, E1; reflexivity|].
    unfold createScript. destruct (truthy (get "src" props)); simpl;
      rewrite ?E1, ?E3, ?E7; reflexivity.
Qed.

(** What a call does to the elements, the queue, the instance cache and
    the document: nothing, or one element more, whose append is queued
    after the removal of the element tracked so far (if any). *)
Lemma loadScript_effects props w st :
  let st' := snd (loadScript props w st) in
  let key := scriptKey props in
  let n := length (elements st) in
  document st' = document st /\
  ((elements st' = elements st /\ animationFrames st' = animationFrames st /\
    ScriptCache st' = ScriptCache st) \/
   (exists el removal,
      elements st' = elements st ++ [el] /\ el_key el = key /\
      animationFrames st' =
        animationFrames st ++ removal ++ [appendScript (targetOf props) n] /\
      ScriptCache st' =
        (if truthy (get "src" props)
         then <[key := {| promise := Some (S (length (promises st))); script := Some n |}]>
                (delete key (ScriptCache st))
         else delete key (ScriptCache st)) /\
      ((removal = [] /\ ScriptCache st !! key = None) \/
       (exists sc old, removal = [removeScript (targetOf props) old] /\
                       ScriptCache st !! key = Some sc /\ script sc = Some old)))).
Proof.
  intros st' key n. unfold st', loadScript. fold key (targetOf props).
  set (st0 := set_PrevPathCache _ st).
  assert (Hplain : forall s,
    document s = document st -> elements s = elements st ->
    animationFrames s = animationFrames st -> ScriptCache s = ScriptCache st ->
    promises s = promises st ->
    let s' := snd (mountScript props key w s) in
    document s' = document st /\
    ((elements s' = elements st /\ animationFrames s' = animationFrames st /\
      ScriptCache s' = ScriptCache st) \/
     (exists el removal,
        elements s' = elements st ++ [el] /\ el_key el = key /\
        animationFrames s' =
          animationFrames st ++ removal ++ [appendScript (targetOf props) n] /\
        ScriptCache s' =
          (if truthy (get "src" props)
           then <[key := {| promise := Some (S (length (promises st))); script := Some n |}]>
                  (delete key (ScriptCache st))
           else delete key (ScriptCache st)) /\
        ((removal = [] /\ ScriptCache st !! key = None) \/
         (exists sc old, removal = [removeScript (targetOf props) old] /\
                         ScriptCache st !! key = Some sc /\ script sc = Some old))))).
  { intros s Hd He Hq Hc Hp s'.
    destruct (mountScript_effects props key w s) as [Hd' H]. fold s' in Hd', H.
    split; [congruence|]. rewrite Hc in H.
    destruct (ScriptCache st !! key) eqn:Ek.
    - left. destruct H as (-> & -> & ->). auto.
    - right. destruct H as (el & E1 & E2 & E3 & E4).
      exists el, []. rewrite E1, E3, E4, ?He, ?Hq, ?Hc, ?Hp.
      rewrite (delete_id _ _ Ek). unfold n. auto 10. }
  destruct (hasLoaded key st).
  - destruct (negb _); [simpl; auto|].
    unfold remount. change (ScriptCache st0) with (ScriptCache st).
    destruct (ScriptCache st !! key) as [[p [old|]]|] eqn:Ek;
      [|apply Hplain; reflexivity|apply Hplain; reflexivity].
    cbn [script].
    match goal with |- context [mountScript props key w ?s] => set (purged := s) end.
    destruct (mountScript_effects props key w purged) as [Hd' H].
    assert (Hnone : ScriptCache purged !! key = None) by apply lookup_delete_eq.
    rewrite Hnone in H. destruct H as (el & E1 & E2 & E3 & E4).
    split; [exact Hd'|]. right.
    exists el, [removeScript (targetOf props) old].
    rewrite E1, E3, E4. cbn. rewrite <- app_assoc.
    split; [reflexivity|]. split; [exact E2|]. split; [reflexivity|].
    split; [reflexivity|]. right. eauto.
  - apply Hplain; reflexivity.
Qed.

Lemma remount_cases key target st :
  (tracked key st = None /\ remount key target st = st) \/
  (exists old, tracked key st = Some old /\
     remount key target st =
       requestAnimationFrame (removeScript target old)
         (set_StartTimeCache (delete key)
            (set_ScriptCache (delete key)
               (set_LoadCache (fun c => c ∖ {[key]}) st)))).
Proof.
  unfold remount, tracked.
  destruct (ScriptCache st !! key) as [[p [old|]]|]; simpl; eauto.
Qed.

(** How a call is routed: answered at once, or mounted after the block of
    the reload, or mounted directly. *)
Lemma loadScript_routes props w st :
  let key := scriptKey props in
  let st0 := set_PrevPathCache <[key := location_pathname w]> st in
  (shortCircuits props w st = true /\ loadScript props w st = (Resolved already_loaded, st0)) \/
  (shortCircuits props w st = false /\ remountDue props w st = false /\
   loadScript props w st = mountScript props key w st0) \/
  (shortCircuits props w st = false /\ remountDue props w st = true /\
   exists old, tracked key st = Some old /\
     loadScript props w st =
       mountScript props key w
         (requestAnimationFrame (removeScript (targetOf props) old)
            (set_StartTimeCache (delete key)
               (set_ScriptCache (delete key)
                  (set_LoadCache (fun c => c ∖ {[key]}) st0))))).
Proof.
  intros key st0. unfold shortCircuits, remountDue, loadScript. cbv zeta.
  fold key (reloadOf props) (targetOf props). fold st0.
  destruct (hasLoaded key st); simpl; [|auto].
  destruct (pathChanged _ _ && truthy (reloadOf props)) eqn:E; simpl; [|auto].
  clear E. right.
  destruct (remount_cases key (targetOf props) st0) as [[Hn ->]|(old & Ho & ->)];
    change (tracked key st0) with (tracked key st) in *.
  - left. rewrite Hn. rewrite bool_decide_eq_false_2 by (intros [? ?]; discriminate). auto.
  - right. rewrite Ho. rewrite bool_decide_eq_true_2 by eauto. eauto.
Qed.

(** ** The registries across a call *)

Lemma hasLoaded_true key st :
  hasLoaded key st = true <-> key <> "" /\ key ∈ LoadCache st.
Proof.
  unfold hasLoaded. rewrite andb_true_iff, negb_true_iff, String.eqb_neq,
    bool_decide_eq_true. tauto.
Qed.

Lemma loadScript_PrevPathCache props w st :
  PrevPathCache (snd (loadScript props w st)) =
  <[scriptKey props := location_pathname w]> (PrevPathCache st).
Proof.
  assert (Hm : forall s, PrevPathCache (snd (mountScript props (scriptKey props) w s))
                         = PrevPathCache s).
  { intros s. unfold mountScript.
    destruct (stampStart_frame (scriptKey props) w s) as (_&_&_&_&_&Hp&_).
    destruct (ScriptCache _ !! _) as [[[p|] e]|]; simpl; try exact Hp.
    destruct (createScript_fields props (scriptKey props) (stampStart (scriptKey props) w s))
      as (_ & -> & _). exact Hp. }
  unfold loadScript. destruct (hasLoaded _ _).
  - destruct (negb _); [reflexivity|]. rewrite Hm.
    now destruct (remount_frame (scriptKey props) (default_to (VString "body") (get "target" props))
      (set_PrevPathCache <[scriptKey props:=location_pathname w]> st)) as (_&_&_&_&_& ->).
  - now rewrite Hm.
Qed.

Lemma mountScript_LoadCache props key w st :
  key ∈ LoadCache (snd (mountScript props key w st)).
Proof.
  unfold mountScript.
  destruct (ScriptCache _ !! _) as [[[p|] e]|]; simpl; try set_solver.
  destruct (createScript_fields props key (stampStart key w st)) as (-> & _).
  set_solver.
Qed.

(** After a call its key is in [LoadCache], unless the key is empty and
    was not there. *)
Lemma loadScript_LoadCache props w st :
  scriptKey props <> "" ->
  scriptKey props ∈ LoadCache (snd (loadScript props w st)).
Proof.
  intros Hk. unfold loadScript.
  destruct (hasLoaded _ _) eqn:Hl; [|apply mountScript_LoadCache].
  destruct (negb _); [|apply mountScript_LoadCache].
  simpl. now apply hasLoaded_true in Hl.
Qed.

(** The short circuit: a loaded key that needs no reload. *)
Lemma loadScript_short_circuit props w st :
  hasLoaded (scriptKey props) st = true ->
  pathChanged (location_pathname w) (PrevPathCache st !! scriptKey props)
    && truthy (reloadOf props) = false ->
  loadScript props w st =
  (Resolved already_loaded,
   set_PrevPathCache <[scriptKey props := location_pathname w]> st).
Proof.
  intros Hl Hr. unfold loadScript. fold (reloadOf props). now rewrite Hl, Hr.
Qed.

(** A key that is not loaded is mounted at once. *)
Lemma loadScript_not_loaded props w st :
  hasLoaded (scriptKey props) st = false ->
  loadScript props w st =
  mountScript props (scriptKey props) w
    (set_PrevPathCache <[scriptKey props := location_pathname w]> st).
Proof. intros Hl. unfold loadScript. now rewrite Hl. Qed.

(** A call right after a call with the same descriptor is short-circuited,
    when the key is not empty and no reload is due. *)
Lemma repeat_call_short_circuits props w1 w2 st :
  scriptKey props <> "" ->
  truthy (reloadOf props) = false \/ location_pathname w2 = location_pathname w1 ->
  loadScript props w2 (snd (loadScript props w1 st)) =
  (Resolved already_loaded,
   set_PrevPathCache <[scriptKey props := location_pathname w2]>
     (snd (loadScript props w1 st))).
Proof.
  intros Hk Hsame. apply loadScript_short_circuit.
  - apply hasLoaded_true. split; [exact Hk|]. now apply loadScript_LoadCache.
  - rewrite loadScript_PrevPathCache, lookup_insert_eq.
    destruct Hsame as [->| ->]; [apply andb_false_r|].
    unfold pathChanged. rewrite String.eqb_refl. simpl.
    now destruct (negb _).
Qed.

Lemma mountScript_LoadCache_eq props key w st :
  LoadCache (snd (mountScript props key w st)) = LoadCache st ∪ {[key]}.
Proof.
  unfold mountScript.
  destruct (stampStart_frame key w st) as (_&_&_&_&_&_&_& E &_).
  destruct (ScriptCache _ !! _) as [[[p|] e]|]; simpl; rewrite ?E; try reflexivity.
  destruct (createScript_fields props key (stampStart key w st)) as (-> & _).
  now rewrite E.
Qed.

Lemma loadScript_LoadCache_mono props w st :
  LoadCache st ⊆ LoadCache (snd (loadScript props w st)).
Proof.
  unfold loadScript. destruct (hasLoaded _ _) eqn:Hl.
  - destruct (negb _); [reflexivity|].
    rewrite mountScript_LoadCache_eq. apply hasLoaded_true in Hl as [_ Hl].
    unfold remount. simpl.
    destruct (ScriptCache st !! scriptKey props) as [[p [old|]]|]; simpl;
      [|set_solver|set_solver].
    intros x Hx. destruct (decide (x = scriptKey props)) as [->|Hne]; set_solver.
  - rewrite mountScript_LoadCache_eq. simpl. set_solver.
Qed.

Lemma tracked_loaded_call props w st :
  src_typed (CallLoadScript props w) ->
  tracked_loaded st -> tracked_loaded (snd (loadScript props w st)).
Proof.
  intros Htyped Hinv k sc Hk.
  pose proof (loadScript_LoadCache_mono props w st) as Hmono.
  assert (Hold : ScriptCache st !! k = Some sc ->
                 hasLoaded k (snd (loadScript props w st)) = true /\
                 is_Some (promise sc) /\ is_Some (script sc)).
  { intros H. destruct (Hinv _ _ H) as (Hl & Hp & Hs).
    split; [|auto]. apply hasLoaded_true in Hl as [Hne Hin].
    apply hasLoaded_true. split; [exact Hne|]. now apply Hmono. }
  destruct (loadScript_effects props w st) as [_ [(_ & _ & Hsc)|H]].
  { rewrite Hsc in Hk. auto. }
  destruct H as (el & removal & _ & _ & _ & Hsc & _).
  rewrite Hsc in Hk.
  destruct (decide (k = scriptKey props)) as [->|Hne].
  - destruct (truthy (get "src" props)) eqn:Hsrc.
    + rewrite lookup_insert_eq in Hk. injection Hk as <-.
      split; [|split; simpl; eauto].
      assert (Hkey : scriptKey props <> "").
      { simpl in Htyped. unfold scriptKey.
        destruct (get "src" props) as [| | | |s| | |]; try contradiction; try discriminate.
        destruct s; [discriminate|].
        simpl. destruct (or_empty (get "id" props)); discriminate. }
      apply hasLoaded_true. split; [exact Hkey|]. now apply loadScript_LoadCache.
    + rewrite lookup_delete_eq in Hk. discriminate.
  - apply Hold.
    destruct (truthy (get "src" props));
      rewrite ?lookup_insert_ne, lookup_delete_ne in Hk by auto; exact Hk.
Qed.

Lemma tracked_loaded_run DEV actions : forall st,
  Forall src_typed actions -> tracked_loaded st ->
  tracked_loaded (run DEV actions st).
Proof.
  induction actions as [|a rest IH]; intros st Hall H; [exact H|].
  inversion Hall as [|? ? Ha Hrest]; subst. simpl. apply IH; [exact Hrest|].
  destruct a as [props w| |j ev|j ev]; simpl.
  - now apply tracked_loaded_call.
  - destruct (animationFrame_same_module st) as (_&_&_& Hl & Hc &_).
    intros k sc. unfold hasLoaded. rewrite Hc, Hl. apply H.
  - destruct (onload_same_page DEV j ev st) as (_&_&_& Hl & Hc &_).
    intros k sc. unfold hasLoaded. rewrite Hc, Hl. apply H.
  - destruct (onerror_same_page DEV j ev st) as (_&_&_& Hl & Hc &_).
    intros k sc. unfold hasLoaded. rewrite Hc, Hl. apply H.
Qed.

(** In the runs of the page itself the check of the instance cache is
    never positive: no call completes with "Script load promise not found",
    and a call that completes with a promise has just created it. *)
Lemma instance_check_never_positive DEV actions props w :
  Forall src_typed actions ->
  let st := run DEV actions initial in
  fst (loadScript props w st) <> Resolved promise_not_found /\
  forall p, fst (loadScript props w st) = Awaits p -> p = S (length (promises st)).
Proof.
  intros Hall st.
  assert (Hinv : tracked_loaded st).
  { apply tracked_loaded_run; [exact Hall|]. intros k sc H. discriminate. }
  assert (Hcreate : forall s, promises s = promises st ->
            ScriptCache s !! scriptKey props = None ->
            fst (mountScript props (scriptKey props) w s) <> Resolved promise_not_found /\
            forall p, fst (mountScript props (scriptKey props) w s) = Awaits p ->
                      p = S (length (promises st))).
  { intros s Hp Hnone. unfold mountScript.
    destruct (stampStart_frame (scriptKey props) w s) as (_&_& E3 &_&_&_& E7 &_).
    rewrite E7, Hnone. unfold createScript.
    destruct (truthy (get "src" props)); simpl; rewrite ?E3, ?Hp;
      split; try discriminate; intros p [= <-]; reflexivity. }
  unfold loadScript. destruct (hasLoaded _ _) eqn:Hl.
  - destruct (negb _); [split; [discriminate|intros p [=]]|].
    unfold remount. simpl.
    destruct (ScriptCache st !! scriptKey props) as [[p old]|] eqn:Ek.
    + destruct (Hinv _ _ Ek) as (_ & _ & [e He]). simpl in He. subst old.
      apply Hcreate; [reflexivity|]. simpl. apply lookup_delete_eq.
    + apply Hcreate; [reflexivity|exact Ek].
  - apply Hcreate; [reflexivity|]. simpl.
    destruct (ScriptCache st !! scriptKey props) as [sc|] eqn:Ek; [|reflexivity].
    destruct (Hinv _ _ Ek) as (Hl' & _). congruence.
Qed.

(** A call with the empty key, which no entry of [ScriptCache] tracks,
    creates an element, whatever came before; without a [src] it leaves the
    empty key untracked. *)
Lemma keyless_call_creates props w st :
  scriptKey props = "" ->
  ScriptCache st !! "" = None ->
  exists el,
    elements (snd (loadScript props w st)) = elements st ++ [el] /\
    (truthy (get "src" props) = false ->
     ScriptCache (snd (loadScript props w st)) !! "" = None).
Proof.
  intros Hk Hnone.
  rewrite loadScript_not_loaded by (unfold hasLoaded; now rewrite Hk).
  match goal with |- context [mountScript props ?k w ?s] =>
    destruct (mountScript_effects props k w s) as [_ H] end.
  simpl in H. rewrite Hk in *. rewrite Hnone in H.
  destruct H as (el & He & _ & _ & Hsc).
  exists el. split; [exact He|]. intros Hsrc. rewrite Hsc, Hsrc. exact Hnone.
Qed.

(** C2, as amended: for a descriptor whose key is not empty, a second call
    with the same descriptor, with [reload] false or on the same path,
    completes with the resolved [{status: true, event: "already loaded"}]
    and neither creates an element nor requests a frame callback; when the
    key was not loaded before the first call, the two calls together create
    exactly one element and request exactly one append, on the
    descriptor's target. For a descriptor whose key is empty and which has
    no [src], each of the two calls creates an element, unless
    [ScriptCache] tracks the empty key. *)
Theorem second_call_already_loaded props w1 w2 st :
  let st1 := snd (loadScript props w1 st) in
  let st2 := snd (loadScript props w2 st1) in
  (scriptKey props <> "" ->
   truthy (reloadOf props) = false \/ location_pathname w2 = location_pathname w1 ->
   (exists r, fst (loadScript props w2 st1) = Resolved r /\
              status r = true /\ event r = Message "already loaded") /\
   elements st2 = elements st1 /\
   animationFrames st2 = animationFrames st1 /\
   (scriptKey props ∉ LoadCache st ->
    ScriptCache st !! scriptKey props = None ->
    exists el,
      elements st2 = elements st ++ [el] /\
      animationFrames st2 =
        animationFrames st ++ [appendScript (targetOf props) (length (elements st))])) /\
  (scriptKey props = "" ->
   truthy (get "src" props) = false ->
   ScriptCache st !! "" = None ->
   exists el1 el2,
     elements st1 = elements st ++ [el1] /\ elements st2 = elements st1 ++ [el2]).
Proof.
  intros st1 st2. split.
  - intros Hk Hsame.
    assert (Hsc : loadScript props w2 st1 =
                  (Resolved already_loaded,
                   set_PrevPathCache <[scriptKey props := location_pathname w2]> st1))
      by now apply repeat_call_short_circuits.
    unfold st2. rewrite Hsc. simpl.
    split; [eexists; split; [reflexivity|]; split; reflexivity|].
    repeat split.
    intros Hfresh Hnone. unfold st1.
    rewrite loadScript_not_loaded
      by (apply not_true_is_false; intros H; apply hasLoaded_true in H; tauto).
    unfold mountScript.
    destruct (stampStart_frame (scriptKey props) w1
                (set_PrevPathCache <[scriptKey props:=location_pathname w1]> st))
      as (E1 & _ & _ & _ & _ & _ & E2 & _ & E3).
    rewrite E2. simpl. rewrite Hnone.
    rewrite createScript_elements, E1. simpl.
    eexists. split; [reflexivity|].
    match goal with |- context [createScript ?p ?k ?s] =>
      destruct (createScript_fields p k s) as (_ & _ & _ & -> & _) end.
    now rewrite E3, E1.
  - intros Hk Hsrc Hnone.
    destruct (keyless_call_creates props w1 st Hk Hnone) as (el1 & He1 & Hn1).
    destruct (keyless_call_creates props w2 st1 Hk (Hn1 Hsrc)) as (el2 & He2 & _).
    exists el1, el2. auto.
Qed.

Lemma second_call_already_loaded_witness :
  let st1 := snd (loadScript worker_descriptor home initial) in
  fst (loadScript worker_descriptor home st1) =
    Resolved {| status := true; event := Message "already loaded" |} /\
  length (elements (snd (loadScript worker_descriptor home st1))) = 1%nat.
Proof.
  intros st1.
  destruct (second_call_already_loaded worker_descriptor home home initial)
    as [H _].
  destruct H as ((r & H1 & Hs & He) & H2 & H3 & H4).
  - vm_compute. discriminate.
  - right. reflexivity.
  - split.
    + fold st1 in H1. rewrite H1. destruct r as [s e]. simpl in Hs, He. now subst.
    + destruct H4 as (el & He' & _).
      * vm_compute. set_solver.
      * reflexivity.
      * fold st1 in He'. rewrite He'. reflexivity.
Defined.

(** C2, as stated for any key, fails on the empty key: a descriptor with
    an empty [id] and no [src] is never found loaded, the second call
    completes with "inline script" and a second element is created and
    scheduled. *)
Lemma second_call_counterexample :
  let st1 := snd (loadScript keyless_descriptor home initial) in
  let second := loadScript keyless_descriptor home st1 in
  fst second = Resolved {| status := true; event := Message "inline script" |} /\
  fst second <> Resolved {| status := true; event := Message "already loaded" |} /\
  length (elements (snd second)) = 2%nat /\
  animationFrames (snd second) =
    [appendScript (VString "body") 0; appendScript (VString "body") 1].
Proof.
  intros. repeat match goal with |- _ /\ _ => split end; try (vm_compute; reflexivity).
  vm_compute. discriminate.
Qed.

(** The check of the instance cache, for a call that reaches it with the
    key tracked. *)
Lemma mountScript_tracked props key w st sc :
  ScriptCache st !! key = Some sc ->
  mountScript props key w st =
  (match promise sc with
   | Some p => Awaits p
   | None => Resolved promise_not_found
   end,
   set_LoadCache (fun c => c ∪ {[key]}) (stampStart key w st)).
Proof.
  intros H. unfold mountScript.
  destruct (stampStart_frame key w st) as (_&_&_&_&_&_& -> &_).
  rewrite H. now destruct (promise sc).
Qed.

Lemma sourceURL_Some props url :
  sourceURL props = Some url ->
  truthy (get "src" props) = true /\ scriptKey props <> "".
Proof.
  unfold sourceURL, scriptKey.
  destruct (get "src" props) as [| | | |s| | |]; try discriminate.
  destruct s as [|c s]; [discriminate|]. intros _. split; [reflexivity|].
  simpl. destruct (or_empty (get "id" props)); discriminate.
Qed.

(** The outcomes of a call in the runs of the page: answered at once, or
    one element made, with its promise when the descriptor has a [src]. *)
Lemma run_call_outcomes DEV actions props w :
  Forall src_typed actions ->
  let st := run DEV actions initial in
  let st' := snd (loadScript props w st) in
  (shortCircuits props w st = true /\
   fst (loadScript props w st) = Resolved already_loaded /\
   elements st' = elements st) \/
  (shortCircuits props w st = false /\
   (exists el, elements st' = elements st ++ [el]) /\
   fst (loadScript props w st) =
     if truthy (get "src" props) then Awaits (S (length (promises st)))
     else Resolved inline_script).
Proof.
  intros Hall st st'. subst st'.
  assert (Hinv : tracked_loaded st).
  { apply tracked_loaded_run; [exact Hall|]. intros k sc H. discriminate. }
  assert (Hcreate : forall s,
    elements s = elements st -> promises s = promises st ->
    ScriptCache s !! scriptKey props = None ->
    (exists el, elements (snd (mountScript props (scriptKey props) w s)) = elements st ++ [el]) /\
    fst (mountScript props (scriptKey props) w s) =
      if truthy (get "src" props) then Awaits (S (length (promises st)))
      else Resolved inline_script).
  { intros s He Hp Hnone. unfold mountScript.
    destruct (stampStart_frame (scriptKey props) w s) as (E1 &_& E3 &_&_&_& E7 &_).
    rewrite E7, Hnone. split.
    - rewrite createScript_elements, E1, He. eauto.
    - unfold createScript. destruct (truthy (get "src" props)); simpl;
        rewrite ?E3, ?Hp; reflexivity. }
  destruct (loadScript_routes props w st)
    as [[Hs ->]|[(Hs & Hr & ->)|(Hs & Hr & old & Ho & ->)]].
  - left. auto.
  - right. split; [exact Hs|]. apply Hcreate; try reflexivity. simpl.
    destruct (ScriptCache st !! scriptKey props) as [sc|] eqn:Ek; [|reflexivity].
    exfalso. destruct (Hinv _ _ Ek) as (Hl & _ & [e He]).
    unfold shortCircuits, remountDue, tracked in Hs, Hr.
    rewrite Hl, Ek in *. simpl in Hs, Hr. rewrite He in Hr. simpl in Hr.
    rewrite andb_true_r in Hr. rewrite Hr in Hs. discriminate.
  - right. split; [exact Hs|]. apply Hcreate; try reflexivity. simpl.
    apply lookup_delete_eq.
Qed.

(** C3, as amended: for a descriptor with a source URL whose key is not
    yet loaded, the first call completes with a promise that is pending,
    and a second call with reload false or on the same path completes with
    the resolved [{status: true, event: "already loaded"}], not with that
    promise, and creates no element. A call that finds the key tracked in
    [ScriptCache] with a promise but not loaded (absent from [LoadCache])
    completes with the cached promise, creates no element and requests no
    frame callback. In the runs of the page from its initial state, with
    every [src] a string or missing, no call finds such a state: a call
    that completes with a promise has just created it, together with its
    element. *)
Theorem second_call_before_settlement :
  (forall props url w1 w2 st,
      sourceURL props = Some url ->
      scriptKey props ∉ LoadCache st ->
      ScriptCache st !! scriptKey props = None ->
      truthy (reloadOf props) = false \/ location_pathname w2 = location_pathname w1 ->
      let st1 := snd (loadScript props w1 st) in
      exists p,
        fst (loadScript props w1 st) = Awaits p /\
        (promise <$> ScriptCache st1 !! scriptKey props) = Some (Some p) /\
        settlementOf p st1 = Some Pending /\
        (exists r, fst (loadScript props w2 st1) = Resolved r /\
                   status r = true /\ event r = Message "already loaded") /\
        elements (snd (loadScript props w2 st1)) = elements st1) /\
  (forall props w st sc p,
      ScriptCache st !! scriptKey props = Some sc ->
      promise sc = Some p ->
      hasLoaded (scriptKey props) st = false ->
      fst (loadScript props w st) = Awaits p /\
      elements (snd (loadScript props w st)) = elements st /\
      animationFrames (snd (loadScript props w st)) = animationFrames st) /\
  (forall DEV actions props w p,
      Forall src_typed actions ->
      let st := run DEV actions initial in
      fst (loadScript props w st) = Awaits p ->
      p = S (length (promises st)) /\
      exists el, elements (snd (loadScript props w st)) = elements st ++ [el]).
Proof.
  split; [|split].
  - intros props url w1 w2 st Hurl Hfresh Hnone Hsame st1.
    destruct (sourceURL_Some _ _ Hurl) as [Hsrc Hk].
    pose proof (repeat_call_short_circuits props w1 w2 st Hk Hsame) as Hsc.
    assert (H1 : exists r, fst (loadScript props w2 (snd (loadScript props w1 st)))
                 = Resolved r /\ status r = true /\ event r = Message "already loaded").
    { rewrite Hsc. eexists. split; [reflexivity|]. split; reflexivity. }
    assert (H2 : elements (snd (loadScript props w2 (snd (loadScript props w1 st))))
                 = elements (snd (loadScript props w1 st))) by now rewrite Hsc.
    clear Hsc.
    exists (S (length (promises st))).
    assert (Hcr : loadScript props w1 st =
                  createScript props (scriptKey props)
                    (stampStart (scriptKey props) w1
                       (set_PrevPathCache <[scriptKey props:=location_pathname w1]> st))).
    { rewrite loadScript_not_loaded
        by (apply not_true_is_false; intros H; apply hasLoaded_true in H; tauto).
      unfold mountScript.
      destruct (stampStart_frame (scriptKey props) w1
                  (set_PrevPathCache <[scriptKey props:=location_pathname w1]> st))
        as (_&_&_&_&_&_& -> &_).
      simpl. now rewrite Hnone. }
    unfold st1 in *. rewrite Hcr in *.
    match goal with |- context [createScript ?q ?k ?s] =>
      destruct (createScript_result q k s Hsrc) as (Hc & Hsc);
      destruct (createScript_fields q k s) as (_&_&_&_&_&_& Hp);
      destruct (stampStart_frame k w1
                  (set_PrevPathCache <[scriptKey props:=location_pathname w1]> st))
        as (_&_& Hps &_)
    end.
    rewrite Hps in Hc, Hsc, Hp. simpl in Hc, Hsc, Hp.
    split; [exact Hc|]. split; [|split; [|split; assumption]].
    + rewrite Hsc, lookup_insert_eq. reflexivity.
    + unfold settlementOf. rewrite Hp. unfold newLoadPromise.
      rewrite lookup_app_r by lia.
      replace (S (length (promises st)) - length (promises st))%nat with 1%nat by lia.
      reflexivity.
  - intros props w st sc p Hsc Hp Hl.
    rewrite loadScript_not_loaded by exact Hl.
    rewrite (mountScript_tracked _ _ _ _ sc) by exact Hsc.
    rewrite Hp. simpl.
    destruct (stampStart_frame (scriptKey props) w
                (set_PrevPathCache <[scriptKey props:=location_pathname w]> st))
      as (-> &_&_&_&_&_&_&_& ->).
    auto.
  - intros DEV actions props w p Hall st Hp.
    destruct (run_call_outcomes DEV actions props w Hall) as [(_ & H & _)|(_ & Hel & H)];
      fold st in H; rewrite H in Hp.
    + discriminate.
    + fold st in Hel. split; [|exact Hel].
      destruct (truthy (get "src" props)); [congruence|discriminate].
Qed.

Lemma second_call_before_settlement_witness :
  let st1 := snd (loadScript worker_descriptor home initial) in
  fst (loadScript worker_descriptor about st1) =
    Resolved {| status := true; event := Message "already loaded" |} /\
  fst (loadScript worker_descriptor about (evict "analytics/ga.js" st1)) = Awaits 1.
Proof.
  intros st1. destruct second_call_before_settlement as (H1 & H2 & _). split.
  - destruct (H1 worker_descriptor "/ga.js" home about initial)
      as (p & _ & _ & _ & (r & H & Hs & He) & _).
    + reflexivity.
    + vm_compute. set_solver.
    + reflexivity.
    + left. reflexivity.
    + fold st1 in H. rewrite H. destruct r as [s e]. simpl in Hs, He. now subst.
  - apply (H2 worker_descriptor about (evict "analytics/ga.js" st1)
              {| promise := Some 1%nat; script := Some 0%nat |} 1%nat).
    + vm_compute. reflexivity.
    + reflexivity.
    + vm_compute. reflexivity.
Defined.

(** C3, as stated, fails on the plainest input: the first call for
    [{id: "analytics", src: "/ga.js"}] completes with the promise cached in
    [ScriptCache], which is still pending, and the second call does not
    complete with that promise but with "already loaded". *)
Lemma second_call_before_settlement_counterexample :
  let st1 := snd (loadScript worker_descriptor home initial) in
  fst (loadScript worker_descriptor home initial) = Awaits 1 /\
  ScriptCache st1 !! "analytics/ga.js" = Some {| promise := Some 1%nat; script := Some 0%nat |} /\
  settlementOf 1 st1 = Some Pending /\
  fst (loadScript worker_descriptor home st1) <> Awaits 1 /\
  fst (loadScript worker_descriptor home st1) =
    Resolved {| status := true; event := Message "already loaded" |}.
Proof.
  intros. repeat match goal with |- _ /\ _ => split end; try (vm_compute; reflexivity).
  vm_compute. discriminate.
Qed.

(** C8, as amended: when the key has an entry in [ScriptCache] that holds
    no promise and the call reaches the check of the instance cache (the
    key is not loaded, or it is loaded, a reload on a changed path is due
    and the entry holds no element either), the call completes with the
    resolved [{status: false, event: "Script load promise not found"}]: a
    resolved result, not a promise that could reject. *)
Theorem promise_not_found_resolved props w st sc :
  ScriptCache st !! scriptKey props = Some sc ->
  promise sc = None ->
  hasLoaded (scriptKey props) st = false \/
  (pathChanged (location_pathname w) (PrevPathCache st !! scriptKey props)
     && truthy (reloadOf props) = true /\ script sc = None) ->
  fst (loadScript props w st) = Resolved promise_not_found /\
  status promise_not_found = false /\
  event promise_not_found = Message "Script load promise not found".
Proof.
  intros Hsc Hp Hreach. split; [|split; reflexivity].
  destruct Hreach as [Hl|[Hr Hs]].
  - rewrite loadScript_not_loaded by exact Hl.
    rewrite (mountScript_tracked _ _ _ _ sc) by exact Hsc. now rewrite Hp.
  - unfold loadScript. fold (reloadOf props). rewrite Hr. simpl negb.
    destruct (hasLoaded _ _).
    + unfold remount. simpl. rewrite Hsc, Hs.
      rewrite (mountScript_tracked _ _ _ _ sc) by exact Hsc. now rewrite Hp.
    + rewrite (mountScript_tracked _ _ _ _ sc) by exact Hsc. now rewrite Hp.
Qed.

Lemma promise_not_found_resolved_witness :
  fst (loadScript worker_descriptor home (track_without_promise "analytics/ga.js" 0 initial))
  = Resolved promise_not_found.
Proof.
  apply (promise_not_found_resolved worker_descriptor home
           (track_without_promise "analytics/ga.js" 0 initial)
           {| promise := None; script := Some 0%nat |}).
  - vm_compute. reflexivity.
  - reflexivity.
  - left. vm_compute. reflexivity.
Defined.

(** C8, as stated, fails when the key is loaded as well: after a plain
    load of [{id: "analytics", src: "/ga.js"}] the entry is replaced by
    one without a promise, and the next call is answered "already loaded"
    with status true. *)
Lemma promise_not_found_counterexample :
  let st1 := track_without_promise "analytics/ga.js" 0
               (snd (loadScript worker_descriptor home initial)) in
  ScriptCache st1 !! scriptKey worker_descriptor
    = Some {| promise := None; script := Some 0%nat |} /\
  fst (loadScript worker_descriptor home st1) = Resolved already_loaded /\
  fst (loadScript worker_descriptor home st1) <> Resolved promise_not_found.
Proof.
  intros. repeat match goal with |- _ /\ _ => split end; try (vm_compute; reflexivity).
  vm_compute. discriminate.
Qed.

(** ** Reload on navigation *)

Lemma member_without x l : member x (without x l) = false.
Proof.
  induction l as [|y l IH]; simpl; [reflexivity|].
  destruct (x =? y)%nat eqn:E; [exact IH|]. simpl. now rewrite E.
Qed.

(** After the queued removal has run, the element is not a child of the
    target. *)
Lemma removeScript_detaches target t old st :
  resolveTarget target = Some t ->
  member old (childrenOf t (document (invoke (removeScript target old) st))) = false.
Proof.
  intros Ht. unfold invoke, removeScript; simpl. rewrite Ht.
  unfold removeChild. destruct (member old (childrenOf t (document st))) eqn:E.
  - destruct t; simpl; apply member_without.
  - simpl. exact E.
Qed.

(** C4, as amended: when a loaded key is called again with [reload] on a
    changed path and [ScriptCache] tracks an element for it, the block of
    the reload removes the key from [LoadCache], [StartTimeCache] and
    [ScriptCache] together; [PrevPathCache] keeps its entry, which now holds
    the current path. The document is not touched by the call: the removal
    of the old element is queued for the next frame, on the target of this
    call, and the call goes on to mount the script from the purged state. *)
Theorem reload_purges_three_registries props w st prev sc old :
  hasLoaded (scriptKey props) st = true ->
  truthy (reloadOf props) = true ->
  PrevPathCache st !! scriptKey props = Some prev ->
  prev <> "" ->
  location_pathname w <> prev ->
  ScriptCache st !! scriptKey props = Some sc ->
  script sc = Some old ->
  let key := scriptKey props in
  let purged := remount key (targetOf props)
                  (set_PrevPathCache <[key := location_pathname w]> st) in
  (key ∉ LoadCache purged) /\
  StartTimeCache purged !! key = None /\
  ScriptCache purged !! key = None /\
  PrevPathCache purged !! key = Some (location_pathname w) /\
  animationFrames purged = animationFrames st ++ [removeScript (targetOf props) old] /\
  document purged = document st /\
  loadScript props w st = mountScript props key w purged /\
  document (snd (loadScript props w st)) = document st /\
  (exists rest,
     animationFrames (snd (loadScript props w st)) =
       animationFrames st ++ removeScript (targetOf props) old :: rest).
Proof.
  intros Hl Hr Hprev Hne Hpath Hsc Hold key purged.
  assert (Hp : purged =
    requestAnimationFrame (removeScript (targetOf props) old)
      (set_StartTimeCache (delete key)
         (set_ScriptCache (delete key)
            (set_LoadCache (fun c => c ∖ {[key]})
               (set_PrevPathCache <[key := location_pathname w]> st))))).
  { unfold purged, key, remount. simpl. rewrite Hsc, Hold. reflexivity. }
  assert (Hcall : loadScript props w st = mountScript props key w purged).
  { unfold loadScript, purged, key. fold (reloadOf props) (targetOf props).
    rewrite Hl, Hprev, Hr. unfold pathChanged.
    apply String.eqb_neq in Hne, Hpath. rewrite Hne, Hpath. reflexivity. }
  assert (Hdoc : document purged = document st) by (rewrite Hp; reflexivity).
  assert (Hq : animationFrames purged
               = animationFrames st ++ [removeScript (targetOf props) old])
    by (rewrite Hp; reflexivity).
  assert (Hnone : ScriptCache purged !! key = None)
    by (rewrite Hp; simpl; apply lookup_delete_eq).
  repeat split; try assumption.
  - rewrite Hp. simpl. intros [_ H]%elem_of_difference. apply H. now apply elem_of_singleton.
  - rewrite Hp. simpl. apply lookup_delete_eq.
  - rewrite Hp. simpl. apply lookup_insert_eq.
  - rewrite Hcall. unfold mountScript.
    destruct (stampStart_frame key w purged) as (_&_&_& Hd &_&_& Hc &_).
    rewrite Hc, Hnone.
    destruct (createScript_fields props key (stampStart key w purged))
      as (_&_&_&_& -> &_). congruence.
  - rewrite Hcall. unfold mountScript.
    destruct (stampStart_frame key w purged) as (_&_&_&_&_&_& Hc &_& Hf).
    rewrite Hc, Hnone.
    destruct (createScript_fields props key (stampStart key w purged))
      as (_&_&_& -> &_).
    rewrite Hf, Hq, <- app_assoc. simpl. eauto.
Qed.

Lemma reload_purges_three_registries_witness :
  let st := snd (loadScript reloading_descriptor home initial) in
  let purged := remount "chat/chat.js" (VString "head")
                  (set_PrevPathCache <["chat/chat.js" := "/about"]> st) in
  ("chat/chat.js" ∉ LoadCache purged) /\
  animationFrames purged = animationFrames st ++ [removeScript (VString "head") 0].
Proof.
  intros st purged.
  destruct (reload_purges_three_registries reloading_descriptor about st "/"
              {| promise := Some 1%nat; script := Some 0%nat |} 0%nat)
    as (H1 & _ & _ & _ & H5 & _); try (vm_compute; reflexivity);
    try (vm_compute; discriminate).
  split; [exact H1 | exact H5].
Defined.

(** C4, as stated, fails on the path registry: after the block of the
    reload (and still after the whole call) the key is in [PrevPathCache],
    with the current path; only three of the four registries lose it. *)
Lemma reload_purge_counterexample :
  let st := snd (loadScript reloading_descriptor home initial) in
  let purged := remount "chat/chat.js" (VString "head")
                  (set_PrevPathCache <["chat/chat.js" := "/about"]> st) in
  hasLoaded "chat/chat.js" st = true /\
  ScriptCache st !! "chat/chat.js" = Some {| promise := Some 1%nat; script := Some 0%nat |} /\
  loadScript reloading_descriptor about st = mountScript reloading_descriptor "chat/chat.js" about purged /\
  ("chat/chat.js" ∉ LoadCache purged) /\
  PrevPathCache purged !! "chat/chat.js" = Some "/about" /\
  PrevPathCache (snd (loadScript reloading_descriptor about st)) !! "chat/chat.js" = Some "/about".
Proof.
  intros. repeat match goal with |- _ /\ _ => split end; try (vm_compute; reflexivity).
  vm_compute. set_solver.
Qed.

(** ** Promises along a run *)

Lemma same_reactions_refl ps : same_reactions ps ps.
Proof. split; auto. Qed.

Lemma same_reactions_trans ps1 ps2 ps3 :
  same_reactions ps1 ps2 -> same_reactions ps2 ps3 -> same_reactions ps1 ps3.
Proof. intros [A1 A2] [B1 B2]. split; [congruence|]. intros i. now rewrite B2. Qed.

(** Settling: the promise is pending and takes the settlement, or nothing
    happens. *)
Lemma settlePromise_cases p s st :
  (exists pr, promises st !! p = Some pr /\ settlement pr = Pending /\
     settlePromise p s st =
       set_trace (fun t => t ++ [Settled p s])
         (set_promises (fun ps => <[p := {| settlement := s; reaction := reaction pr |}]> ps) st))
  \/ (isPending p st = false /\ settlePromise p s st = st).
Proof.
  unfold settlePromise, isPending.
  destruct (promises st !! p) as [pr|] eqn:E; [|right; auto].
  destruct (settlement pr) eqn:Es.
  - left. exists pr. auto.
  - right. split; [|reflexivity]. apply bool_decide_eq_false. congruence.
  - right. split; [|reflexivity]. apply bool_decide_eq_false. congruence.
  - right. split; [|reflexivity]. apply bool_decide_eq_false. congruence.
Qed.

Lemma settlePromise_reactions p s st :
  same_reactions (promises st) (promises (settlePromise p s st)).
Proof.
  destruct (settlePromise_cases p s st) as [(pr & Hp & _ & ->)|[_ ->]];
    [|apply same_reactions_refl].
  simpl. split; [apply length_insert|].
  intros i. destruct (decide (p = i)) as [<-|Hne].
  - rewrite list_lookup_insert_eq by (eapply lookup_lt_Some; eauto).
    now rewrite Hp.
  - now rewrite list_lookup_insert_ne.
Qed.

Lemma settlePromise_other p s st q :
  q <> p -> promises (settlePromise p s st) !! q = promises st !! q.
Proof.
  intros Hne.
  destruct (settlePromise_cases p s st) as [(pr & Hp & _ & ->)|[_ ->]]; [|reflexivity].
  simpl. now rewrite list_lookup_insert_ne.
Qed.

Lemma settlePromise_settled p s st q x :
  settlementOf q st = Some x -> x <> Pending ->
  settlementOf q (settlePromise p s st) = Some x.
Proof.
  intros Hq Hx. unfold settlementOf in *.
  destruct (decide (q = p)) as [->|Hne]; [|now rewrite settlePromise_other].
  destruct (settlePromise_cases p s st) as [(pr & Hp & Hs & _)|[_ ->]]; [|exact Hq].
  rewrite Hp in Hq. simpl in Hq. congruence.
Qed.

Lemma reactionOf_settlePromise p s st q :
  reactionOf q (settlePromise p s st) = reactionOf q st.
Proof.
  unfold reactionOf.
  destruct (settlePromise_reactions p s st) as [_ H]. specialize (H q).
  destruct (promises (settlePromise p s st) !! q), (promises st !! q);
    simpl in H; congruence.
Qed.

(** What the page has seen is all that a call of a callback, a log or an
    uncaught error adds to the state. *)
Lemma set_trace_nil st : set_trace (fun t => t ++ []) st = st.
Proof. destruct st. unfold set_trace. simpl. now rewrite app_nil_r. Qed.

Lemma set_trace_app l1 l2 st :
  set_trace (fun t => t ++ l2) (set_trace (fun t => t ++ l1) st) =
  set_trace (fun t => t ++ l1 ++ l2) st.
Proof. unfold set_trace. simpl. now rewrite app_assoc. Qed.

Lemma callIfGiven_eq f arg st :
  callIfGiven f arg st = (set_trace (fun t => t ++ callOf f arg) st, failureOf f).
Proof.
  unfold callIfGiven, callOf, failureOf, call.
  destruct (truthy f); [|now rewrite set_trace_nil].
  destruct f; rewrite ?set_trace_nil; reflexivity.
Qed.

(** The load listener, read off its callbacks: an error of [onLoad] ends
    it before [onReady], an error of [onReady] before the log and the
    resolution. *)
Lemma onload_eq DEV script ev st el l :
  elements st !! script = Some el -> el_onload el = Some l ->
  onload DEV script ev st =
  match failureOf (ls_onLoad l) with
  | Some error =>
      set_trace (fun t => t ++ callOf (ls_onLoad l) (ArgEvent ev) ++ [Uncaught error]) st
  | None =>
      match failureOf (ls_onReady l) with
      | Some error =>
          set_trace (fun t => t ++ callOf (ls_onLoad l) (ArgEvent ev)
                                ++ callOf (ls_onReady l) (ArgEvent ev) ++ [Uncaught error]) st
      | None =>
          resolve (ls_promise l) {| status := true; event := BrowserEvent ev |}
            (set_trace (fun t => t ++ callOf (ls_onLoad l) (ArgEvent ev)
                                   ++ callOf (ls_onReady l) (ArgEvent ev)
                                   ++ (if DEV then [LoggedPerformance (ls_key l) (ls_src l)]
                                       else [])) st)
      end
  end.
Proof.
  intros Hel Hl. unfold onload. rewrite Hel, Hl, callIfGiven_eq.
  destruct (failureOf (ls_onLoad l)) as [error|].
  { unfold uncaught. now rewrite set_trace_app. }
  rewrite callIfGiven_eq, set_trace_app.
  destruct (failureOf (ls_onReady l)) as [error|].
  { unfold uncaught. now rewrite set_trace_app, <- app_assoc. }
  f_equal. destruct DEV.
  - unfold logScriptPerformance. now rewrite set_trace_app, <- app_assoc.
  - now rewrite app_nil_r.
Qed.

(** The rejection, read off [onError]. *)
Lemma reject_eq DEV p r st :
  reject DEV p r st =
  if isPending p st then
    match reactionOf p st with
    | Some h =>
        settlePromise (ch_derived h)
          match failureOf (ch_onError h) with
          | Some error => RejectedWith error
          | None => Rejected r
          end
          (set_trace (fun t => t ++ (if DEV then [LoggedPerformance (ch_key h) (ch_src h)]
                                     else [])
                                 ++ callOf (ch_onError h) (ArgResponse r))
             (settlePromise p (Rejected r) st))
    | None => settlePromise p (Rejected r) st
    end
  else st.
Proof.
  unfold reject. destruct (isPending p st); [|reflexivity].
  rewrite reactionOf_settlePromise.
  destruct (reactionOf p st) as [h|]; [|reflexivity].
  rewrite callIfGiven_eq. f_equal.
  destruct DEV.
  - unfold logScriptPerformance. now rewrite set_trace_app.
  - reflexivity.
Qed.

(** [resolve p] touches [p] and the promise derived from it, nothing else. *)
Lemma resolve_promises p r st :
  same_reactions (promises st) (promises (resolve p r st)) /\
  (forall q, q <> p -> (forall h, reactionOf p st = Some h -> q <> ch_derived h) ->
             promises (resolve p r st) !! q = promises st !! q) /\
  (forall q x, settlementOf q st = Some x -> x <> Pending ->
               settlementOf q (resolve p r st) = Some x).
Proof.
  unfold resolve. destruct (isPending p st).
  2:{ split; [apply same_reactions_refl|]. split; auto. }
  rewrite reactionOf_settlePromise.
  destruct (reactionOf p st) as [h|].
  - split; [|split].
    + eapply same_reactions_trans; apply settlePromise_reactions.
    + intros q H1 H2. rewrite !settlePromise_other; auto.
    + intros q x H1 H2. apply settlePromise_settled; [|exact H2].
      now apply settlePromise_settled.
  - split; [|split].
    + apply settlePromise_reactions.
    + intros q H1 _. now rewrite settlePromise_other.
    + intros q x H1 H2. now apply settlePromise_settled.
Qed.

Lemma reject_promises DEV p r st :
  same_reactions (promises st) (promises (reject DEV p r st)) /\
  (forall q, q <> p -> (forall h, reactionOf p st = Some h -> q <> ch_derived h) ->
             promises (reject DEV p r st) !! q = promises st !! q) /\
  (forall q x, settlementOf q st = Some x -> x <> Pending ->
               settlementOf q (reject DEV p r st) = Some x).
Proof.
  rewrite reject_eq. destruct (isPending p st).
  2:{ split; [apply same_reactions_refl|]. split; auto. }
  destruct (reactionOf p st) as [h|].
  - set (s1 := settlePromise p (Rejected r) st).
    set (s3 := set_trace _ s1).
    assert (E : promises s3 = promises s1) by reflexivity.
    split; [|split].
    + apply same_reactions_trans with (ps2 := promises s1);
        [apply settlePromise_reactions|].
      rewrite <- E. apply settlePromise_reactions.
    + intros q H1 H2. rewrite settlePromise_other by auto. rewrite E.
      unfold s1. now rewrite settlePromise_other.
    + intros q x H1 H2. apply settlePromise_settled; [|exact H2].
      unfold settlementOf. rewrite E. now apply settlePromise_settled.
  - split; [|split].
    + apply settlePromise_reactions.
    + intros q H1 _. now rewrite settlePromise_other.
    + intros q x H1 H2. now apply settlePromise_settled.
Qed.

(** An event on the script [j] touches the two promises of no other
    script, and keeps every settled promise. *)
Lemma onload_promises DEV j ev st :
  same_reactions (promises st) (promises (onload DEV j ev st)) /\
  (forall q x, settlementOf q st = Some x -> x <> Pending ->
               settlementOf q (onload DEV j ev st) = Some x) /\
  (forall el l, elements st !! j = Some el -> el_onload el = Some l ->
     forall q, q <> ls_promise l ->
       (forall h, reactionOf (ls_promise l) st = Some h -> q <> ch_derived h) ->
       promises (onload DEV j ev st) !! q = promises st !! q).
Proof.
  destruct (elements st !! j) as [el|] eqn:Hel.
  2:{ unfold onload. rewrite Hel. split; [apply same_reactions_refl|].
      split; [auto|]. intros ? ? [=]. }
  destruct (el_onload el) as [l|] eqn:Hl.
  2:{ unfold onload. rewrite Hel, Hl. split; [apply same_reactions_refl|].
      split; [auto|]. intros ? ? [= <-] H. congruence. }
  rewrite (onload_eq DEV j ev st el l Hel Hl).
  destruct (failureOf (ls_onLoad l)) as [e1|].
  { split; [apply same_reactions_refl|]. split; [auto|]. intros; reflexivity. }
  destruct (failureOf (ls_onReady l)) as [e2|].
  { split; [apply same_reactions_refl|]. split; [auto|]. intros; reflexivity. }
  match goal with |- context [resolve ?p ?r ?s] =>
    destruct (resolve_promises p r s) as (H1 & H2 & H3) end.
  split; [exact H1|]. split; [exact H3|].
  intros el' l' [= <-] Hl' q Hq Hh. rewrite Hl in Hl'. injection Hl' as <-.
  now apply H2.
Qed.

Lemma settlePromise_pending p s st pr :
  promises st !! p = Some pr -> settlement pr = Pending ->
  settlePromise p s st =
  set_trace (fun t => t ++ [Settled p s])
    (set_promises (fun ps => <[p := {| settlement := s; reaction := reaction pr |}]> ps) st).
Proof. intros Hp Hs. unfold settlePromise. now rewrite Hp, Hs. Qed.

Lemma isPending_true p st pr :
  promises st !! p = Some pr -> settlement pr = Pending -> isPending p st = true.
Proof. intros Hp Hs. unfold isPending. rewrite Hp. now apply bool_decide_eq_true. Qed.

Lemma isPending_settled p st x :
  settlementOf p st = Some x -> x <> Pending -> isPending p st = false.
Proof.
  unfold settlementOf, isPending. intros H Hx.
  destruct (promises st !! p) as [pr|]; [|reflexivity].
  simpl in H. injection H as <-. now apply bool_decide_eq_false.
Qed.

(** Resolving a pending promise whose [.catch] promise is pending. *)
Lemma resolve_pending p r st pr h pr2 :
  promises st !! p = Some pr -> settlement pr = Pending -> reaction pr = Some h ->
  promises st !! ch_derived h = Some pr2 -> settlement pr2 = Pending ->
  ch_derived h <> p ->
  trace (resolve p r st) =
    trace st ++ [Settled p (Fulfilled r); Settled (ch_derived h) (Fulfilled r)] /\
  settlementOf p (resolve p r st) = Some (Fulfilled r) /\
  settlementOf (ch_derived h) (resolve p r st) = Some (Fulfilled r).
Proof.
  intros Hp Hs Hr Hd Hs2 Hne. unfold resolve. cbv zeta.
  assert (Hre : reactionOf p st = Some h) by (unfold reactionOf; now rewrite Hp).
  rewrite (isPending_true p st pr Hp Hs), reactionOf_settlePromise, Hre.
  rewrite (settlePromise_pending p _ st pr Hp Hs).
  set (s1 := set_trace _ _).
  assert (Hd1 : promises s1 !! ch_derived h = Some pr2)
    by (unfold s1; simpl; now rewrite list_lookup_insert_ne).
  rewrite (settlePromise_pending _ _ s1 pr2 Hd1 Hs2).
  unfold settlementOf, s1; simpl. split; [|split].
  - now rewrite <- app_assoc.
  - rewrite list_lookup_insert_ne by auto.
    rewrite list_lookup_insert_eq by (eapply lookup_lt_Some; eauto). reflexivity.
  - rewrite list_lookup_insert_eq; [reflexivity|].
    rewrite length_insert. eapply lookup_lt_Some; eauto.
Qed.

(** Rejecting a pending promise whose [.catch] promise is pending: the
    callback logs in development mode, calls [onError] with the rejection
    value and rejects with it again, or with what [onError] throws. *)
Lemma reject_pending DEV p r st pr h pr2 :
  promises st !! p = Some pr -> settlement pr = Pending -> reaction pr = Some h ->
  promises st !! ch_derived h = Some pr2 -> settlement pr2 = Pending ->
  ch_derived h <> p ->
  let outcome := match failureOf (ch_onError h) with
                 | Some error => RejectedWith error
                 | None => Rejected r
                 end in
  trace (reject DEV p r st) =
    trace st ++ [Settled p (Rejected r)]
      ++ (if DEV then [LoggedPerformance (ch_key h) (ch_src h)] else [])
      ++ callOf (ch_onError h) (ArgResponse r)
      ++ [Settled (ch_derived h) outcome] /\
  settlementOf p (reject DEV p r st) = Some (Rejected r) /\
  settlementOf (ch_derived h) (reject DEV p r st) = Some outcome.
Proof.
  intros Hp Hs Hr Hd Hs2 Hne outcome. rewrite reject_eq.
  assert (Hre : reactionOf p st = Some h) by (unfold reactionOf; now rewrite Hp).
  rewrite (isPending_true p st pr Hp Hs), Hre.
  rewrite (settlePromise_pending p _ st pr Hp Hs).
  fold outcome.
  set (s3 := set_trace _ (set_trace _ _)).
  assert (E : promises s3 = <[p := {| settlement := Rejected r; reaction := reaction pr |}]> (promises st))
    by reflexivity.
  assert (Et : trace s3 = (trace st ++ [Settled p (Rejected r)])
      ++ (if DEV then [LoggedPerformance (ch_key h) (ch_src h)] else [])
      ++ callOf (ch_onError h) (ArgResponse r)) by reflexivity.
  assert (Hd3 : promises s3 !! ch_derived h = Some pr2)
    by (rewrite E; now rewrite list_lookup_insert_ne).
  rewrite (settlePromise_pending _ _ s3 pr2 Hd3 Hs2).
  unfold settlementOf; cbn [trace set_trace promises set_promises].
  rewrite E, Et. split; [|split].
  - now rewrite <- !app_assoc.
  - rewrite list_lookup_insert_ne by auto.
    rewrite list_lookup_insert_eq by (eapply lookup_lt_Some; eauto). reflexivity.
  - rewrite list_lookup_insert_eq; [reflexivity|].
    rewrite length_insert. eapply lookup_lt_Some; eauto.
Qed.

Lemma heap_wf_initial : heap_wf initial.
Proof. split; [reflexivity|]. intros i el H. discriminate. Qed.

Lemma heap_wf_same st st' :
  elements st' = elements st -> same_reactions (promises st) (promises st') ->
  heap_wf st -> heap_wf st'.
Proof.
  intros He [Hl Hr] [Hlen Hwf]. split; [congruence|].
  intros i el Hi. rewrite He in Hi.
  destruct (Hwf i el Hi) as (H1 & H2 & (pr & h & Hp & Hh & Hd) & (pr' & Hp' & Hh')).
  repeat split; try assumption.
  - pose proof (Hr (2 * i)) as E. rewrite Hp in E.
    destruct (promises st' !! (2 * i)) as [q|]; [|discriminate].
    exists q, h. simpl in E. split; [reflexivity|]. split; congruence.
  - pose proof (Hr (S (2 * i))) as E. rewrite Hp' in E.
    destruct (promises st' !! S (2 * i)) as [q|]; [|discriminate].
    exists q. simpl in E. split; congruence.
Qed.

Lemma heap_wf_loadScript props w st :
  heap_wf st -> heap_wf (snd (loadScript props w st)).
Proof.
  intros Hwf.
  destruct (loadScript_heap props w st) as [(He & Hp & _)|(He & Hp & _)].
  - eapply heap_wf_same; [exact He| |exact Hwf]. rewrite Hp. apply same_reactions_refl.
  - destruct Hwf as [Hlen Hwf]. split.
    + rewrite He, Hp, !length_app. simpl. lia.
    + intros i el Hi. rewrite He in Hi. rewrite Hp.
      apply lookup_app_Some in Hi as [Hi|[Hge Hi]].
      * destruct (Hwf i el Hi) as (H1 & H2 & (pr & h & Hq & Hh & Hd) & (pr' & Hq' & Hh')).
        repeat split; try assumption.
        -- exists pr, h. rewrite lookup_app_l by (eapply lookup_lt_Some; eauto). auto.
        -- exists pr'. rewrite lookup_app_l by (eapply lookup_lt_Some; eauto). auto.
      * assert (i = length (elements st)) as ->.
        { apply lookup_lt_Some in Hi. simpl in Hi. lia. }
        rewrite Nat.sub_diag in Hi. injection Hi as <-.
        rewrite <- Hlen. repeat split.
        -- eexists. split; reflexivity.
        -- eexists _, _. rewrite lookup_app_r by lia. rewrite Nat.sub_diag.
           split; [reflexivity|]. split; reflexivity.
        -- eexists. rewrite lookup_app_r by lia.
           replace (S (length (promises st)) - length (promises st)) with 1 by lia.
           split; reflexivity.
Qed.

Lemma heap_wf_step DEV a st : heap_wf st -> heap_wf (step DEV a st).
Proof.
  intros Hwf. destruct a as [props w| |j ev|j ev]; simpl.
  - now apply heap_wf_loadScript.
  - destruct (animationFrame_same_module st) as (_&_&_&_&_& He & Hp).
    eapply heap_wf_same; [exact He| |exact Hwf]. rewrite Hp. apply same_reactions_refl.
  - eapply heap_wf_same; [apply onload_same_page|apply onload_promises|exact Hwf].
  - eapply heap_wf_same; [apply onerror_same_page| |exact Hwf].
    unfold onerror. destruct (elements st !! j) as [el|]; [|apply same_reactions_refl].
    destruct (el_onerror el) as [p|]; [|apply same_reactions_refl].
    apply reject_promises.
Qed.

Lemma heap_wf_run DEV actions : forall st, heap_wf st -> heap_wf (run DEV actions st).
Proof.
  induction actions as [|a rest IH]; intros st H; [exact H|].
  simpl. apply IH, heap_wf_step, H.
Qed.

(** A settled promise stays as it is. *)
Lemma step_settled DEV a st q x :
  settlementOf q st = Some x -> x <> Pending ->
  settlementOf q (step DEV a st) = Some x.
Proof.
  intros Hq Hx. destruct a as [props w| |j ev|j ev]; simpl.
  - unfold settlementOf in *.
    destruct (loadScript_heap props w st) as [(_ & -> & _)|(_ & -> & _)]; [exact Hq|].
    rewrite lookup_app_l; [exact Hq|].
    destruct (promises st !! q) eqn:E; [|discriminate].
    eapply lookup_lt_Some; eauto.
  - unfold settlementOf in *.
    destruct (animationFrame_same_module st) as (_&_&_&_&_&_& ->). exact Hq.
  - now apply onload_promises.
  - unfold onerror. destruct (elements st !! j) as [el|]; [|exact Hq].
    destruct (el_onerror el) as [p|]; [|exact Hq].
    now apply reject_promises.
Qed.

Lemma run_settled DEV actions : forall st q x,
  settlementOf q st = Some x -> x <> Pending ->
  settlementOf q (run DEV actions st) = Some x.
Proof.
  induction actions as [|a rest IH]; intros st q x Hq Hx; [exact Hq|].
  simpl. apply IH; [|exact Hx]. now apply step_settled.
Qed.

(** An element and its two promises are left alone by every action that
    is not an event on that element. *)
Lemma step_owned DEV a st script :
  heap_wf st -> not_event_on script a -> script < length (elements st) ->
  elements (step DEV a st) !! script = elements st !! script /\
  promises (step DEV a st) !! (2 * script) = promises st !! (2 * script) /\
  promises (step DEV a st) !! S (2 * script) = promises st !! S (2 * script).
Proof.
  intros [Hlen Hwf] Ha Hlt. destruct a as [props w| |j ev|j ev]; simpl.
  - destruct (loadScript_heap props w st) as [(-> & -> & _)|(-> & -> & _)]; [auto|].
    rewrite !lookup_app_l by lia. auto.
  - destruct (animationFrame_same_module st) as (_&_&_&_&_& -> & ->). auto.
  - destruct (onload_same_page DEV j ev st) as (_&_&_&_&_& -> &_).
    split; [reflexivity|]. simpl in Ha.
    destruct (elements st !! j) as [el|] eqn:Ej.
    2:{ unfold onload. rewrite Ej. auto. }
    destruct (Hwf j el Ej) as ((l & Hl & Hpl) & _ & (pr & h & Hp & Hh & Hd) & _).
    destruct (onload_promises DEV j ev st) as (_ & _ & H).
    specialize (H el l Ej Hl).
    assert (Hre : forall h', reactionOf (ls_promise l) st = Some h' ->
                             ch_derived h' = S (2 * j))
      by (intros h'; unfold reactionOf; rewrite Hpl, Hp, Hh; congruence).
    rewrite !H; auto; try lia; intros h' Hh'; apply Hre in Hh'; lia.
  - destruct (onerror_same_page DEV j ev st) as (_&_&_&_&_& -> &_).
    split; [reflexivity|]. simpl in Ha.
    unfold onerror. destruct (elements st !! j) as [el|] eqn:Ej; [|auto].
    destruct (Hwf j el Ej) as (_ & -> & (pr & h & Hp & Hh & Hd) & _).
    match goal with |- context [reject ?d ?p ?r ?s] =>
      destruct (reject_promises d p r s) as (_ & H & _);
      assert (Hre : forall h', reactionOf p s = Some h' -> ch_derived h' = S (2 * j))
        by (intros h'; unfold reactionOf; rewrite Hp, Hh; congruence)
    end.
    rewrite !H; auto; try lia; intros h' Hh'; apply Hre in Hh'; lia.
Qed.

Lemma step_elements_length DEV a st :
  length (elements st) <= length (elements (step DEV a st)).
Proof.
  destruct a as [props w| |j ev|j ev]; simpl.
  - destruct (loadScript_heap props w st) as [(-> & _)|(-> & _)];
      rewrite ?length_app; simpl; lia.
  - destruct (animationFrame_same_module st) as (_&_&_&_&_& -> & _). lia.
  - destruct (onload_same_page DEV j ev st) as (_&_&_&_&_& -> &_). lia.
  - destruct (onerror_same_page DEV j ev st) as (_&_&_&_&_& -> &_). lia.
Qed.

Lemma run_owned DEV actions script : forall st,
  heap_wf st -> Forall (not_event_on script) actions ->
  script < length (elements st) ->
  elements (run DEV actions st) !! script = elements st !! script /\
  promises (run DEV actions st) !! (2 * script) = promises st !! (2 * script) /\
  promises (run DEV actions st) !! S (2 * script) = promises st !! S (2 * script).
Proof.
  induction actions as [|a rest IH]; intros st Hwf Hall Hlt; [auto|].
  inversion Hall as [|? ? Ha Hrest]; subst. cbn [run].
  destruct (step_owned DEV a st script Hwf Ha Hlt) as (E1 & E2 & E3).
  destruct (IH (step DEV a st)) as (F1 & F2 & F3).
  - now apply heap_wf_step.
  - exact Hrest.
  - pose proof (step_elements_length DEV a st). lia.
  - rewrite F1, F2, F3. auto.
Qed.

(** C7, as amended: a call that creates the element of a descriptor with
    a source URL completes with a promise that, whatever calls, frames and
    events on other elements follow, stays pending until the first load or
    error event of the element. On the load event the listener calls
    [onLoad], then [onReady] (each when given); when both return, it logs
    in development mode and fulfils the promise with
    [{status: true, event}]; when one of them throws, the listener ends
    there, the error is uncaught and the promise stays pending. On the
    error event the promise of the listeners is rejected with
    [{status: false, event}] and [onError] is called with that value; the
    returned promise is rejected with the same value when [onError]
    returns, and with the error of [onError] when it throws. Once settled,
    the promise never changes again. *)
Theorem load_settles_once DEV history props w c st' el later :
  truthy (get "src" props) = true ->
  loadScript props w (run DEV history initial) = (c, st') ->
  elements st' = elements (run DEV history initial) ++ [el] ->
  Forall (not_event_on (length (elements (run DEV history initial)))) later ->
  let script := length (elements (run DEV history initial)) in
  let s := run DEV later st' in
  exists p,
    c = Awaits p /\
    settlementOf p s = Some Pending /\
    (forall ev,
        let r := {| status := true; event := BrowserEvent ev |} in
        let s' := onload DEV script ev s in
        (failureOf (onLoadOf props) = None -> failureOf (onReadyOf props) = None ->
         settlementOf p s' = Some (Fulfilled r) /\
         trace s' =
           trace s ++ callOf (onLoadOf props) (ArgEvent ev)
             ++ callOf (onReadyOf props) (ArgEvent ev) ++ performanceLog DEV props
             ++ [Settled (p - 1) (Fulfilled r); Settled p (Fulfilled r)]) /\
        (forall error, failureOf (onLoadOf props) = Some error ->
         settlementOf p s' = Some Pending /\
         trace s' = trace s ++ callOf (onLoadOf props) (ArgEvent ev) ++ [Uncaught error]) /\
        (forall error,
         failureOf (onLoadOf props) = None -> failureOf (onReadyOf props) = Some error ->
         settlementOf p s' = Some Pending /\
         trace s' =
           trace s ++ callOf (onLoadOf props) (ArgEvent ev)
             ++ callOf (onReadyOf props) (ArgEvent ev) ++ [Uncaught error])) /\
    (forall ev,
        let r := {| status := false; event := BrowserEvent ev |} in
        let s' := onerror DEV script ev s in
        let outcome := match failureOf (onErrorOf props) with
                       | Some error => RejectedWith error
                       | None => Rejected r
                       end in
        settlementOf (p - 1) s' = Some (Rejected r) /\
        settlementOf p s' = Some outcome /\
        trace s' =
          trace s ++ [Settled (p - 1) (Rejected r)] ++ performanceLog DEV props
            ++ callOf (onErrorOf props) (ArgResponse r) ++ [Settled p outcome]) /\
    (forall s1 x more,
        settlementOf p s1 = Some x -> x <> Pending ->
        settlementOf p (run DEV more s1) = Some x).
Proof.
  intros Hsrc Hcall Hel Hlater script s.
  set (st := run DEV history initial) in *.
  assert (Hwf : heap_wf st) by apply heap_wf_run, heap_wf_initial.
  assert (Hwf' : heap_wf st').
  { replace st' with (snd (loadScript props w st)) by now rewrite Hcall.
    now apply heap_wf_loadScript. }
  destruct (loadScript_creates _ _ _ _ _ _ Hcall Hel) as (st1 & Hcr & He1 & _ & Hp1 & _).
  destruct (createScript_result props (scriptKey props) st1 Hsrc) as [Hc _].
  destruct (createScript_fields props (scriptKey props) st1) as (_&_&_&_&_&_& Hps).
  rewrite Hcr in Hc, Hps. simpl in Hc, Hps. rewrite Hp1 in Hc, Hps.
  rewrite <- He1 in Hel. apply (createScript_created _ _ _ _ _ _ Hcr) in Hel.
  rewrite Hp1 in Hel.
  assert (Hn : length (promises st) = 2 * script) by apply Hwf.
  set (inner := length (promises st)) in *.
  assert (Hscript : script < length (elements st')).
  { replace st' with (snd (createScript props (scriptKey props) st1)) by now rewrite Hcr.
    rewrite createScript_elements, He1, length_app. simpl. unfold script. lia. }
  destruct (run_owned DEV later script st' Hwf' Hlater Hscript) as (E1 & E2 & E3).
  fold s in E1, E2, E3.
  assert (Hel' : elements s !! script = Some el).
  { rewrite E1.
    replace st' with (snd (createScript props (scriptKey props) st1)) by now rewrite Hcr.
    rewrite createScript_elements, He1, Hp1, Hel. unfold inner.
    apply list_lookup_middle. reflexivity. }
  set (h := {| ch_key := scriptKey props; ch_src := get "src" props;
               ch_onError := onErrorOf props; ch_derived := S inner |}).
  set (l := {| ls_onLoad := onLoadOf props; ls_onReady := onReadyOf props;
               ls_key := scriptKey props; ls_src := get "src" props;
               ls_promise := inner |}).
  assert (Hl : el_onload el = Some l) by (rewrite Hel; reflexivity).
  assert (He : el_onerror el = Some inner) by (rewrite Hel; reflexivity).
  assert (Hin : promises s !! inner = Some {| settlement := Pending; reaction := Some h |}).
  { rewrite Hn, E2, <- Hn, Hps. unfold newLoadPromise.
    rewrite lookup_app_r by (unfold inner; lia).
    unfold inner. rewrite Nat.sub_diag. reflexivity. }
  assert (Hout : promises s !! S inner = Some {| settlement := Pending; reaction := None |}).
  { rewrite Hn, E3, <- Hn, Hps. unfold newLoadPromise.
    rewrite lookup_app_r by (unfold inner; lia).
    replace (S inner - length (promises st)) with 1 by (unfold inner; lia).
    reflexivity. }
  exists (S inner). split; [exact Hc|]. split; [|split; [|split]].
  - unfold settlementOf. now rewrite Hout.
  - intros ev r s'. subst s'.
    rewrite (onload_eq DEV script ev s el l Hel' Hl).
    cbn [l ls_onLoad ls_onReady ls_key ls_src ls_promise].
    split; [|split].
    + intros -> ->.
      match goal with |- context [resolve inner ?r0 ?s0] =>
        destruct (resolve_pending inner r0 s0 {| settlement := Pending; reaction := Some h |} h
                    {| settlement := Pending; reaction := None |})
          as (T & _ & S2); try reflexivity; [exact Hin | exact Hout | simpl; lia |]
      end.
      split; [exact S2|].
      rewrite T. cbn [trace set_trace ch_derived h]. unfold performanceLog.
      rewrite Nat.sub_succ, Nat.sub_0_r, <- !app_assoc. reflexivity.
    + intros error ->. split; [unfold settlementOf; cbn; now rewrite Hout|reflexivity].
    + intros error -> ->. split; [unfold settlementOf; cbn; now rewrite Hout|reflexivity].
  - intros ev r s' outcome. subst s'. unfold onerror. rewrite Hel', He.
    destruct (reject_pending DEV inner r s _ h {| settlement := Pending; reaction := None |} Hin)
      as (T & S1 & S2); try reflexivity; [exact Hout | simpl; lia |].
    rewrite Nat.sub_succ, Nat.sub_0_r.
    split; [exact S1|]. split; [exact S2|]. exact T.
  - intros s1 x more. apply run_settled.
Qed.

Lemma load_settles_once_witness :
  let s := run true [Frame] (snd (loadScript callbacks_descriptor home initial)) in
  let loaded := {| status := true; event := BrowserEvent 7 |} in
  let failed := {| status := false; event := BrowserEvent 8 |} in
  fst (loadScript callbacks_descriptor home initial) = Awaits 1 /\
  settlementOf 1 (onload true 0 7 s) = Some (Fulfilled loaded) /\
  trace (onload true 0 7 s) =
    [Called (VFunction (Callback 1)) (ArgEvent 7);
     Called (VFunction (Callback 2)) (ArgEvent 7);
     LoggedPerformance "maps/maps.js" (VString "/maps.js");
     Settled 0 (Fulfilled loaded); Settled 1 (Fulfilled loaded)] /\
  settlementOf 1 (onerror true 0 8 s) = Some (Rejected failed) /\
  trace (onerror true 0 8 s) =
    [Settled 0 (Rejected failed);
     LoggedPerformance "maps/maps.js" (VString "/maps.js");
     Called (VFunction (Callback 3)) (ArgResponse failed);
     Settled 1 (Rejected failed)].
Proof.
  intros s loaded failed.
  destruct (load_settles_once true [] callbacks_descriptor home
              (fst (loadScript callbacks_descriptor home initial))
              (snd (loadScript callbacks_descriptor home initial))
              (buildScript initial_ignoreProps callbacks_descriptor "maps/maps.js" 0)
              [Frame])
    as (p & Hc & _ & Hload & Herr & _).
  - reflexivity.
  - apply surjective_pairing.
  - vm_compute. reflexivity.
  - repeat constructor.
  - assert (Hp : p = 1%nat) by (vm_compute in Hc; congruence). subst p.
    destruct (Hload 7%nat) as [HL _]. destruct HL as [L1 L2]; [reflexivity|reflexivity|].
    destruct (Herr 8%nat) as (_ & E1 & E2).
    split; [vm_compute; reflexivity|].
    split; [exact L1|].
    split; [etransitivity; [exact L2|vm_compute; reflexivity]|].
    split; [exact E1|].
    etransitivity; [exact E2|vm_compute; reflexivity].
Defined.

(** C7, as stated, fails when a callback throws: with an [onLoad] that
    throws, the load event leaves the returned promise pending ([onReady]
    is not called and nothing is resolved); with an [onError] that throws,
    the error event rejects the returned promise with the error thrown, not
    with [{status: false, event}]. *)
Lemma load_settles_once_counterexample :
  let s := snd (loadScript throwing_descriptor home initial) in
  fst (loadScript throwing_descriptor home initial) = Awaits 1 /\
  settlementOf 1 (onload false 0 7 s) = Some Pending /\
  trace (onload false 0 7 s) =
    [Called (VFunction (Thrower 1 "RangeError")) (ArgEvent 7); Uncaught "RangeError"] /\
  settlementOf 1 (onerror false 0 8 s) = Some (RejectedWith "SyntaxError") /\
  settlementOf 1 (onerror false 0 8 s)
    <> Some (Rejected {| status := false; event := BrowserEvent 8 |}).
Proof.
  intros. repeat match goal with |- _ /\ _ => split end; try (vm_compute; reflexivity).
  vm_compute. discriminate.
Qed.

(** ** One live element per key *)

Lemma keyIs_app k els more e :
  e < length els -> keyIs k (els ++ more) e = keyIs k els e.
Proof. intros H. unfold keyIs. now rewrite lookup_app_l. Qed.

Lemma liveIn_extend k els more ids :
  (forall e, In e ids -> e < length els) ->
  liveIn k (els ++ more) ids = liveIn k els ids.
Proof.
  induction ids as [|e ids IH]; intros H; [reflexivity|].
  simpl. rewrite keyIs_app by (apply H; now left).
  rewrite IH by (intros x Hx; apply H; now right). reflexivity.
Qed.

Lemma liveIn_app k els l1 l2 :
  liveIn k els (l1 ++ l2) = liveIn k els l1 ++ liveIn k els l2.
Proof.
  induction l1 as [|e l1 IH]; [reflexivity|].
  simpl. destruct (keyIs k els e); simpl; now rewrite IH.
Qed.

Lemma liveIn_without k els x l :
  liveIn k els (without x l) = without x (liveIn k els l).
Proof.
  induction l as [|y l IH]; [reflexivity|]. simpl.
  destruct (x =? y)%nat eqn:E.
  - apply Nat.eqb_eq in E. subst y.
    destruct (keyIs k els x); [|exact IH]. simpl. now rewrite Nat.eqb_refl.
  - simpl. destruct (keyIs k els y); [|exact IH]. simpl. now rewrite E, IH.
Qed.

Lemma liveIn_In k els x l : In x (liveIn k els l) -> In x l /\ keyIs k els x = true.
Proof.
  induction l as [|y l IH]; [intros []|]. simpl.
  destruct (keyIs k els y) eqn:E.
  - intros [->|H]; [auto|]. destruct (IH H). auto.
  - intros H. destruct (IH H). auto.
Qed.

Lemma without_notin x l : ~ In x l -> without x l = l.
Proof.
  induction l as [|y l IH]; intros H; [reflexivity|]. simpl.
  destruct (x =? y)%nat eqn:E.
  - apply Nat.eqb_eq in E. subst. exfalso. apply H. now left.
  - rewrite IH; [reflexivity|]. intros Hin. apply H. now right.
Qed.

Lemma without_In x y l : In y (without x l) -> In y l.
Proof.
  induction l as [|z l IH]; [intros []|]. simpl.
  destruct (x =? z)%nat; [intros H; right; auto|].
  intros [->|H]; [now left|right; auto].
Qed.

Lemma member_In x l : member x l = true <-> In x l.
Proof.
  induction l as [|y l IH]; simpl; [split; [discriminate|tauto]|].
  rewrite orb_true_iff, Nat.eqb_eq, IH. split; intros [H|H]; auto.
Qed.

(** Detaching an element of another key does not change the live elements
    of the key. *)
Lemma liveIn_without_other k els x l :
  keyIs k els x = false -> liveIn k els (without x l) = liveIn k els l.
Proof.
  intros H. rewrite liveIn_without. apply without_notin.
  intros Hin. apply liveIn_In in Hin. destruct Hin. congruence.
Qed.

Lemma schedule_extend k t els more q : forall cur,
  (forall cb, In cb q -> fc_script cb < length els) ->
  schedule k t (els ++ more) cur q = schedule k t els cur q.
Proof.
  induction q as [|cb q IH]; intros cur H; [reflexivity|].
  simpl. rewrite keyIs_app by (apply H; now left).
  assert (Hq : forall cb', In cb' q -> fc_script cb' < length els)
    by (intros cb' Hcb; apply H; now right).
  destruct (keyIs k els (fc_script cb)); [|now apply IH].
  destruct (fc_done cb); [reflexivity|].
  destruct (resolveTarget _); [|reflexivity].
  destruct (bool_decide _); [|reflexivity].
  destruct (fc_action cb), cur; try reflexivity; try now apply IH.
  destruct (_ =? _)%nat; [now apply IH|reflexivity].
Qed.

Lemma schedule_app k t els q1 q2 : forall cur,
  schedule k t els cur (q1 ++ q2) =
  schedule k t els cur q1 ≫= fun c => schedule k t els c q2.
Proof.
  induction q1 as [|cb q1 IH]; intros cur; [reflexivity|].
  simpl. destruct (keyIs k els (fc_script cb)); [|apply IH].
  destruct (fc_done cb); [reflexivity|].
  destruct (resolveTarget _); [|reflexivity].
  destruct (bool_decide _); [|reflexivity].
  destruct (fc_action cb), cur; try reflexivity; try apply IH.
  destruct (_ =? _)%nat; [apply IH|reflexivity].
Qed.

(** Callbacks on elements of other keys do not count. *)
Lemma schedule_other k t els cb cur :
  keyIs k els (fc_script cb) = false ->
  schedule k t els cur [cb] = Some cur.
Proof. intros H. simpl. now rewrite H. Qed.

Lemma invoke_frame cb st :
  elements (invoke cb st) = elements st /\
  ScriptCache (invoke cb st) = ScriptCache st /\
  animationFrames (invoke cb st) = animationFrames st.
Proof.
  destruct (invoke_same_module cb st) as (_&_&_&_& E1 & E2 & _).
  split; [exact E2|]. split; [exact E1|].
  unfold invoke. destruct (fc_done cb); [reflexivity|].
  destruct (resolveTarget _); [|reflexivity].
  destruct (fc_action cb); [reflexivity|].
  destruct (removeChild _ _ _); reflexivity.
Qed.

Lemma invoke_document cb st :
  document (invoke cb st) =
  if fc_done cb then document st
  else match resolveTarget (fc_target cb) with
       | None => document st
       | Some t =>
           match fc_action cb with
           | AppendScript => appendChild t (fc_script cb) (document st)
           | RemoveScript =>
               match removeChild t (fc_script cb) (document st) with
               | Some d => d
               | None => document st
               end
           end
       end.
Proof.
  unfold invoke. destruct (fc_done cb); [reflexivity|].
  destruct (resolveTarget _); [|reflexivity].
  destruct (fc_action cb); [reflexivity|].
  destruct (removeChild _ _ _); reflexivity.
Qed.

(** One callback moves the live elements of the key as [schedule] says. *)
Lemma invoke_live k t cb st cur next :
  liveIn k (elements st) (childrenOf t (document st)) = option_list cur ->
  liveIn k (elements st) (childrenOf (otherTarget t) (document st)) = [] ->
  schedule k t (elements st) cur [cb] = Some next ->
  liveIn k (elements st) (childrenOf t (document (invoke cb st))) = option_list next /\
  liveIn k (elements st) (childrenOf (otherTarget t) (document (invoke cb st))) = [].
Proof.
  intros Ht Ho Hs. rewrite invoke_document. simpl in Hs.
  set (els := elements st) in *. set (e := fc_script cb) in *.
  destruct (keyIs k els e) eqn:Ek.
  - destruct (fc_done cb); [discriminate|].
    destruct (resolveTarget (fc_target cb)) as [t'|]; [|discriminate].
    case_bool_decide as Heq; [subst t'|discriminate].
    destruct (fc_action cb), cur as [c|]; try discriminate.
    + injection Hs as <-. simpl in Ht.
      destruct t; simpl in *;
        rewrite ?liveIn_app, !liveIn_without, Ht, Ho; simpl; rewrite Ek; auto.
    + destruct (c =? e)%nat eqn:Ec; [|discriminate].
      apply Nat.eqb_eq in Ec. subst c. injection Hs as <-. simpl in Ht.
      assert (Hm : member e (childrenOf t (document st)) = true).
      { apply member_In.
        assert (Hin : In e (liveIn k els (childrenOf t (document st))))
          by (rewrite Ht; now left).
        now apply liveIn_In in Hin. }
      unfold removeChild. rewrite Hm.
      destruct t; simpl in *; rewrite ?liveIn_without, ?Ht, ?Ho; simpl;
        rewrite ?Nat.eqb_refl; auto.
  - injection Hs as <-.
    destruct (fc_done cb); [auto|].
    destruct (resolveTarget (fc_target cb)) as [t'|]; [|auto].
    destruct (fc_action cb).
    + destruct t, t'; simpl in *;
        rewrite ?liveIn_app, !liveIn_without_other by exact Ek;
        simpl; rewrite ?Ek, ?app_nil_r; auto.
    + unfold removeChild. destruct (member e _); [|auto].
      destruct t, t'; simpl in *;
        rewrite ?liveIn_without_other by exact Ek; auto.
Qed.

Local Ltac ids_case :=
  first [ contradiction
        | right; congruence
        | left; left; eapply without_In; eassumption
        | left; right; eapply without_In; eassumption
        | left; left; assumption
        | left; right; assumption ].

Lemma invoke_ids cb st x :
  In x (head (document (invoke cb st)) ++ body (document (invoke cb st))) ->
  In x (head (document st) ++ body (document st)) \/ x = fc_script cb.
Proof.
  rewrite invoke_document.
  destruct (fc_done cb); [auto|].
  destruct (resolveTarget (fc_target cb)) as [t|]; [|auto].
  destruct (fc_action cb).
  - destruct t; simpl; rewrite !in_app_iff; simpl;
      intros H; decompose [or] H; ids_case.
  - unfold removeChild. destruct (member _ _); [|auto].
    destruct t; simpl; rewrite !in_app_iff;
      intros H; decompose [or] H; ids_case.
Qed.

(** A whole frame moves the live elements of the key as [schedule] says. *)
Lemma invokeAll_live k t q : forall st cur fin,
  liveIn k (elements st) (childrenOf t (document st)) = option_list cur ->
  liveIn k (elements st) (childrenOf (otherTarget t) (document st)) = [] ->
  schedule k t (elements st) cur q = Some fin ->
  liveIn k (elements st) (childrenOf t (document (invokeAll q st))) = option_list fin /\
  liveIn k (elements st) (childrenOf (otherTarget t) (document (invokeAll q st))) = [].
Proof.
  induction q as [|cb q IH]; intros st cur fin Ht Ho Hs.
  - simpl in *. injection Hs as <-. auto.
  - change (cb :: q) with ([cb] ++ q) in Hs. rewrite schedule_app in Hs.
    destruct (schedule k t (elements st) cur [cb]) as [next|] eqn:E; [|discriminate].
    simpl in Hs.
    destruct (invoke_live k t cb st cur next Ht Ho E) as [Ht' Ho'].
    destruct (invoke_frame cb st) as (Ee & _).
    simpl. rewrite <- Ee in Ht', Ho', Hs |- *.
    now apply (IH (invoke cb st) next fin).
Qed.

Lemma invokeAll_frame q : forall st,
  elements (invokeAll q st) = elements st /\
  ScriptCache (invokeAll q st) = ScriptCache st /\
  animationFrames (invokeAll q st) = animationFrames st.
Proof.
  induction q as [|cb q IH]; intros st; [auto|].
  simpl. destruct (IH (invoke cb st)) as (-> & -> & ->). apply invoke_frame.
Qed.

Lemma invokeAll_ids q : forall st x,
  In x (head (document (invokeAll q st)) ++ body (document (invokeAll q st))) ->
  In x (head (document st) ++ body (document st)) \/
  exists cb, In cb q /\ x = fc_script cb.
Proof.
  induction q as [|cb q IH]; intros st x H; [auto|].
  simpl in H. apply IH in H as [H|(cb' & Hin & ->)].
  - apply invoke_ids in H as [H| ->]; [auto|]. right. exists cb. split; [now left|reflexivity].
  - right. exists cb'. split; [now right|reflexivity].
Qed.

Lemma one_live_initial k t : one_live k t initial.
Proof.
  split; [|split].
  - intros k' sc H. discriminate.
  - split; intros x [].
  - exists None. destruct t; auto.
Qed.

Lemma keyIs_lookup k els e el :
  els !! e = Some el -> keyIs k els e = bool_decide (el_key el = k).
Proof. intros H. unfold keyIs. now rewrite H. Qed.

Lemma childrenOf_In t d e :
  In e (childrenOf t d) -> In e (head d ++ body d).
Proof. destruct t; simpl; rewrite in_app_iff; auto. Qed.

(** A call keeps the invariant of the key, when it is answered at once
    or carries a [src] and names the target. *)
Lemma one_live_call k t props w st :
  (scriptKey props = k ->
   shortCircuits props w st = true \/
   (truthy (get "src" props) = true /\ resolveTarget (targetOf props) = Some t)) ->
  one_live k t st -> one_live k t (snd (loadScript props w st)).
Proof.
  intros Hsrc (Hc & [Hbq Hbd] & cur & Ht & Ho & Hs).
  destruct (loadScript_effects props w st) as [Hd [(He & Hq & Hsc)|H]].
  { split; [|split].
    - intros k' sc. rewrite Hsc, He. apply Hc.
    - split; rewrite ?Hq, ?Hd, He; assumption.
    - exists cur. unfold tracked. rewrite Hd, He, Hq, Hsc. auto. }
  destruct H as (el & removal & He & Hk & Hq & Hsc & Hrem).
  set (key := scriptKey props) in *. set (n := length (elements st)) in *.
  set (st' := snd (loadScript props w st)) in *.
  assert (Hn : elements st' !! n = Some el)
    by (rewrite He; now apply list_lookup_middle).
  assert (Hold : forall e el0, elements st !! e = Some el0 -> elements st' !! e = Some el0).
  { intros e el0 H. rewrite He, lookup_app_l; [exact H|]. eapply lookup_lt_Some; eauto. }
  assert (Hrem_lt : forall cb, In cb removal -> fc_script cb < n).
  { intros cb Hin. destruct Hrem as [[-> _]|(sc & old & -> & Hsome & Hscr)];
      [destruct Hin|].
    destruct Hin as [<-|[]]. simpl.
    destruct (Hc _ _ Hsome) as (p & e & el0 & -> & Hel0 & _).
    simpl in Hscr. injection Hscr as <-. eapply lookup_lt_Some; eauto. }
  split; [|split].
  - intros k' sc Hk'.
    assert (Hcases : (k' = key /\ exists p, sc = {| promise := Some p; script := Some n |})
                     \/ (k' <> key /\ ScriptCache st !! k' = Some sc)).
    { rewrite Hsc in Hk'. destruct (decide (k' = key)) as [->|Hne].
      - left. split; [reflexivity|].
        destruct (truthy (get "src" props)).
        + rewrite lookup_insert_eq in Hk'. injection Hk' as <-. eauto.
        + rewrite lookup_delete_eq in Hk'. discriminate.
      - right. split; [exact Hne|].
        destruct (truthy (get "src" props));
          rewrite ?lookup_insert_ne, lookup_delete_ne in Hk' by auto; exact Hk'. }
    destruct Hcases as [[-> [p ->]]|[Hne Hk0]].
    + exists p, n, el. auto.
    + destruct (Hc _ _ Hk0) as (p & e & el0 & -> & Hel0 & Hkey).
      exists p, e, el0. auto.
  - split.
    + intros cb. rewrite Hq, He, length_app, !in_app_iff. simpl. fold n.
      intros [H|[H|[<-|[]]]].
      * apply Hbq in H. fold n in H. lia.
      * apply Hrem_lt in H. lia.
      * simpl. lia.
    + intros e. rewrite Hd, He, length_app. intros H. apply Hbd in H. lia.
  - exists cur. rewrite Hd, He.
    rewrite !liveIn_extend by (intros e H; apply Hbd; eapply childrenOf_In; eauto).
    split; [exact Ht|]. split; [exact Ho|].
    rewrite Hq, schedule_app, schedule_extend by exact Hbq.
    rewrite Hs. cbn [mbind option_bind]. rewrite <- He.
    destruct (decide (key = k)) as [Heq|Hne].
    + destruct (Hsrc Heq) as [Hshort|[Htruthy Htarget]].
      { exfalso.
        destruct (loadScript_routes props w st)
          as [[_ Hr]|[(Hns & _)|(Hns & _)]]; try congruence.
        unfold st' in He. rewrite Hr in He. simpl in He.
        now apply app_one_neq in He. }
      clear Hsrc. subst k.
      assert (Htr' : tracked key st' = Some n).
      { unfold tracked. rewrite Hsc, Htruthy, lookup_insert_eq. reflexivity. }
      assert (Hkn : keyIs key (elements st') n = true).
      { rewrite (keyIs_lookup _ _ _ _ Hn). apply bool_decide_eq_true. congruence. }
      rewrite Htr'.
      destruct Hrem as [[-> Hnone]|(sc & old & -> & Hsome & Hscr)].
      * unfold tracked. rewrite Hnone. cbn.
        rewrite Hkn, Htarget, bool_decide_eq_true_2 by reflexivity. reflexivity.
      * destruct (Hc _ _ Hsome) as (p & e & el0 & -> & Hel0 & Hkey).
        simpl in Hscr. injection Hscr as <-.
        unfold tracked. rewrite Hsome. cbn.
        rewrite (keyIs_lookup _ _ _ _ (Hold _ _ Hel0)).
        rewrite bool_decide_eq_true_2 by congruence.
        rewrite Htarget, bool_decide_eq_true_2 by reflexivity.
        rewrite Nat.eqb_refl, Hkn. reflexivity.
    + assert (Htr' : tracked k st' = tracked k st).
      { unfold tracked. rewrite Hsc.
        destruct (truthy (get "src" props));
          rewrite ?lookup_insert_ne, lookup_delete_ne by auto; reflexivity. }
      assert (Hkn : keyIs k (elements st') n = false).
      { rewrite (keyIs_lookup _ _ _ _ Hn). apply bool_decide_eq_false. congruence. }
      rewrite Htr', schedule_app.
      destruct Hrem as [[-> Hnone]|(sc & old & -> & Hsome & Hscr)].
      * cbn. now rewrite Hkn.
      * destruct (Hc _ _ Hsome) as (p & e & el0 & -> & Hel0 & Hkey).
        simpl in Hscr. injection Hscr as <-.
        rewrite schedule_other.
        -- cbn. now rewrite Hkn.
        -- simpl. rewrite (keyIs_lookup _ _ _ _ (Hold _ _ Hel0)).
           apply bool_decide_eq_false. congruence.
Qed.

(** A rendering frame keeps the invariant of the key. *)
Lemma one_live_frame k t st : one_live k t st -> one_live k t (animationFrame st).
Proof.
  intros (Hc & [Hbq Hbd] & cur & Ht & Ho & Hs). unfold animationFrame.
  set (s0 := set_animationFrames (fun _ => []) st).
  destruct (invokeAll_frame (animationFrames st) s0) as (He & Hsc & Hq).
  change (elements s0) with (elements st) in He.
  change (ScriptCache s0) with (ScriptCache st) in Hsc.
  change (animationFrames s0) with (@nil FrameCallback) in Hq.
  destruct (invokeAll_live k t (animationFrames st) s0 cur (tracked k st) Ht Ho Hs)
    as [Ht' Ho'].
  change (elements s0) with (elements st) in Ht', Ho'.
  split; [|split].
  - intros k' sc. rewrite Hsc, He. apply Hc.
  - split.
    + rewrite Hq. intros cb [].
    + intros e H. rewrite He. apply invokeAll_ids in H as [H|(cb & Hin & ->)].
      * now apply Hbd.
      * now apply Hbq.
  - exists (tracked k st). rewrite He, Hq. unfold tracked at 3. rewrite Hsc. auto.
Qed.

Lemma one_live_same_page k t st st' :
  same_page st st' -> one_live k t st -> one_live k t st'.
Proof.
  intros (_&_&_&_& Hsc & He & Hq & Hd) (Hc & [Hbq Hbd] & cur & Ht & Ho & Hs).
  split; [|split].
  - intros k' sc. rewrite Hsc, He. apply Hc.
  - split; rewrite ?Hq, ?Hd, He; assumption.
  - exists cur. unfold tracked. rewrite Hd, He, Hq, Hsc. auto.
Qed.

Lemma one_live_step DEV k t a st :
  loads_from_source k t a -> one_live k t st -> one_live k t (step DEV a st).
Proof.
  intros Ha H. destruct a as [props w| |j ev|j ev]; simpl.
  - apply one_live_call; [|exact H]. intros Hk. right. now apply Ha.
  - now apply one_live_frame.
  - eapply one_live_same_page; [apply onload_same_page|exact H].
  - eapply one_live_same_page; [apply onerror_same_page|exact H].
Qed.

Lemma one_live_run DEV k t actions : forall st,
  Forall (loads_from_source k t) actions ->
  one_live k t st -> one_live k t (run DEV actions st).
Proof.
  induction actions as [|a rest IH]; intros st Hall H; [exact H|].
  inversion Hall as [|? ? Ha Hrest]; subst. simpl.
  apply IH; [exact Hrest|]. now apply one_live_step.
Qed.

Lemma one_live_mounts DEV k t actions : forall st,
  mounts_on DEV k t actions st ->
  one_live k t st -> one_live k t (run DEV actions st).
Proof.
  induction actions as [|a rest IH]; intros st Hall H; [exact H|].
  destruct Hall as [Ha Hrest]. cbn [run]. apply IH; [exact Hrest|].
  destruct a as [props w| |j ev|j ev]; cbn [step].
  - now apply one_live_call.
  - now apply one_live_frame.
  - eapply one_live_same_page; [apply onload_same_page|exact H].
  - eapply one_live_same_page; [apply onerror_same_page|exact H].
Qed.

Lemma one_live_attached k t st : one_live k t st -> length (attached k st) <= 1.
Proof.
  intros (_ & _ & cur & Ht & Ho & _). unfold attached.
  assert (E : length (liveIn k (elements st) (head (document st))) +
              length (liveIn k (elements st) (body (document st))) <= 1).
  { destruct t; simpl in Ht, Ho; rewrite Ht, Ho; destruct cur; simpl; lia. }
  rewrite liveIn_app, length_app. exact E.
Qed.

(** *** A key that is never reloaded *)

Lemma In_without x y l : In y (without x l) <-> In y l /\ y <> x.
Proof.
  induction l as [|z l IH]; simpl; [tauto|].
  destruct (x =? z)%nat eqn:E.
  - apply Nat.eqb_eq in E. subst z. rewrite IH. intuition congruence.
  - apply Nat.eqb_neq in E. simpl. rewrite IH. intuition congruence.
Qed.

Lemma NoDup_without x l : NoDup l -> NoDup (without x l).
Proof.
  induction l as [|z l IH]; intros H; [exact H|].
  inversion H as [|? ? Hz Hl]; subst. simpl.
  destruct (x =? z)%nat; [now apply IH|].
  constructor; [|now apply IH].
  rewrite list_elem_of_In in *. intros Hin. apply In_without in Hin. tauto.
Qed.

Lemma appendChild_wf t x d : document_wf d -> document_wf (appendChild t x d).
Proof.
  unfold document_wf. intros H.
  apply NoDup_app in H as (Hh & Hhb & Hb).
  assert (Hx : forall l, x ∉ without x l).
  { intros l Hin. apply list_elem_of_In, In_without in Hin. tauto. }
  assert (Hsub : forall l y, y ∈ without x l -> y ∈ l).
  { intros l y Hin. apply list_elem_of_In, In_without in Hin.
    apply list_elem_of_In. tauto. }
  destruct t; simpl.
  - rewrite <- app_assoc. apply NoDup_app. split; [now apply NoDup_without|]. split.
    + intros y Hy [Hin|Hin]%elem_of_app.
      * apply list_elem_of_In in Hin as [<-|[]]. now apply (Hx (head d)).
      * eapply Hhb; eauto.
    + apply NoDup_app. split; [repeat constructor; intros Hin; inversion Hin|].
      split; [|now apply NoDup_without].
      intros y Hy. apply list_elem_of_In in Hy as [<-|[]]. apply Hx.
  - apply NoDup_app. split; [now apply NoDup_without|]. split.
    + intros y Hy [Hin|Hin]%elem_of_app.
      * eapply Hhb; eauto.
      * apply list_elem_of_In in Hin as [<-|[]]. now apply (Hx (head d)).
    + apply NoDup_app. split; [now apply NoDup_without|].
      split; [|repeat constructor; intros Hin; inversion Hin].
      intros y Hy Hin. apply list_elem_of_In in Hin as [<-|[]]. now apply (Hx (body d)).
Qed.

Lemma removeChild_wf t x d d' :
  document_wf d -> removeChild t x d = Some d' -> document_wf d'.
Proof.
  unfold document_wf, removeChild. intros H.
  destruct (member x (childrenOf t d)); [|discriminate]. intros [= <-].
  apply NoDup_app in H as (Hh & Hhb & Hb).
  assert (Hsub : forall l y, y ∈ without x l -> y ∈ l).
  { intros l y Hin. apply list_elem_of_In, In_without in Hin.
    apply list_elem_of_In. tauto. }
  destruct t; simpl; apply NoDup_app.
  - split; [now apply NoDup_without|]. split; [|exact Hb].
    intros y Hy. apply Hhb. now apply Hsub.
  - split; [exact Hh|]. split; [|now apply NoDup_without].
    intros y Hy Hin. apply (Hhb y Hy). now apply Hsub.
Qed.

Lemma invoke_wf cb st :
  document_wf (document st) -> document_wf (document (invoke cb st)).
Proof.
  intros H. rewrite invoke_document.
  destruct (fc_done cb); [exact H|].
  destruct (resolveTarget _); [|exact H].
  destruct (fc_action cb); [now apply appendChild_wf|].
  destruct (removeChild _ _ _) eqn:E; [|exact H].
  eapply removeChild_wf; eauto.
Qed.

Lemma invokeAll_wf q : forall st,
  document_wf (document st) -> document_wf (document (invokeAll q st)).
Proof.
  induction q as [|cb q IH]; intros st H; [exact H|].
  simpl. apply IH. now apply invoke_wf.
Qed.

Lemma made_once_initial k : made_once k initial.
Proof.
  split; [|split].
  - intros e1 e2 H. discriminate.
  - intros e H. discriminate.
  - constructor.
Qed.

Lemma keyIs_snoc k els el e :
  keyIs k (els ++ [el]) e =
  if (e =? length els)%nat then bool_decide (el_key el = k) else keyIs k els e.
Proof.
  unfold keyIs. destruct (e =? length els)%nat eqn:E.
  - apply Nat.eqb_eq in E. subst e. now rewrite list_lookup_middle.
  - apply Nat.eqb_neq in E. destruct (decide (e < length els)) as [Hlt|Hge].
    + now rewrite lookup_app_l.
    + rewrite !(proj2 (lookup_ge_None _ _)); [reflexivity|lia|].
      rewrite length_app. simpl. lia.
Qed.

(** A call keeps the invariant, when it finds no reload of the key due. *)
Lemma made_once_call k props w st :
  k <> "" ->
  (scriptKey props = k ->
   pathChanged (location_pathname w) (PrevPathCache st !! k)
     && truthy (reloadOf props) = false) ->
  made_once k st -> made_once k (snd (loadScript props w st)).
Proof.
  intros Hk Hdue (Hone & Hloaded & Hdoc).
  pose proof (loadScript_LoadCache_mono props w st) as Hmono.
  destruct (loadScript_effects props w st) as [Hd _].
  split; [|split]; [| |rewrite Hd; exact Hdoc];
    destruct (loadScript_heap props w st) as [(He & _)|(He & _)];
    rewrite He.
  - exact Hone.
  - intros e1 e2. rewrite !keyIs_snoc, buildScript_key.
    destruct (decide (scriptKey props = k)) as [Heq|Hne].
    + assert (Hnone : forall e, keyIs k (elements st) e = false).
      { intros e. destruct (keyIs k (elements st) e) eqn:E; [|reflexivity].
        exfalso. apply Hloaded in E.
        assert (Hl : hasLoaded (scriptKey props) st = true)
          by (apply hasLoaded_true; rewrite Heq; auto).
        specialize (Hdue Heq). rewrite <- Heq in Hdue.
        rewrite (loadScript_short_circuit props w st Hl Hdue) in He.
        simpl in He. now apply app_one_neq in He. }
      rewrite !Hnone.
      destruct (e1 =? _)%nat eqn:E1, (e2 =? _)%nat eqn:E2; try discriminate.
      apply Nat.eqb_eq in E1, E2. congruence.
    + rewrite bool_decide_eq_false_2 by exact Hne.
      destruct (e1 =? _)%nat, (e2 =? _)%nat; try discriminate. apply Hone.
  - intros e He'. apply Hmono. eauto.
  - intros e. rewrite keyIs_snoc, buildScript_key.
    destruct (e =? _)%nat.
    + intros Heq%bool_decide_eq_true. rewrite <- Heq.
      apply loadScript_LoadCache. now rewrite Heq.
    + intros He'. apply Hmono. eauto.
Qed.

Lemma made_once_step DEV k a st :
  k <> "" ->
  match a with
  | CallLoadScript props w =>
      scriptKey props = k ->
      pathChanged (location_pathname w) (PrevPathCache st !! k)
        && truthy (reloadOf props) = false
  | _ => True
  end ->
  made_once k st -> made_once k (step DEV a st).
Proof.
  intros Hk Ha H. destruct a as [props w| |j ev|j ev]; cbn [step].
  - now apply made_once_call.
  - destruct H as (H1 & H2 & H3).
    destruct (animationFrame_same_module st) as (_&_&_& Hl &_& He &_).
    split; [|split]; rewrite ?He, ?Hl; try assumption.
    unfold animationFrame. now apply invokeAll_wf.
  - destruct H as (H1 & H2 & H3).
    destruct (onload_same_page DEV j ev st) as (_&_&_& Hl &_& He &_& Hd).
    split; [|split]; rewrite ?He, ?Hl, ?Hd; assumption.
  - destruct H as (H1 & H2 & H3).
    destruct (onerror_same_page DEV j ev st) as (_&_&_& Hl &_& He &_& Hd).
    split; [|split]; rewrite ?He, ?Hl, ?Hd; assumption.
Qed.

Lemma made_once_run DEV k actions : forall st,
  k <> "" -> reload_never_due DEV k actions st ->
  made_once k st -> made_once k (run DEV actions st).
Proof.
  induction actions as [|a rest IH]; intros st Hk Hdue H; [exact H|].
  destruct Hdue as [Ha Hrest]. cbn [run].
  apply IH; [exact Hk|exact Hrest|]. now apply made_once_step.
Qed.

Lemma NoDup_liveIn k els ids : NoDup ids -> NoDup (liveIn k els ids).
Proof.
  induction ids as [|e ids IH]; intros H; [constructor|].
  inversion H as [|? ? He Hids]; subst. simpl.
  destruct (keyIs k els e); [|now apply IH].
  constructor; [|now apply IH].
  rewrite list_elem_of_In in *. intros Hin. apply liveIn_In in Hin. tauto.
Qed.

Lemma made_once_attached k st : made_once k st -> length (attached k st) <= 1.
Proof.
  intros (Hone & _ & Hdoc). unfold attached.
  pose proof (NoDup_liveIn k (elements st) _ Hdoc) as Hnd.
  set (l := liveIn k (elements st) _) in *.
  assert (Hall : forall x y, In x l -> In y l -> x = y).
  { intros x y Hx Hy. apply liveIn_In in Hx as [_ Hx]. apply liveIn_In in Hy as [_ Hy].
    now apply Hone. }
  destruct l as [|a [|b l']]; simpl; try lia.
  exfalso. inversion Hnd as [|? ? Ha _]; subst. apply Ha.
  rewrite (Hall a b); [left| |]; simpl; auto.
Qed.

Lemma reload_never_due_firstn DEV k n : forall actions st,
  reload_never_due DEV k actions st -> reload_never_due DEV k (firstn n actions) st.
Proof.
  induction n as [|n IH]; intros [|a rest] st H; try exact I.
  destruct H as [Ha Hrest]. cbn [firstn reload_never_due]. split; [exact Ha|].
  now apply IH.
Qed.

Lemma mounts_on_firstn DEV k t n : forall actions st,
  mounts_on DEV k t actions st -> mounts_on DEV k t (firstn n actions) st.
Proof.
  induction n as [|n IH]; intros [|a rest] st H; try exact I.
  destruct H as [Ha Hrest]. cbn [firstn mounts_on]. split; [exact Ha|].
  now apply IH.
Qed.

(** C1, as amended: at every moment of every run of the page from its
    initial state (calls of [loadScript], rendering frames, load and error
    events, in any order; a moment is the state after the first [n]
    actions) at most one element created for the key is in the document,
    for a key that is not empty and for which no call finds a reload due
    (each call with the key comes without [reload] or on the path of the
    call with that key before it), and for a key whose calls, as far as
    they are not answered "already loaded", all carry a [src] and name one
    and the same target ([head] or [body]). For a key of the second kind
    the callbacks queued for the key append and remove alternately, each
    append after the removal of the element appended before, so that the
    element the queue leaves in the document is the one [ScriptCache]
    tracks. *)
Theorem one_live_element_per_key DEV k actions :
  (k <> "" /\ reload_never_due DEV k actions initial) \/
  (exists t, mounts_on DEV k t actions initial) ->
  forall n,
  let st := run DEV (firstn n actions) initial in
  length (attached k st) <= 1 /\
  (forall t, mounts_on DEV k t actions initial ->
     exists cur,
       attached k st = option_list cur /\
       schedule k t (elements st) cur (animationFrames st) = Some (tracked k st)).
Proof.
  intros Hcase n st. split.
  - destruct Hcase as [[Hk Hdue]|[t Hall]].
    + apply made_once_attached, made_once_run;
        [exact Hk|now apply reload_never_due_firstn|apply made_once_initial].
    + apply one_live_attached with (t := t).
      apply one_live_mounts; [now apply mounts_on_firstn|apply one_live_initial].
  - intros t Hall.
    assert (H : one_live k t st)
      by (apply one_live_mounts; [now apply mounts_on_firstn|apply one_live_initial]).
    destruct H as (_ & _ & cur & Ht & Ho & Hs).
    exists cur. split; [|exact Hs].
    unfold attached. rewrite liveIn_app.
    destruct t; simpl in Ht, Ho; rewrite Ht, Ho; [now rewrite app_nil_r|reflexivity].
Qed.

Lemma one_live_element_per_key_witness :
  let reloaded := run false [CallLoadScript reloading_descriptor home; Frame;
                             CallLoadScript reloading_descriptor about; Frame;
                             CallLoadScript chat_body about] initial in
  let inline := run false [CallLoadScript inline_descriptor home; Frame;
                           CallLoadScript inline_descriptor about; Frame;
                           CallLoadScript inline_descriptor home; Frame] initial in
  length (attached "chat/chat.js" reloaded) <= 1 /\ attached "chat/chat.js" reloaded = [1%nat] /\
  length (attached "gtm" inline) <= 1 /\ attached "gtm" inline = [0%nat].
Proof.
  intros reloaded inline.
  destruct (one_live_element_per_key false "chat/chat.js"
              [CallLoadScript reloading_descriptor home; Frame;
               CallLoadScript reloading_descriptor about; Frame;
               CallLoadScript chat_body about]) with (n := 5) as [H1 _].
  - right. exists Head. cbn [mounts_on].
    repeat match goal with |- _ /\ _ => split end; try exact I; intros _.
    + right. split; reflexivity.
    + right. split; reflexivity.
    + left. vm_compute. reflexivity.
  - destruct (one_live_element_per_key false "gtm"
                [CallLoadScript inline_descriptor home; Frame;
                 CallLoadScript inline_descriptor about; Frame;
                 CallLoadScript inline_descriptor home; Frame]) with (n := 6) as [H2 _].
    + left. split; [discriminate|].
      cbn [reload_never_due].
      repeat match goal with |- _ /\ _ => split end; try exact I;
        intros _; vm_compute; reflexivity.
    + split; [exact H1|]. split; [vm_compute; reflexivity|].
      split; [exact H2|]. vm_compute. reflexivity.
Defined.

(** C1, as stated for every key, fails on the empty key: two calls with
    an empty [id] and no [src] create two elements, queue two appends and
    no removal, and after the next frame both elements of the key are in
    the document. *)
Lemma one_live_element_counterexample :
  let st := run false [CallLoadScript keyless_descriptor home;
                       CallLoadScript keyless_descriptor home] initial in
  animationFrames st = [appendScript (VString "body") 0; appendScript (VString "body") 1] /\
  attached "" (animationFrame st) = [0%nat; 1%nat] /\
  ~ length (attached "" (animationFrame st)) <= 1.
Proof.
  intros. repeat match goal with |- _ /\ _ => split end; try (vm_compute; reflexivity).
  vm_compute. lia.
Qed.

(** The two other ways in which a key gets a second live element, both
    outside the amended statement: a descriptor without source URL for
    which a reload falls due (nothing is tracked, so nothing is removed),
    and a reload that names another target than the one the old element
    was appended to (the queued [removeChild] throws and the old element
    stays). *)
Example inline_reload_leaves_two :
  attached "pixel"
    (run false [CallLoadScript inline_reloading home; Frame;
                CallLoadScript inline_reloading about; Frame] initial)
  = [0%nat; 1%nat].
Proof. vm_compute. reflexivity. Qed.

Example target_change_leaves_two :
  let st := run false [CallLoadScript reloading_descriptor home; Frame;
                       CallLoadScript chat_body about; Frame] initial in
  attached "chat/chat.js" st = [0%nat; 1%nat] /\
  trace st = [Uncaught "NotFoundError"].
Proof. split; vm_compute; reflexivity. Qed.


(** * Further properties of the loader *)

Lemma loadScript_trace props w st :
  trace (snd (loadScript props w st)) = trace st.
Proof.
  assert (Hm : forall s, trace (snd (mountScript props (scriptKey props) w s)) = trace s).
  { intros s. unfold mountScript.
    destruct (stampStart_frame (scriptKey props) w s) as (_&_&_&_& Ht &_).
    destruct (ScriptCache _ !! _) as [[[p|] e]|]; simpl; try exact Ht.
    destruct (createScript_fields props (scriptKey props)
                (stampStart (scriptKey props) w s)) as (_&_&_&_&_& -> &_).
    exact Ht. }
  unfold loadScript. destruct (hasLoaded _ _).
  - destruct (negb _); [reflexivity|]. rewrite Hm.
    now destruct (remount_frame (scriptKey props)
      (default_to (VString "body") (get "target" props))
      (set_PrevPathCache <[scriptKey props:=location_pathname w]> st))
      as (_&_&_&_& -> &_).
  - now rewrite Hm.
Qed.

(** X1: a call changes nothing that can be seen at once. It leaves the
    document and the trace (no callback is called, no promise settled) as
    they are, keeps every element and every promise there is, adds at most
    one element together with two pending promises, and adds at most two
    callbacks, not yet run, at the end of the frame queue. *)
Theorem call_defers_its_effects props w st :
  let st' := snd (loadScript props w st) in
  document st' = document st /\
  trace st' = trace st /\
  (exists new, elements st' = elements st ++ new /\ length new <= 1 /\
     exists pending, promises st' = promises st ++ pending /\
       length pending = 2 * length new /\
       Forall (fun pr => settlement pr = Pending) pending) /\
  (exists queued, animationFrames st' = animationFrames st ++ queued /\
     length queued <= 2 /\ Forall (fun cb => fc_done cb = false) queued).
Proof.
  intros st'. subst st'. split; [apply loadScript_effects|]. split; [apply loadScript_trace|].
  split.
  - destruct (loadScript_heap props w st) as [(He & Hp & _)|(He & Hp & _)].
    + exists []. rewrite He, app_nil_r. split; [reflexivity|]. split; [simpl; lia|].
      exists []. rewrite Hp, app_nil_r. auto.
    + eexists. split; [exact He|]. split; [simpl; lia|].
      eexists. split; [exact Hp|]. split; [reflexivity|].
      unfold newLoadPromise. repeat constructor.
  - destruct (loadScript_effects props w st) as [_ [(_ & Hq & _)|H]].
    + exists []. rewrite Hq, app_nil_r. split; [reflexivity|]. split; [simpl; lia|constructor].
    + destruct H as (el & removal & _ & _ & Hq & _ & Hrem).
      eexists. split; [exact Hq|].
      destruct Hrem as [[-> _]|(sc & old & -> & _)]; simpl;
        (split; [lia|repeat constructor]).
Qed.

(** ** The caches across calls *)


Lemma mountScript_StartTimeCache props key w st :
  StartTimeCache (snd (mountScript props key w st)) = StartTimeCache (stampStart key w st).
Proof.
  unfold mountScript.
  destruct (ScriptCache _ !! _) as [[[p|] e]|]; simpl; try reflexivity.
  now destruct (createScript_fields props key (stampStart key w st)) as (_&_& -> &_).
Qed.

Lemma stampStart_StartTimeCache key w st :
  StartTimeCache (stampStart key w st) =
  match StartTimeCache st !! key with
  | Some _ => StartTimeCache st
  | None => <[key := performance_now w]> (StartTimeCache st)
  end.
Proof. unfold stampStart. now destruct (StartTimeCache st !! key). Qed.


(** The start times after a call. *)
Lemma loadScript_StartTimeCache props w st :
  let key := scriptKey props in
  StartTimeCache (snd (loadScript props w st)) =
  if shortCircuits props w st then StartTimeCache st
  else
    let base := if remountDue props w st then delete key (StartTimeCache st)
                else StartTimeCache st in
    match base !! key with
    | Some _ => base
    | None => <[key := performance_now w]> base
    end.
Proof.
  intros key.
  destruct (loadScript_routes props w st) as [[-> ->]|[(-> & -> & ->)|(-> & -> & old & _ & ->)]];
    fold key; cbv zeta; rewrite ?mountScript_StartTimeCache, ?stampStart_StartTimeCache;
    reflexivity.
Qed.

(** After a call its key is in [LoadCache], and whatever was there stays. *)
Lemma loadScript_LoadCache_eq props w st :
  LoadCache (snd (loadScript props w st)) = LoadCache st ∪ {[scriptKey props]}.
Proof.
  destruct (loadScript_routes props w st) as [[Hs ->]|[(_ & _ & ->)|(_ & _ & old & _ & ->)]];
    rewrite ?mountScript_LoadCache_eq; simpl.
  - unfold shortCircuits in Hs. apply andb_true_iff in Hs as [Hl _].
    apply hasLoaded_true in Hl as [_ Hin].
    apply set_eq. intros x. rewrite elem_of_union, elem_of_singleton.
    split; [auto|]. intros [H| ->]; assumption.
  - reflexivity.
  - apply set_eq. intros x.
    rewrite !elem_of_union, elem_of_difference, elem_of_singleton.
    destruct (decide (x = scriptKey props)); tauto.
Qed.

Lemma loadScript_other_key props w st k :
  scriptKey props <> k ->
  let st' := snd (loadScript props w st) in
  (k ∈ LoadCache st' <-> k ∈ LoadCache st) /\
  StartTimeCache st' !! k = StartTimeCache st !! k /\
  PrevPathCache st' !! k = PrevPathCache st !! k /\
  ScriptCache st' !! k = ScriptCache st !! k.
Proof.
  intros Hne st'. subst st'. split; [|split; [|split]].
  - rewrite loadScript_LoadCache_eq, elem_of_union, elem_of_singleton.
    split; [intros [H|H]; [exact H|congruence]|auto].
  - rewrite loadScript_StartTimeCache. cbv zeta.
    destruct (shortCircuits props w st); [reflexivity|].
    destruct (remountDue props w st);
      match goal with |- context [match ?b !! ?key with _ => _ end] =>
        destruct (b !! key) end;
      rewrite ?lookup_insert_ne, ?lookup_delete_ne by exact Hne; reflexivity.
  - rewrite loadScript_PrevPathCache. now rewrite lookup_insert_ne.
  - destruct (loadScript_effects props w st) as [_ [(_ & _ & ->)|H]]; [reflexivity|].
    destruct H as (el & removal & _ & _ & _ & -> & _).
    destruct (truthy (get "src" props));
      rewrite ?lookup_insert_ne, lookup_delete_ne by exact Hne; reflexivity.
Qed.

Lemma step_other_key DEV a st k :
  other_key k a ->
  (k ∈ LoadCache (step DEV a st) <-> k ∈ LoadCache st) /\
  StartTimeCache (step DEV a st) !! k = StartTimeCache st !! k /\
  PrevPathCache (step DEV a st) !! k = PrevPathCache st !! k /\
  ScriptCache (step DEV a st) !! k = ScriptCache st !! k.
Proof.
  intros Ha. destruct a as [props w| |j ev|j ev]; simpl.
  - now apply loadScript_other_key.
  - destruct (animationFrame_same_module st) as (_ & -> & -> & -> & -> & _). tauto.
  - destruct (onload_same_page DEV j ev st) as (_ & -> & -> & -> & -> & _). tauto.
  - destruct (onerror_same_page DEV j ev st) as (_ & -> & -> & -> & -> & _). tauto.
Qed.

(** X2: the entries of a key in the four caches are written by the calls
    with that key only: a run without such a call (other calls, frames,
    load and error events) leaves the key's membership in [LoadCache] and
    its entries in [StartTimeCache], [PrevPathCache] and [ScriptCache] as
    they were. *)
Theorem other_keys_untouched DEV k actions : forall st,
  Forall (other_key k) actions ->
  (k ∈ LoadCache (run DEV actions st) <-> k ∈ LoadCache st) /\
  StartTimeCache (run DEV actions st) !! k = StartTimeCache st !! k /\
  PrevPathCache (run DEV actions st) !! k = PrevPathCache st !! k /\
  ScriptCache (run DEV actions st) !! k = ScriptCache st !! k.
Proof.
  induction actions as [|a rest IH]; intros st Hall; [simpl; tauto|].
  inversion Hall as [|? ? Ha Hrest]; subst. simpl.
  destruct (IH (step DEV a st) Hrest) as (I1 & I2 & I3 & I4).
  destruct (step_other_key DEV a st k Ha) as (S1 & S2 & S3 & S4).
  rewrite I1, I2, I3, I4. auto.
Qed.

Lemma other_keys_untouched_witness :
  let st := snd (loadScript worker_descriptor home initial) in
  let st' := run true [CallLoadScript reloading_descriptor about; Frame; LoadEvent 1 3] st in
  ScriptCache st' !! "analytics/ga.js" = ScriptCache st !! "analytics/ga.js" /\
  StartTimeCache st' !! "analytics/ga.js" = Some 5%Z.
Proof.
  intros st st'.
  destruct (other_keys_untouched true "analytics/ga.js"
              [CallLoadScript reloading_descriptor about; Frame; LoadEvent 1 3] st)
    as (_ & H2 & _ & H4).
  - repeat constructor. vm_compute. discriminate.
  - split; [exact H4|]. etransitivity; [exact H2|]. vm_compute. reflexivity.
Defined.

Lemma step_LoadCache_mono DEV a st : LoadCache st ⊆ LoadCache (step DEV a st).
Proof.
  destruct a as [props w| |j ev|j ev]; simpl.
  - apply loadScript_LoadCache_mono.
  - now destruct (animationFrame_same_module st) as (_&_&_& -> &_).
  - now destruct (onload_same_page DEV j ev st) as (_&_&_& -> &_).
  - now destruct (onerror_same_page DEV j ev st) as (_&_&_& -> &_).
Qed.

Lemma run_LoadCache_mono DEV actions : forall st,
  LoadCache st ⊆ LoadCache (run DEV actions st).
Proof.
  induction actions as [|a rest IH]; intros st; [reflexivity|].
  simpl. etransitivity; [apply step_LoadCache_mono|apply IH].
Qed.

(** X3: a key is loaded for good. A key that is in [LoadCache], or that
    any call of the run bears, is in [LoadCache] at the end of the run:
    the reload takes the key out and the same call puts it back, and
    nothing else removes it. *)
Theorem loaded_for_good DEV k actions : forall st,
  k ∈ LoadCache st \/
  (exists props w, In (CallLoadScript props w) actions /\ scriptKey props = k) ->
  k ∈ LoadCache (run DEV actions st).
Proof.
  induction actions as [|a rest IH]; intros st H.
  - destruct H as [H|(props & w & [] & _)]. exact H.
  - simpl. destruct H as [H|(props & w & [->|Hin] & Hk)].
    + apply IH. left. now apply step_LoadCache_mono.
    + apply IH. left. simpl. rewrite loadScript_LoadCache_eq, Hk.
      apply elem_of_union. right. now apply elem_of_singleton.
    + apply IH. right. eauto.
Qed.

Lemma loaded_for_good_witness :
  "chat/chat.js" ∈ LoadCache
    (run false [CallLoadScript reloading_descriptor home; Frame;
                CallLoadScript reloading_descriptor about; Frame] initial).
Proof.
  apply loaded_for_good. right.
  exists reloading_descriptor, home. split; [now left|reflexivity].
Defined.

Lemma loadScript_key_stamped props w st :
  (scriptKey props ∈ LoadCache st -> is_Some (StartTimeCache st !! scriptKey props)) ->
  is_Some (StartTimeCache (snd (loadScript props w st)) !! scriptKey props).
Proof.
  intros Hold. rewrite loadScript_StartTimeCache. cbv zeta.
  destruct (shortCircuits props w st) eqn:Hs.
  - apply Hold. unfold shortCircuits in Hs. apply andb_true_iff in Hs as [Hl _].
    now apply hasLoaded_true in Hl.
  - match goal with |- context [match ?b !! ?key with _ => _ end] =>
      destruct (b !! key) eqn:E end; [rewrite E; eauto|].
    rewrite lookup_insert_eq. eauto.
Qed.

(** X4: in every state the page reaches, each key in [LoadCache] has a
    start time in [StartTimeCache] and a path in [PrevPathCache]. *)
Theorem loaded_keys_are_stamped DEV actions k :
  k ∈ LoadCache (run DEV actions initial) ->
  is_Some (StartTimeCache (run DEV actions initial) !! k) /\
  is_Some (PrevPathCache (run DEV actions initial) !! k).
Proof.
  assert (Hinv : forall acts st,
    (forall k, k ∈ LoadCache st ->
       is_Some (StartTimeCache st !! k) /\ is_Some (PrevPathCache st !! k)) ->
    forall k, k ∈ LoadCache (run DEV acts st) ->
      is_Some (StartTimeCache (run DEV acts st) !! k) /\
      is_Some (PrevPathCache (run DEV acts st) !! k)).
  { induction acts as [|a rest IH]; intros st H; [exact H|].
    simpl. apply IH. clear IH. intros k'.
    destruct a as [props w| |j ev|j ev]; simpl.
    - destruct (decide (scriptKey props = k')) as [<-|Hne].
      + intros _. split.
        * apply loadScript_key_stamped. intros Hin. now apply H.
        * rewrite loadScript_PrevPathCache, lookup_insert_eq. eauto.
      + destruct (loadScript_other_key props w st k' Hne) as (-> & -> & -> & _).
        apply H.
    - destruct (animationFrame_same_module st) as (_ & -> & -> & -> & _). apply H.
    - destruct (onload_same_page DEV j ev st) as (_ & -> & -> & -> & _). apply H.
    - destruct (onerror_same_page DEV j ev st) as (_ & -> & -> & -> & _). apply H. }
  apply Hinv. intros k' Hk'. exfalso. revert Hk'. apply not_elem_of_empty.
Qed.

Lemma loaded_keys_are_stamped_witness :
  let st := run false [CallLoadScript keyless_descriptor home;
                       CallLoadScript reloading_descriptor about] initial in
  is_Some (StartTimeCache st !! "") /\ is_Some (PrevPathCache st !! "").
Proof.
  intros st. apply (loaded_keys_are_stamped false
    [CallLoadScript keyless_descriptor home; CallLoadScript reloading_descriptor about] "").
  vm_compute. reflexivity.
Defined.

(** X5: the start time of a key is the time of its first attempt and is
    taken anew only by a reload: a call that runs the block of the reload
    leaves the current time under the key, any other call keeps the time
    that is there, and a call that is not answered "already loaded" gives
    the current time to a key that has none. *)
Theorem start_time_restarts_on_reload_only props w st :
  let key := scriptKey props in
  let st' := snd (loadScript props w st) in
  (remountDue props w st = true ->
   StartTimeCache st' !! key = Some (performance_now w)) /\
  (remountDue props w st = false ->
   forall t0, StartTimeCache st !! key = Some t0 -> StartTimeCache st' !! key = Some t0) /\
  (shortCircuits props w st = false ->
   StartTimeCache st !! key = None ->
   StartTimeCache st' !! key = Some (performance_now w)).
Proof.
  intros key st'. subst st'. rewrite loadScript_StartTimeCache. fold key. cbv zeta.
  split; [|split].
  - intros Hr. rewrite Hr.
    assert (Hs : shortCircuits props w st = false).
    { unfold remountDue, shortCircuits in *.
      destruct (hasLoaded _ _); [|discriminate].
      destruct (pathChanged _ _); [|discriminate].
      destruct (truthy _); [reflexivity|discriminate]. }
    rewrite Hs, lookup_delete_eq. apply lookup_insert_eq.
  - intros Hr t0 H0. rewrite Hr.
    destruct (shortCircuits props w st); [exact H0|]. now rewrite H0.
  - intros Hs Hnone. rewrite Hs.
    destruct (remountDue props w st); rewrite ?lookup_delete_eq, ?Hnone;
      apply lookup_insert_eq.
Qed.

Lemma start_time_restarts_on_reload_only_witness :
  let st := snd (loadScript reloading_descriptor home initial) in
  StartTimeCache st !! "chat/chat.js" = Some 5%Z /\
  StartTimeCache (snd (loadScript reloading_descriptor home st)) !! "chat/chat.js" = Some 5%Z /\
  StartTimeCache (snd (loadScript reloading_descriptor about st)) !! "chat/chat.js" = Some 9%Z.
Proof.
  intros st.
  destruct (start_time_restarts_on_reload_only reloading_descriptor home initial) as (_ & _ & H0).
  destruct (start_time_restarts_on_reload_only reloading_descriptor home st) as (_ & H1 & _).
  destruct (start_time_restarts_on_reload_only reloading_descriptor about st) as (H2 & _ & _).
  assert (E0 : StartTimeCache st !! "chat/chat.js" = Some 5%Z)
    by (apply H0; vm_compute; reflexivity).
  split; [exact E0|]. split.
  - apply H1; [vm_compute; reflexivity|exact E0].
  - apply H2. vm_compute. reflexivity.
Defined.

(** ** Outcomes of a call in the runs of the page *)

(** X6: in every state the page reaches through calls whose [src] is a
    string (or missing), a call has one of two outcomes. Either it finds
    its key loaded with no reload due: it completes with the resolved
    [{status: true, event: "already loaded"}] and creates nothing. Or it
    creates exactly one element and completes with the promise it has just
    created, when the descriptor has a source URL, and with the resolved
    [{status: true, event: "inline script"}] otherwise. The result "Script
    load promise not found" and the return of a promise cached by an
    earlier call never occur. *)
Theorem call_outcomes DEV actions props w :
  Forall src_typed actions ->
  let st := run DEV actions initial in
  let st' := snd (loadScript props w st) in
  (shortCircuits props w st = true /\
   (exists r, fst (loadScript props w st) = Resolved r /\
              status r = true /\ event r = Message "already loaded") /\
   elements st' = elements st) \/
  (shortCircuits props w st = false /\
   (exists el, elements st' = elements st ++ [el]) /\
   (truthy (get "src" props) = true ->
    fst (loadScript props w st) = Awaits (S (length (promises st)))) /\
   (truthy (get "src" props) = false ->
    exists r, fst (loadScript props w st) = Resolved r /\
              status r = true /\ event r = Message "inline script")).
Proof.
  intros Hall st st'.
  destruct (run_call_outcomes DEV actions props w Hall) as [(Hs & H & He)|(Hs & He & H)];
    fold st in Hs, H, He; fold st' in He.
  - left. split; [exact Hs|]. split; [|exact He].
    rewrite H. eexists. split; [reflexivity|]. split; reflexivity.
  - right. split; [exact Hs|]. split; [exact He|]. split.
    + intros Hsrc. now rewrite H, Hsrc.
    + intros Hsrc. rewrite H, Hsrc. eexists. split; [reflexivity|]. split; reflexivity.
Qed.

Lemma call_outcomes_witness :
  let st := run false [CallLoadScript reloading_descriptor home; Frame] initial in
  fst (loadScript reloading_descriptor home st) =
    Resolved {| status := true; event := Message "already loaded" |} /\
  fst (loadScript reloading_descriptor about st) = Awaits 3 /\
  fst (loadScript inline_descriptor about st) =
    Resolved {| status := true; event := Message "inline script" |}.
Proof.
  intros st.
  assert (Hall : Forall src_typed [CallLoadScript reloading_descriptor home; Frame])
    by (repeat constructor).
  assert (Hr : forall (c : Completion) s e,
            (exists r, c = Resolved r /\ status r = s /\ event r = e) ->
            c = Resolved {| status := s; event := e |}).
  { intros c s e (r & -> & Hs & He). destruct r. simpl in Hs, He. now subst. }
  split; [|split].
  - destruct (call_outcomes false _ reloading_descriptor home Hall)
      as [(_ & H & _)|(H & _)]; [now apply Hr|vm_compute in H; discriminate].
  - destruct (call_outcomes false _ reloading_descriptor about Hall)
      as [(H & _)|(_ & _ & H & _)]; [vm_compute in H; discriminate|].
    now apply H.
  - destruct (call_outcomes false _ inline_descriptor about Hall)
      as [(H & _)|(_ & _ & _ & H)]; [vm_compute in H; discriminate|].
    now apply Hr, H.
Defined.


(** ** The document after a frame *)

Lemma one_live_frame_attached k t st :
  one_live k t st -> attached k (animationFrame st) = option_list (tracked k st).
Proof.
  intros H.
  assert (Ht : tracked k (animationFrame st) = tracked k st).
  { unfold tracked. now destruct (animationFrame_same_module st) as (_&_&_&_& -> &_). }
  assert (Hq : animationFrames (animationFrame st) = []).
  { unfold animationFrame.
    now destruct (invokeAll_frame (animationFrames st)
                    (set_animationFrames (fun _ => []) st)) as (_ & _ & ->). }
  apply one_live_frame in H. destruct H as (_ & _ & cur & H1 & H2 & H3).
  rewrite Hq, Ht in H3. simpl in H3. injection H3 as ->.
  unfold attached. rewrite liveIn_app.
  destruct t; simpl in H1, H2; rewrite H1, H2; [apply app_nil_r|reflexivity].
Qed.

(** X7: for a key all of whose calls carry a source URL and name the same
    target, after every rendering frame the document holds exactly the
    element [ScriptCache] tracks for the key: that element if the key is
    tracked, none if it is not. *)
Theorem document_follows_cache DEV k t actions :
  Forall (loads_from_source k t) actions ->
  let st := run DEV actions initial in
  attached k (animationFrame st) = option_list (tracked k st).
Proof.
  intros Hall st. apply one_live_frame_attached with (t := t).
  apply one_live_run; [exact Hall|apply one_live_initial].
Qed.

Lemma document_follows_cache_witness :
  attached "chat/chat.js"
    (animationFrame (run false [CallLoadScript reloading_descriptor home;
                                CallLoadScript reloading_descriptor about] initial))
  = [1%nat].
Proof.
  etransitivity.
  - apply (document_follows_cache false "chat/chat.js" Head).
    repeat constructor; intros _; split; reflexivity.
  - vm_compute. reflexivity.
Defined.

(** X8: reload on navigation replaces the element. In a state the page
    reaches with the key used as in X7, a call with a source URL and
    [reload], on a path other than the one recorded for its loaded key,
    creates a new element, completes with its fresh promise, and after the
    next frame the new element is the only element of the key in the
    document. *)
Theorem reload_replaces_element DEV k t actions props w prev :
  Forall (loads_from_source k t) actions ->
  let st := run DEV actions initial in
  scriptKey props = k ->
  truthy (get "src" props) = true ->
  resolveTarget (targetOf props) = Some t ->
  hasLoaded k st = true ->
  truthy (reloadOf props) = true ->
  PrevPathCache st !! k = Some prev -> prev <> "" -> location_pathname w <> prev ->
  let st' := snd (loadScript props w st) in
  fst (loadScript props w st) = Awaits (S (length (promises st))) /\
  tracked k st' = Some (length (elements st)) /\
  attached k (animationFrame st') = [length (elements st)].
Proof.
  intros Hall st Hk Hsrc Htarget Hl Hreload Hprev Hne Hpath st'.
  assert (Hone : one_live k t st)
    by (apply one_live_run; [exact Hall|apply one_live_initial]).
  assert (Hone' : one_live k t st').
  { apply one_live_call; [|exact Hone]. intros _. right. auto. }
  assert (Hs : shortCircuits props w st = false).
  { unfold shortCircuits. rewrite Hk, Hl, Hprev, Hreload. unfold pathChanged.
    apply String.eqb_neq in Hne, Hpath. now rewrite Hne, Hpath. }
  assert (Hresult : fst (loadScript props w st) = Awaits (S (length (promises st))) /\
                    tracked k st' = Some (length (elements st))).
  { destruct Hone as (Hc & _).
    destruct (loadScript_effects props w st) as [_ Heff].
    assert (Hcreate : forall s,
      promises s = promises st -> ScriptCache s !! scriptKey props = None ->
      fst (mountScript props (scriptKey props) w s) = Awaits (S (length (promises st)))).
    { intros s Hp Hnone. unfold mountScript.
      destruct (stampStart_frame (scriptKey props) w s) as (_&_& E3 &_&_&_& E7 &_).
      rewrite E7, Hnone. unfold createScript. rewrite Hsrc. simpl. now rewrite E3, Hp. }
    destruct (loadScript_routes props w st)
      as [[Hs' _]|[(_ & Hr & Hroute)|(_ & Hr & old & Ho & Hroute)]]; [congruence| |].
    - assert (Hnone : ScriptCache st !! scriptKey props = None).
      { destruct (ScriptCache st !! scriptKey props) as [sc|] eqn:Ek; [|reflexivity].
        exfalso. destruct (Hc _ _ Ek) as (p & e & el & -> & _).
        unfold remountDue, tracked in Hr. rewrite Hk in Hr, Ek.
        rewrite Hl, Hprev, Hreload, Ek in Hr. unfold pathChanged in Hr.
        apply String.eqb_neq in Hne, Hpath. rewrite Hne, Hpath in Hr. simpl in Hr.
        discriminate. }
      split; [rewrite Hroute; now apply Hcreate|].
      destruct Heff as [(He & _)|(el & removal & _ & _ & _ & Hsc & _)].
      + exfalso. unfold st' in *. rewrite Hroute in He.
        destruct (mountScript_effects props (scriptKey props) w
                    (set_PrevPathCache <[scriptKey props:=location_pathname w]> st))
          as [_ H]. simpl in H. rewrite Hnone in H.
        destruct H as (el & H & _). rewrite H in He.
        symmetry in He. now apply app_one_neq in He.
      + unfold tracked, st'. rewrite Hsc, Hsrc, <- Hk, lookup_insert_eq. reflexivity.
    - split; [rewrite Hroute; apply Hcreate; [reflexivity|apply lookup_delete_eq]|].
      destruct Heff as [(He & _)|(el & removal & _ & _ & _ & Hsc & _)].
      + exfalso. unfold st' in *. rewrite Hroute in He.
        match type of He with context [mountScript _ _ _ ?s] =>
          destruct (mountScript_effects props (scriptKey props) w s) as [_ H];
          assert (Hnone : ScriptCache s !! scriptKey props = None)
            by apply lookup_delete_eq
        end.
        rewrite Hnone in H. destruct H as (el & H & _). rewrite H in He. simpl in He.
        symmetry in He. now apply app_one_neq in He.
      + unfold tracked, st'. rewrite Hsc, Hsrc, <- Hk, lookup_insert_eq. reflexivity. }
  destruct Hresult as [H1 H2]. split; [exact H1|]. split; [exact H2|].
  rewrite (one_live_frame_attached k t st' Hone'), H2. reflexivity.
Qed.

Lemma reload_replaces_element_witness :
  let st := run false [CallLoadScript reloading_descriptor home; Frame] initial in
  attached "chat/chat.js" st = [0%nat] /\
  attached "chat/chat.js" (animationFrame (snd (loadScript reloading_descriptor about st)))
    = [1%nat].
Proof.
  intros st. split; [vm_compute; reflexivity|].
  assert (Hall : Forall (loads_from_source "chat/chat.js" Head)
                   [CallLoadScript reloading_descriptor home; Frame])
    by (repeat constructor; intros _; split; reflexivity).
  assert (Hl : hasLoaded "chat/chat.js" st = true) by (vm_compute; reflexivity).
  assert (Hprev : PrevPathCache st !! "chat/chat.js" = Some "/") by (vm_compute; reflexivity).
  assert (Hne : "/" <> "") by discriminate.
  assert (Hpath : location_pathname about <> "/") by (vm_compute; discriminate).
  exact (proj2 (proj2 (reload_replaces_element false "chat/chat.js" Head _
                         reloading_descriptor about "/" Hall
                         eq_refl eq_refl eq_refl Hl eq_refl Hprev Hne Hpath))).
Defined.

(** ** The new element *)

Lemma buildScript_text ignored props key inner :
  el_text (buildScript ignored props key inner) =
  el_text (setBody (get "dangerouslySetInnerHTML" props)
             (default_to (VString "") (get "children" props)) (createElement key)).
Proof.
  unfold buildScript. cbn [set_listeners el_text].
  destruct (truthy (get "src" props)); cbn [setAttribute el_text];
    destruct (bool_decide _); cbn [setAttribute el_text];
    match goal with |- context [spreadProps ?i ?p ?e] =>
      destruct (spreadProps_fields i p e) as (_ & -> & _) end;
    reflexivity.
Qed.

(** X9: the content of a new element. A truthy [dangerouslySetInnerHTML]
    wins over [children]: the text of the element is its [__html],
    trimmed, as the HTML parser reads it (a carriage return becomes a line
    feed, a NUL becomes U+FFFD). Otherwise truthy [children] are the text,
    a string as it is and an array joined without separator. With neither,
    the element has no content. The attribute loop leaves the content
    alone. *)
Theorem new_element_body props w st c st' el :
  loadScript props w st = (c, st') ->
  elements st' = elements st ++ [el] ->
  (truthy (get "dangerouslySetInnerHTML" props) = true ->
   textContent el = parsedText (trim (rawHtml props))) /\
  (truthy (get "dangerouslySetInnerHTML" props) = false ->
   truthy (default_to (VString "") (get "children" props)) = true ->
   textContent el = childrenText props) /\
  (truthy (get "dangerouslySetInnerHTML" props) = false ->
   truthy (default_to (VString "") (get "children" props)) = false ->
   textContent el = "").
Proof.
  intros Hcall Hel.
  destruct (loadScript_creates _ _ _ _ _ _ Hcall Hel) as (st1 & Hcr & He & _).
  rewrite <- He in Hel.
  pose proof (createScript_created _ _ _ _ _ _ Hcr Hel) as ->.
  unfold textContent. rewrite buildScript_text.
  unfold setBody, rawHtml, childrenText.
  split; [|split].
  - intros ->. reflexivity.
  - intros -> ->. reflexivity.
  - intros -> ->. reflexivity.
Qed.

Lemma new_element_body_witness :
  let el := buildScript (initial_ignoreProps ++ ["async"; "defer"])
              both_bodies_descriptor "boot" 0 in
  textContent el = "init()".
Proof.
  intros el.
  destruct (new_element_body both_bodies_descriptor home initial
              (fst (loadScript both_bodies_descriptor home initial))
              (snd (loadScript both_bodies_descriptor home initial)) el)
    as (H & _ & _).
  - apply surjective_pairing.
  - vm_compute. reflexivity.
  - etransitivity; [apply H; reflexivity|]. vm_compute. reflexivity.
Defined.




(** ** The blocklist in the runs of the page *)


(** X11: the blocklist grows without bound. In every state the page
    reaches, [ignoreProps] is its initial eight names followed by one pair
    [async], [defer] for each element ever created from a descriptor
    without a source URL: its length is 8 plus twice their number, and it
    holds [async] and [defer] exactly when there is such an element. *)
Theorem blocklist_grows_with_inline_scripts DEV actions :
  let st := run DEV actions initial in
  let n := countIf sourceless (elements st) in
  ignoreProps st = initial_ignoreProps ++ pushes n /\
  length (ignoreProps st) = 8 + 2 * n /\
  (forall k, In k (ignoreProps st) <->
             In k initial_ignoreProps \/ (0 < n /\ (k = "async" \/ k = "defer"))).
Proof.
  intros st n.
  assert (H : ignoreProps st = initial_ignoreProps ++ pushes n) by apply run_blocklist.
  split; [exact H|]. split.
  - rewrite H, length_app, pushes_length. reflexivity.
  - intros k. rewrite H, in_app_iff, pushes_In. reflexivity.
Qed.

(** ** Events after the settlement *)

(** X12: the listeners stay on the element after the promise is settled.
    A further load event touches no promise; it calls [onLoad] and then
    [onReady] again and logs in development mode, as far as the callbacks
    return: an error thrown by one of them ends the listener and is
    uncaught. A further error event does nothing at all, so [onError] is
    never called for a promise that is already settled. *)
Theorem events_after_settlement DEV script ev st el x :
  elements st !! script = Some el ->
  (forall l, el_onload el = Some l ->
     settlementOf (ls_promise l) st = Some x -> x <> Pending ->
     let st' := onload DEV script ev st in
     promises st' = promises st /\
     (failureOf (ls_onLoad l) = None -> failureOf (ls_onReady l) = None ->
      trace st' =
        trace st ++ callOf (ls_onLoad l) (ArgEvent ev)
          ++ callOf (ls_onReady l) (ArgEvent ev)
          ++ (if DEV then [LoggedPerformance (ls_key l) (ls_src l)] else [])) /\
     (forall error, failureOf (ls_onLoad l) = Some error ->
      trace st' = trace st ++ callOf (ls_onLoad l) (ArgEvent ev) ++ [Uncaught error]) /\
     (forall error,
      failureOf (ls_onLoad l) = None -> failureOf (ls_onReady l) = Some error ->
      trace st' =
        trace st ++ callOf (ls_onLoad l) (ArgEvent ev)
          ++ callOf (ls_onReady l) (ArgEvent ev) ++ [Uncaught error])) /\
  (forall p, el_onerror el = Some p ->
     settlementOf p st = Some x -> x <> Pending ->
     onerror DEV script ev st = st).
Proof.
  intros Hel. split.
  - intros l Hl Hs Hx st'. subst st'. rewrite (onload_eq DEV script ev st el l Hel Hl).
    assert (Hnp : forall obs,
      resolve (ls_promise l) {| status := true; event := BrowserEvent ev |}
        (set_trace (fun t => t ++ obs) st) = set_trace (fun t => t ++ obs) st).
    { intros obs. unfold resolve.
      rewrite (isPending_settled (ls_promise l) (set_trace _ st) x); [reflexivity| |exact Hx].
      exact Hs. }
    destruct (failureOf (ls_onLoad l)) as [e1|];
      [|destruct (failureOf (ls_onReady l)) as [e2|]]; rewrite ?Hnp;
      (split; [reflexivity|]); (split; [|split]);
      try (intros; discriminate); try (intros; reflexivity).
    + intros error [= <-]. reflexivity.
    + intros error _ [= <-]. reflexivity.
  - intros p Hp Hs Hx. unfold onerror. rewrite Hel, Hp.
    unfold reject. now rewrite (isPending_settled p st x Hs Hx).
Qed.

Lemma events_after_settlement_witness :
  let st := onload false 0 7 (snd (loadScript callbacks_descriptor home initial)) in
  trace (onload false 0 8 st) =
    trace st ++ [Called (VFunction (Callback 1)) (ArgEvent 8);
                 Called (VFunction (Callback 2)) (ArgEvent 8)] /\
  onerror false 0 9 st = st.
Proof.
  intros st.
  destruct (events_after_settlement false 0 8 st
              (buildScript initial_ignoreProps callbacks_descriptor "maps/maps.js" 0)
              (Fulfilled {| status := true; event := BrowserEvent 7 |}))
    as [Hload _]; [vm_compute; reflexivity|].
  destruct (events_after_settlement false 0 9 st
              (buildScript initial_ignoreProps callbacks_descriptor "maps/maps.js" 0)
              (Fulfilled {| status := true; event := BrowserEvent 7 |}))
    as [_ Herr]; [vm_compute; reflexivity|].
  split.
  - destruct (Hload _ eq_refl) as (_ & H & _); [vm_compute; reflexivity|discriminate|].
    etransitivity; [apply H; reflexivity|]. reflexivity.
  - apply (Herr 0%nat); [reflexivity|vm_compute; reflexivity|discriminate].
Defined.


(** ** The two frame callbacks *)

Lemma without_snoc x l : ~ In x l -> without x (l ++ [x]) = l.
Proof.
  induction l as [|y l IH]; intros H; simpl.
  - now rewrite Nat.eqb_refl.
  - destruct (x =? y)%nat eqn:E.
    + apply Nat.eqb_eq in E. subst. exfalso. apply H. now left.
    + rewrite IH; [reflexivity|]. intros Hin. apply H. now right.
Qed.

Lemma member_snoc x l : member x (l ++ [x]) = true.
Proof. apply member_In, in_or_app. right. now left. Qed.

(** X13: appending and removing through the frame callbacks. For an
    element that is not yet in the document, the callback of
    [appendScript] followed by the callback of [removeScript] on the same
    target gives back the document as it was, with nothing thrown. With
    the other target the removal throws (NotFoundError is recorded) and
    the element stays where it was appended. *)
Theorem append_then_remove target target' t e st :
  resolveTarget target = Some t ->
  ~ In e (head (document st) ++ body (document st)) ->
  let appended := invoke (appendScript target e) st in
  childrenOf t (document appended) = childrenOf t (document st) ++ [e] /\
  document (invoke (removeScript target e) appended) = document st /\
  trace (invoke (removeScript target e) appended) = trace st /\
  (resolveTarget target' = Some (otherTarget t) ->
   document (invoke (removeScript target' e) appended) = document appended /\
   trace (invoke (removeScript target' e) appended) = trace st ++ [Uncaught "NotFoundError"]).
Proof.
  intros Ht Hnot appended.
  assert (Hh : ~ In e (head (document st))) by (intros H; apply Hnot, in_or_app; auto).
  assert (Hb : ~ In e (body (document st))) by (intros H; apply Hnot, in_or_app; auto).
  assert (Ha : appended = set_document (appendChild t e) st).
  { unfold appended, invoke, appendScript; simpl. now rewrite Ht. }
  assert (Hd : document appended =
               match t with
               | Head => {| head := head (document st) ++ [e]; body := body (document st) |}
               | Body => {| head := head (document st); body := body (document st) ++ [e] |}
               end).
  { rewrite Ha. destruct t; simpl; now rewrite !without_notin by assumption. }
  split; [rewrite Hd; destruct t; reflexivity|].
  assert (Hrem : invoke (removeScript target e) appended
                 = set_document (fun _ => document st) appended).
  { unfold invoke, removeScript; simpl. rewrite Ht. unfold removeChild. rewrite Hd.
    destruct t; simpl; rewrite member_snoc, without_snoc by assumption;
      destruct (document st); reflexivity. }
  split; [rewrite Hrem; reflexivity|]. split; [rewrite Hrem, Ha; reflexivity|].
  intros Ht'. unfold invoke, removeScript; simpl. rewrite Ht'. unfold removeChild.
  assert (Hm : member e (childrenOf (otherTarget t) (document appended)) = false).
  { rewrite Hd. apply not_true_is_false. intros Hm. apply member_In in Hm.
    destruct t; simpl in Hm; contradiction. }
  rewrite Hm. simpl. rewrite Ha. auto.
Qed.

Lemma append_then_remove_witness :
  let st := snd (loadScript reloading_descriptor home initial) in
  document (invoke (removeScript (VString "head") 0)
              (invoke (appendScript (VString "head") 0) st)) = document st /\
  trace (invoke (removeScript (VString "body") 0)
           (invoke (appendScript (VString "head") 0) st)) = [Uncaught "NotFoundError"].
Proof.
  intros st.
  destruct (append_then_remove (VString "head") (VString "body") Head 0 st)
    as (_ & H1 & _ & H2).
  - reflexivity.
  - simpl. tauto.
  - split; [exact H1|]. now destruct H2.
Defined.

(** * Further properties: the worker entry *)

Lemma split_length c s : length (Worker.split c s) = S (Worker.occurrences c s).
Proof.
  induction s as [|x s IH]; [reflexivity|]. simpl.
  destruct (Ascii.eqb x c); simpl; [now rewrite IH|].
  destruct (Worker.split c s) as [|piece pieces]; simpl in *; lia.
Qed.

Lemma split_no_separator c s : Worker.occurrences c s = 0 -> Worker.split c s = [s].
Proof.
  induction s as [|x s IH]; [reflexivity|]. simpl.
  destruct (Ascii.eqb x c); [discriminate|]. simpl. intros H. now rewrite IH.
Qed.

Lemma split_separated c a b :
  Worker.split c (a +:+ String c b) = Worker.split c a ++ Worker.split c b.
Proof.
  induction a as [|x a IH]; simpl.
  - now rewrite Ascii.eqb_refl.
  - destruct (Ascii.eqb x c); [now rewrite IH|].
    rewrite IH. pose proof (split_length c a) as Hl.
    destruct (Worker.split c a) as [|piece pieces]; [discriminate|reflexivity].
Qed.

Lemma pop_app l1 x l2 : Worker.pop (l1 ++ x :: l2) = Worker.pop (x :: l2).
Proof.
  induction l1 as [|y l1 IH]; [reflexivity|].
  change ((y :: l1) ++ x :: l2) with (y :: (l1 ++ x :: l2)).
  cbn [Worker.pop]. destruct (l1 ++ x :: l2) eqn:E; [|exact IH].
  destruct l1; discriminate.
Qed.

(** X14: the cache policy of [assetHandler]. A response with a status of
    400 or more is passed on unchanged. A response with a lower status
    keeps its status, its body and every header but [cache-control], to
    which the policy is appended: it becomes the value of the header, after
    a comma and a space when the response came with a [cache-control] of
    its own. The max-age of the policy is one year (31536000) when the
    last segment of the path holds at least two dots and one day (86400)
    otherwise, dots in the directories not counting. The handler never
    fails on a fetched response. *)
Theorem asset_cache_control :
  (forall r pathname,
      400 <= Worker.status r ->
      Worker.assetHandler (Worker.Returned r) pathname = Worker.Returned r) /\
  (forall r dir file,
      Worker.status r < 400 ->
      Worker.occurrences "/" file = 0 ->
      let policy := if (2 <=? Worker.occurrences "." file)%nat
                    then "public, max-age=31536000" else "public, max-age=86400" in
      exists r',
        Worker.assetHandler (Worker.Returned r) (dir +:+ String "/" file) =
          Worker.Returned r' /\
        Worker.status r' = Worker.status r /\
        Worker.body r' = Worker.body r /\
        (forall name, name <> "cache-control" ->
           Worker.headers r' !! name = Worker.headers r !! name) /\
        Worker.headers r' !! "cache-control" =
          Some match Worker.headers r !! "cache-control" with
               | Some old => old +:+ ", " +:+ policy
               | None => policy
               end) /\
  (forall r pathname error,
      Worker.assetHandler (Worker.Returned r) pathname <> Worker.Failed error).
Proof.
  split; [|split].
  - intros r pathname H. unfold Worker.assetHandler.
    now rewrite (proj2 (Nat.ltb_ge _ _) H).
  - intros r dir file Hs Hfile policy. unfold Worker.assetHandler.
    rewrite (proj2 (Nat.ltb_lt _ _) Hs), split_separated, (split_no_separator _ _ Hfile).
    rewrite pop_app. cbn [Worker.pop].
    eexists. split; [reflexivity|].
    unfold Worker.headers_append. cbn [Worker.status Worker.body Worker.headers].
    change (toLowerCase "cache-control") with "cache-control".
    split; [reflexivity|]. split; [reflexivity|]. split.
    + intros name Hne. now rewrite lookup_insert_ne.
    + rewrite lookup_insert_eq. unfold Worker.maxAge. rewrite split_length.
      assert (Hp : "public, max-age=" +:+ pretty
                     (if (2 <? S (Worker.occurrences "." file))%nat
                      then 31536000%N else 86400%N) = policy).
      { unfold policy. destruct (2 <=? Worker.occurrences "." file)%nat eqn:E.
        - apply Nat.leb_le in E.
          rewrite (proj2 (Nat.ltb_lt 2 (S (Worker.occurrences "." file)))) by lia.
          vm_compute. reflexivity.
        - apply Nat.leb_gt in E.
          rewrite (proj2 (Nat.ltb_ge 2 (S (Worker.occurrences "." file)))) by lia.
          vm_compute. reflexivity. }
      now rewrite Hp.
  - intros r pathname error. unfold Worker.assetHandler.
    destruct (Worker.status r <? 400)%nat; [|discriminate].
    pose proof (split_length "/" pathname) as Hl.
    destruct (Worker.split "/" pathname) as [|x l]; [discriminate|].
    assert (Hp : forall y l', exists z, Worker.pop (y :: l') = Some z).
    { intros y l'. revert y. induction l' as [|y' l' IH]; intros y; [eauto|].
      cbn [Worker.pop]. apply IH. }
    destruct (Hp x l) as [z ->]. discriminate.
Qed.

Lemma asset_cache_control_witness :
  exists hashed merged,
    Worker.assetHandler (Worker.Returned hashed_asset) "/v1.2/assets/index.4f3a.css" =
      Worker.Returned hashed /\
    Worker.headers hashed !! "cache-control" = Some "public, max-age=31536000" /\
    Worker.headers hashed !! "content-type" = Some "text/css" /\
    Worker.assetHandler (Worker.Returned uncached_asset) "/favicon.ico" =
      Worker.Returned merged /\
    Worker.headers merged !! "cache-control" = Some "no-store, public, max-age=86400".
Proof.
  destruct asset_cache_control as (_ & H & _).
  destruct (H hashed_asset "/v1.2/assets" "index.4f3a.css") as (r1 & E1 & _ & _ & O1 & C1).
  { vm_compute. lia. }
  { reflexivity. }
  destruct (H uncached_asset "" "favicon.ico") as (r2 & E2 & _ & _ & _ & C2).
  { vm_compute. lia. }
  { reflexivity. }
  exists r1, r2. split; [exact E1|]. split; [exact C1|].
  split; [rewrite O1 by discriminate; reflexivity|]. split; [exact E2|exact C2].
Defined.


(** * Further properties: the script rendered before hydration *)

Import BeforeHydration.

Lemma get_assign_eq k v o : get k (assign k v o) = v.
Proof.
  induction o as [|[k' v'] o IH]; simpl; [now rewrite String.eqb_refl|].
  destruct (k =? k') eqn:E; simpl; [now rewrite String.eqb_refl|now rewrite E].
Qed.

Lemma get_assign_ne k k' v o : k <> k' -> get k (assign k' v o) = get k o.
Proof.
  intros Hne. induction o as [|[k0 v0] o IH]; simpl.
  - apply String.eqb_neq in Hne. now rewrite Hne.
  - destruct (k' =? k0) eqn:E; simpl.
    + apply String.eqb_eq in E. subst k0.
      apply String.eqb_neq in Hne. now rewrite Hne.
    + now rewrite IH.
Qed.

Lemma keys_assign k k' v o : In k (keys (assign k' v o)) <-> k = k' \/ In k (keys o).
Proof.
  unfold keys. induction o as [|[k0 v0] o IH]; simpl; [intuition|].
  destruct (k' =? k0) eqn:E; simpl.
  - apply String.eqb_eq in E. subst k0. intuition.
  - rewrite IH. intuition.
Qed.

Lemma keys_spread k src : forall dst,
  In k (keys (spread src dst)) <-> In k (keys src) \/ In k (keys dst).
Proof.
  induction src as [|[k0 v0] src IH]; intros dst; simpl; [intuition|].
  rewrite IH, keys_assign. unfold keys. simpl. intuition.
Qed.

Lemma keys_delete_key k k' o :
  In k (keys (delete_key k' o)) <-> k <> k' /\ In k (keys o).
Proof.
  unfold keys. induction o as [|[k0 v0] o IH]; simpl; [intuition|].
  destruct (k' =? k0) eqn:E.
  - apply String.eqb_eq in E. subst k0. rewrite IH. intuition congruence.
  - apply String.eqb_neq in E. simpl. rewrite IH. intuition congruence.
Qed.

Lemma get_delete_key_ne k k' o : k <> k' -> get k (delete_key k' o) = get k o.
Proof.
  intros Hne. induction o as [|[k0 v0] o IH]; [reflexivity|]. simpl.
  destruct (k' =? k0) eqn:E.
  - apply String.eqb_eq in E. subst k0.
    apply String.eqb_neq in Hne. now rewrite Hne.
  - simpl. now rewrite IH.
Qed.

Lemma keys_withoutIgnored k ks : forall acc,
  In k (keys (withoutIgnored ks acc)) <->
  In k (keys acc) /\ ~ (includes k ignoreProps = true /\ In k ks).
Proof.
  induction ks as [|k0 ks IH]; intros acc; cbn [withoutIgnored]; [simpl; intuition|].
  rewrite IH. destruct (includes k0 ignoreProps) eqn:E.
  - rewrite keys_delete_key. split.
    + intros [[Hne Hin] Hn]. split; [exact Hin|].
      intros [Hi [Heq|Hk]]; [congruence|]. apply Hn. auto.
    + intros [Hin Hn]. split; [split; [|exact Hin]|].
      * intros Heq. apply Hn. subst k0. split; [exact E|now left].
      * intros [Hi Hk]. apply Hn. split; [exact Hi|now right].
  - split; intros [Hin Hn]; (split; [exact Hin|]).
    + intros [Hi [Heq|Hk]]; [congruence|]. apply Hn. auto.
    + intros [Hi Hk]. apply Hn. split; [exact Hi|now right].
Qed.

Lemma get_withoutIgnored k ks : forall acc,
  includes k ignoreProps = false ->
  get k (withoutIgnored ks acc) = get k acc.
Proof.
  induction ks as [|k0 ks IH]; intros acc Hk; [reflexivity|]. cbn [withoutIgnored].
  rewrite IH by exact Hk. destruct (includes k0 ignoreProps) eqn:E; [|reflexivity].
  apply get_delete_key_ne. intros ->. congruence.
Qed.

(** The props of the rendered element: what the component writes itself,
    or a key of the props that is not one of the three ignored names. *)
Lemma rendered_keys passedProps el k :
  ScriptBeforeHydration passedProps = Rendered el ->
  In k (keys (props el)) ->
  In k ["data-load"; "dangerouslySetInnerHTML"; "suppressHydrationWarning"; "id";
        "src"; "async"; "defer"] \/
  (In k (keys passedProps) /\ includes k ignoreProps = false).
Proof.
  assert (Hbase : forall k, In k (keys (withoutIgnored (map fst passedProps) passedProps)) ->
                    In k (keys passedProps) /\ includes k ignoreProps = false).
  { intros k0 H. apply keys_withoutIgnored in H as [Hin Hn]. split; [exact Hin|].
    destruct (includes k0 ignoreProps) eqn:E; [|reflexivity].
    exfalso. apply Hn. auto. }
  assert (Hinline : forall js p,
    (forall k, In k (keys p) -> In k (keys passedProps) /\ includes k ignoreProps = false) ->
    In k (keys (assign "data-load" (VString "beforeHydration")
                  (assign "dangerouslySetInnerHTML" (VHtml (Some js))
                     (assign "suppressHydrationWarning" (VBool true)
                        (spread p [("id", get "id" passedProps)]))))) ->
    In k ["data-load"; "dangerouslySetInnerHTML"; "suppressHydrationWarning"; "id";
          "src"; "async"; "defer"] \/
    (In k (keys passedProps) /\ includes k ignoreProps = false)).
  { intros js p Hp H. rewrite !keys_assign, keys_spread in H. simpl in H.
    decompose [or] H; subst; simpl; auto 10; try contradiction. }
  unfold ScriptBeforeHydration. cbv zeta.
  set (base := withoutIgnored (map fst passedProps) passedProps) in *.
  assert (Hsrc : forall k, In k (keys (delete_key "src" base)) ->
                   In k (keys passedProps) /\ includes k ignoreProps = false).
  { intros k0 H. apply keys_delete_key in H as [_ H]. now apply Hbase. }
  destruct (isInlineScript passedProps).
  - destruct (truthy (get "children" (delete_key "src" base))).
    + intros [= <-]. simpl props. apply Hinline.
      intros k0 H. apply keys_delete_key in H as [_ H]. now apply Hsrc.
    + destruct (truthy (get "dangerouslySetInnerHTML" (delete_key "src" base))).
      * destruct (get "dangerouslySetInnerHTML" (delete_key "src" base))
          as [| | | | | |[html|]|]; try discriminate.
        intros [= <-]. simpl props. apply Hinline.
        intros k0 H. apply keys_delete_key in H as [_ H]. now apply Hsrc.
      * intros [= <-]. simpl props. now apply Hinline.
  - intros [= <-]. simpl props. rewrite !keys_assign. intros H.
    decompose [or] H; subst; simpl; auto 10.
    apply keys_spread in H0 as [H0|[]]. right. now apply Hbase.
Qed.

(** X15: the rendered script never carries [load], [onReady] or
    [target]: whatever props are passed, none of the three names is a prop
    of the element. *)
Theorem ignored_props_are_not_rendered passedProps el k :
  ScriptBeforeHydration passedProps = Rendered el ->
  In k ignoreProps ->
  ~ In k (keys (props el)).
Proof.
  intros Hr Hk Hin.
  destruct (rendered_keys passedProps el k Hr Hin) as [H|[_ H]].
  - simpl in Hk, H. decompose [or] Hk; subst; decompose [or] H; try discriminate; contradiction.
  - apply includes_In in Hk. congruence.
Qed.

Lemma ignored_props_are_not_rendered_witness :
  In "target" (keys external_props) /\ ~ In "target" (keys (props external_rendered)).
Proof.
  split; [simpl; auto 10|].
  apply (ignored_props_are_not_rendered external_props external_rendered "target").
  - vm_compute. reflexivity.
  - simpl. auto.
Defined.

Lemma inlineProps_get k passedProps :
  k <> "src" -> includes k ignoreProps = false ->
  get k (inlineProps passedProps) = get k passedProps.
Proof.
  intros Hs Hi. unfold inlineProps.
  rewrite get_delete_key_ne by exact Hs. now apply get_withoutIgnored.
Qed.

(** The four ways the component ends. *)
Lemma render_cases passedProps :
  let id := get "id" passedProps in
  let p := inlineProps passedProps in
  (isInlineScript passedProps = false /\
   exists el, ScriptBeforeHydration passedProps = Rendered el /\
     key el = or_empty id +:+ or_empty (srcOf passedProps) /\
     props el =
       assign "data-load" (VString "beforeHydration")
         (assign "defer" (VBool false)
            (assign "async" (VBool false)
               (assign "src" (srcOf passedProps)
                  (assign "id" id
                     (spread (withoutIgnored (map fst passedProps) passedProps) [])))))) \/
  (isInlineScript passedProps = true /\
   truthy (get "children" passedProps) = true /\
   ScriptBeforeHydration passedProps =
     Rendered (inlineElement id (childrenText passedProps) (delete_key "children" p))) \/
  (isInlineScript passedProps = true /\
   truthy (get "children" passedProps) = false /\
   truthy (get "dangerouslySetInnerHTML" passedProps) = true /\
   ScriptBeforeHydration passedProps =
     match get "dangerouslySetInnerHTML" passedProps with
     | VHtml (Some html) =>
         Rendered (inlineElement id (trim html) (delete_key "dangerouslySetInnerHTML" p))
     | _ => Threw "TypeError"
     end) \/
  (isInlineScript passedProps = true /\
   truthy (get "children" passedProps) = false /\
   truthy (get "dangerouslySetInnerHTML" passedProps) = false /\
   ScriptBeforeHydration passedProps = Rendered (inlineElement id "" p)).
Proof.
  intros id p. unfold ScriptBeforeHydration. cbv zeta.
  fold (inlineProps passedProps). fold p. fold id.
  assert (Hc : get "children" p = get "children" passedProps)
    by (apply inlineProps_get; [discriminate|reflexivity]).
  assert (Hh : get "dangerouslySetInnerHTML" p = get "dangerouslySetInnerHTML" passedProps)
    by (apply inlineProps_get; [discriminate|reflexivity]).
  rewrite Hc, Hh.
  destruct (isInlineScript passedProps).
  - right. destruct (truthy (get "children" passedProps)) eqn:Ec.
    + left. split; [reflexivity|]. split; [reflexivity|].
      unfold childrenText, inlineElement.
      destruct (get "children" passedProps); try discriminate; reflexivity.
    + right. destruct (truthy (get "dangerouslySetInnerHTML" passedProps)) eqn:Ed.
      * left. repeat (split; [reflexivity|]).
        destruct (get "dangerouslySetInnerHTML" passedProps) as [| | | | | |[html|]|];
          reflexivity.
      * right. auto.
  - left. split; [reflexivity|]. eexists. split; [reflexivity|]. split; reflexivity.
Qed.

(** X16: what the component forces on the element. The element is a
    [script] and its [data-load] is [beforeHydration], whatever the props
    say. With a source, [async] and [defer] are [false] even when the
    caller asks for them, and [src] and [id] are those of the props. An
    inline script has no [src], carries [suppressHydrationWarning], and
    its key is the [id] (the text [undefined] when there is none) followed
    by the first 24 UTF-16 code units of its body. *)
Theorem forced_attributes passedProps el :
  ScriptBeforeHydration passedProps = Rendered el ->
  type el = "script" /\
  get "data-load" (props el) = VString "beforeHydration" /\
  (isInlineScript passedProps = false ->
   get "async" (props el) = VBool false /\
   get "defer" (props el) = VBool false /\
   get "src" (props el) = srcOf passedProps /\
   get "id" (props el) = get "id" passedProps) /\
  (isInlineScript passedProps = true ->
   get "suppressHydrationWarning" (props el) = VBool true /\
   ~ In "src" (keys (props el)) /\
   exists js,
     get "dangerouslySetInnerHTML" (props el) = VHtml (Some js) /\
     (forall id, get "id" passedProps = VString id -> key el = id +:+ slice 24 js) /\
     (get "id" passedProps = VUndefined -> key el = "undefined" +:+ slice 24 js)).
Proof.
  intros Hr.
  assert (Hinline : forall js p,
    ~ In "src" (keys p) ->
    ScriptBeforeHydration passedProps = Rendered (inlineElement (get "id" passedProps) js p) ->
    type el = "script" /\
    get "data-load" (props el) = VString "beforeHydration" /\
    get "suppressHydrationWarning" (props el) = VBool true /\
    ~ In "src" (keys (props el)) /\
    exists js,
      get "dangerouslySetInnerHTML" (props el) = VHtml (Some js) /\
      (forall id, get "id" passedProps = VString id -> key el = id +:+ slice 24 js) /\
      (get "id" passedProps = VUndefined -> key el = "undefined" +:+ slice 24 js)).
  { intros js p Hp H. rewrite Hr in H. injection H as ->. unfold inlineElement. simpl.
    split; [reflexivity|]. split; [apply get_assign_eq|].
    split; [rewrite !get_assign_ne by discriminate; apply get_assign_eq|].
    split.
    - rewrite !keys_assign, keys_spread. simpl.
      intros H. decompose [or] H; try discriminate; contradiction.
    - exists js. split; [|split].
      + rewrite get_assign_ne by discriminate. apply get_assign_eq.
      + intros id ->. reflexivity.
      + intros ->. reflexivity. }
  assert (Hnosrc : forall k, ~ In "src" (keys (delete_key k (inlineProps passedProps)))).
  { intros k H. apply keys_delete_key in H as [_ H].
    unfold inlineProps in H. apply keys_delete_key in H as [H _]. now apply H. }
  assert (Hnosrc' : ~ In "src" (keys (inlineProps passedProps))).
  { unfold inlineProps. intros H. apply keys_delete_key in H as [H _]. now apply H. }
  destruct (render_cases passedProps)
    as [(Hi & el' & H & Hk & Hp)|[(Hi & _ & H)|[(Hi & _ & _ & H)|(Hi & _ & _ & H)]]].
  - rewrite Hr in H. injection H as <-.
    assert (Ht : type el = "script").
    { revert Hr. unfold ScriptBeforeHydration. cbv zeta. rewrite Hi. now intros [= <-]. }
    split; [exact Ht|]. rewrite Hp.
    split; [apply get_assign_eq|]. split; [|congruence].
    intros _. split; [rewrite !get_assign_ne by discriminate; apply get_assign_eq|].
    split; [rewrite !get_assign_ne by discriminate; apply get_assign_eq|].
    split; [rewrite !get_assign_ne by discriminate; apply get_assign_eq|].
    rewrite !get_assign_ne by discriminate. apply get_assign_eq.
  - destruct (Hinline _ _ (Hnosrc "children") H) as (A & B & C & D & E).
    split; [exact A|]. split; [exact B|]. split; [congruence|]. auto.
  - destruct (get "dangerouslySetInnerHTML" passedProps) as [| | | | | |[html|]|];
      try (rewrite Hr in H; discriminate).
    destruct (Hinline _ _ (Hnosrc "dangerouslySetInnerHTML") H) as (A & B & C & D & E).
    split; [exact A|]. split; [exact B|]. split; [congruence|]. auto.
  - destruct (Hinline _ _ Hnosrc' H) as (A & B & C & D & E).
    split; [exact A|]. split; [exact B|]. split; [congruence|]. auto.
Qed.

Lemma forced_attributes_witness :
  get "async" external_props = VBool true /\
  get "async" (props external_rendered) = VBool false /\
  get "data-load" (props external_rendered) = VString "beforeHydration" /\
  key example_children_rendered = "beforeHydration-childrenconsole.log('🎉 Inline c".
Proof.
  destruct (forced_attributes external_props external_rendered) as (_ & H1 & H2 & _).
  { vm_compute. reflexivity. }
  destruct (forced_attributes example_children_props example_children_rendered)
    as (_ & _ & _ & H3).
  { vm_compute. reflexivity. }
  split; [reflexivity|]. split; [apply H2; vm_compute; reflexivity|].
  split; [exact H1|].
  destruct H3 as (_ & _ & js & Hjs & Hkey & _); [vm_compute; reflexivity|].
  injection Hjs as <-.
  etransitivity; [apply (Hkey "beforeHydration-children"); reflexivity|].
  vm_compute. reflexivity.
Defined.

(** X17: the component and the loader agree on the key. For props with
    a source URL the component renders the script with a source, never
    throws, and the React key of the element is the ScriptKey [loadScript]
    computes for the same props. *)
Theorem key_is_script_key passedProps url :
  sourceURL passedProps = Some url ->
  exists el,
    ScriptBeforeHydration passedProps = Rendered el /\
    key el = scriptKey passedProps /\
    get "src" (props el) = VString url.
Proof.
  intros Hurl. unfold sourceURL in Hurl.
  destruct (get "src" passedProps) as [| | | |s| | |] eqn:Es; try discriminate.
  destruct (s =? "") eqn:Ee; [discriminate|]. injection Hurl as <-.
  assert (Hsrc : srcOf passedProps = VString s) by (unfold srcOf; now rewrite Es).
  assert (Hi : isInlineScript passedProps = false).
  { unfold isInlineScript. rewrite Hsrc. simpl. now rewrite Ee. }
  destruct (render_cases passedProps)
    as [(_ & el & H & Hk & Hp)|[(Hi' & _)|[(Hi' & _)|(Hi' & _)]]]; try congruence.
  exists el. split; [exact H|]. split.
  - rewrite Hk, Hsrc. unfold scriptKey. now rewrite Es.
  - rewrite Hp, !get_assign_ne by discriminate. rewrite get_assign_eq. exact Hsrc.
Qed.

Lemma key_is_script_key_witness :
  ScriptBeforeHydration external_props = Rendered external_rendered /\
  key external_rendered = scriptKey external_props.
Proof.
  destruct (key_is_script_key external_props "/before.js") as (el & H & Hk & _).
  - reflexivity.
  - assert (E : ScriptBeforeHydration external_props = Rendered external_rendered)
      by (vm_compute; reflexivity).
    split; [exact E|]. rewrite E in H. injection H as <-. exact Hk.
Defined.

(** X18: the body of an inline script. Truthy [children] win over
    [dangerouslySetInnerHTML]: the rendered [__html] is the text of the
    children (a string as it is, an array joined) and [children] is not
    among the rendered props. With falsy children the [__html] of
    [dangerouslySetInnerHTML] is rendered trimmed. With neither the body is
    empty, and [children] that are defined but falsy stay among the
    rendered props next to [dangerouslySetInnerHTML]. *)
Theorem inline_body passedProps :
  isInlineScript passedProps = true ->
  (truthy (get "children" passedProps) = true ->
   exists el, ScriptBeforeHydration passedProps = Rendered el /\
     get "dangerouslySetInnerHTML" (props el) = VHtml (Some (childrenText passedProps)) /\
     ~ In "children" (keys (props el))) /\
  (truthy (get "children" passedProps) = false ->
   forall html, get "dangerouslySetInnerHTML" passedProps = VHtml (Some html) ->
   exists el, ScriptBeforeHydration passedProps = Rendered el /\
     get "dangerouslySetInnerHTML" (props el) = VHtml (Some (trim html))) /\
  (truthy (get "children" passedProps) = false ->
   truthy (get "dangerouslySetInnerHTML" passedProps) = false ->
   exists el, ScriptBeforeHydration passedProps = Rendered el /\
     get "dangerouslySetInnerHTML" (props el) = VHtml (Some "") /\
     (In "children" (keys passedProps) -> In "children" (keys (props el)))).
Proof.
  intros Hi.
  assert (Hhtml : forall id js p,
    get "dangerouslySetInnerHTML" (props (inlineElement id js p)) = VHtml (Some js)).
  { intros id js p. unfold inlineElement. simpl.
    rewrite get_assign_ne by discriminate. apply get_assign_eq. }
  destruct (render_cases passedProps)
    as [(Hi' & _)|[(_ & Hc & H)|[(_ & Hc & Hd & H)|(_ & Hc & Hd & H)]]];
    [congruence| | |]; (split; [|split]); try (intros; congruence).
  - intros _. eexists. split; [exact H|]. split; [apply Hhtml|].
    unfold inlineElement. simpl. rewrite !keys_assign, keys_spread. simpl.
    intros Hin. decompose [or] Hin; try discriminate; try contradiction.
    match goal with Hk : In _ (keys (delete_key _ _)) |- _ =>
      apply keys_delete_key in Hk as [Hk _]; now apply Hk end.
  - intros _ html Hh. rewrite Hh in H. eexists. split; [exact H|]. apply Hhtml.
  - intros _ html Hh. rewrite Hh in Hd. discriminate.
  - intros _ _. eexists. split; [exact H|]. split; [apply Hhtml|].
    intros Hin. unfold inlineElement. simpl. rewrite !keys_assign, keys_spread.
    right. right. right. left. unfold inlineProps.
    apply keys_delete_key. split; [discriminate|].
    apply keys_withoutIgnored. split; [exact Hin|]. intros [Habs _]. discriminate.
Qed.

Lemma inline_body_witness :
  ScriptBeforeHydration inline_children_props = Rendered inline_rendered /\
  get "dangerouslySetInnerHTML" (props inline_rendered) =
    VHtml (Some "window.dataLayer = window.dataLayer || [];go()").
Proof.
  destruct (inline_body inline_children_props) as (H & _ & _); [vm_compute; reflexivity|].
  destruct H as (el & Hr & Hh & _); [reflexivity|].
  assert (E : ScriptBeforeHydration inline_children_props = Rendered inline_rendered)
    by (vm_compute; reflexivity).
  split; [exact E|]. rewrite E in Hr. injection Hr as <-.
  etransitivity; [exact Hh|]. vm_compute. reflexivity.
Defined.

(** X19: when the component throws. Rendering throws (a TypeError, from
    [trim] on a missing [__html]) exactly when the script is inline, its
    children are falsy and [dangerouslySetInnerHTML] is truthy without
    being an object with a string [__html]; in every other case an element
    is rendered. *)
Theorem throws_without_html passedProps error :
  ScriptBeforeHydration passedProps = Threw error <->
  error = "TypeError" /\
  isInlineScript passedProps = true /\
  truthy (get "children" passedProps) = false /\
  truthy (get "dangerouslySetInnerHTML" passedProps) = true /\
  (forall html, get "dangerouslySetInnerHTML" passedProps <> VHtml (Some html)).
Proof.
  destruct (render_cases passedProps)
    as [(Hi & el & H & _)|[(Hi & Hc & H)|[(Hi & Hc & Hd & H)|(Hi & Hc & Hd & H)]]];
    rewrite H.
  - split; [discriminate|]. intros (_ & Hi' & _). congruence.
  - split; [discriminate|]. intros (_ & _ & Hc' & _). congruence.
  - destruct (get "dangerouslySetInnerHTML" passedProps) as [| | | | | |[html|]|] eqn:E;
      try (split; [intros [= <-]; repeat split; try assumption; discriminate
                  |intros (-> & _); reflexivity]).
    split; [discriminate|]. intros (_ & _ & _ & _ & Hn). exfalso. now apply (Hn html).
  - split; [discriminate|]. intros (_ & _ & _ & Hd' & _). congruence.
Qed.

Lemma throws_without_html_witness :
  ScriptBeforeHydration empty_object_html_props = Threw "TypeError".
Proof.
  apply throws_without_html.
  split; [reflexivity|]. split; [vm_compute; reflexivity|]. split; [reflexivity|].
  split; [reflexivity|]. intros html. discriminate.
Defined.

Lemma get_missing k o : ~ In k (keys o) -> get k o = VUndefined.
Proof.
  unfold keys. induction o as [|[k0 v0] o IH]; simpl; [reflexivity|].
  intros H. destruct (k =? k0) eqn:E.
  - apply String.eqb_eq in E. subst k0. exfalso. auto.
  - apply IH. auto.
Qed.

Lemma get_spread k src :
  NoDup (keys src) -> forall dst,
  get k (spread src dst) = if includes k (keys src) then get k src else get k dst.
Proof.
  induction src as [|[k0 v0] src IH]; intros Hnd dst; [reflexivity|].
  unfold keys in Hnd. simpl in Hnd. inversion Hnd as [|? ? Hnot Hnd']. subst.
  rewrite list_elem_of_In in Hnot.
  cbn [spread]. rewrite IH by exact Hnd'.
  unfold keys. simpl. destruct (k =? k0) eqn:E; simpl.
  - apply String.eqb_eq in E. subst k0.
    destruct (includes k (map fst src)) eqn:Ei.
    + apply includes_In in Ei. exfalso. now apply Hnot.
    + apply get_assign_eq.
  - destruct (includes k (map fst src)); [reflexivity|].
    apply get_assign_ne. intros ->. now rewrite String.eqb_refl in E.
Qed.

Lemma get_spread_src k src dst :
  NoDup (keys src) -> get k dst = VUndefined -> get k (spread src dst) = get k src.
Proof.
  intros Hnd Hd. rewrite get_spread by exact Hnd.
  destruct (includes k (keys src)) eqn:E; [reflexivity|].
  rewrite Hd. symmetry. apply get_missing. intros H.
  apply includes_In in H. congruence.
Qed.

Lemma NoDup_delete_key k o : NoDup (keys o) -> NoDup (keys (delete_key k o)).
Proof.
  induction o as [|[k0 v0] o IH]; intros Hnd; [exact Hnd|].
  unfold keys in Hnd. simpl in Hnd. inversion Hnd as [|? ? Hnot Hnd']. subst.
  rewrite list_elem_of_In in Hnot.
  simpl. destruct (k =? k0); [now apply IH|].
  unfold keys. simpl. constructor; [|now apply IH].
  rewrite list_elem_of_In. intros H. apply (keys_delete_key k0 k o) in H as [_ H]. now apply Hnot.
Qed.

Lemma NoDup_withoutIgnored ks : forall acc,
  NoDup (keys acc) -> NoDup (keys (withoutIgnored ks acc)).
Proof.
  induction ks as [|k ks IH]; intros acc Hnd; [exact Hnd|]. cbn [withoutIgnored].
  apply IH. destruct (includes k ignoreProps); [now apply NoDup_delete_key|exact Hnd].
Qed.

(** X20: every other prop is handed to the element as it is. For props
    with distinct keys, a key that is neither in [ignoreProps] nor one of
    the keys the component sets or removes itself has the same value on the
    rendered element as in the props ([undefined] when the props do not
    have it). *)
Theorem other_props_forwarded passedProps el k :
  NoDup (keys passedProps) ->
  ScriptBeforeHydration passedProps = Rendered el ->
  includes k ignoreProps = false ->
  ~ In k ["data-load"; "dangerouslySetInnerHTML"; "suppressHydrationWarning"; "id";
          "src"; "async"; "defer"; "children"] ->
  get k (props el) = get k passedProps.
Proof.
  intros Hnd Hr Hign Hk.
  assert (Hne : k <> "data-load" /\ k <> "dangerouslySetInnerHTML" /\
                k <> "suppressHydrationWarning" /\ k <> "id" /\ k <> "src" /\
                k <> "async" /\ k <> "defer" /\ k <> "children").
  { repeat match goal with |- _ /\ _ => split end; intros ->; apply Hk; simpl; auto 10. }
  destruct Hne as (N1 & N2 & N3 & N4 & N5 & N6 & N7 & N8).
  assert (Hbase : NoDup (keys (withoutIgnored (map fst passedProps) passedProps)))
    by now apply NoDup_withoutIgnored.
  assert (Hinl : NoDup (keys (inlineProps passedProps)))
    by (unfold inlineProps; now apply NoDup_delete_key).
  assert (Hget : get k (inlineProps passedProps) = get k passedProps)
    by now apply inlineProps_get.
  assert (Hinline : forall js p,
    NoDup (keys p) -> get k p = get k passedProps ->
    ScriptBeforeHydration passedProps =
      Rendered (inlineElement (get "id" passedProps) js p) ->
    get k (props el) = get k passedProps).
  { intros js p Hp Hg H. rewrite Hr in H. injection H as ->.
    unfold inlineElement. simpl. rewrite !get_assign_ne by assumption.
    rewrite get_spread_src; [exact Hg|exact Hp|].
    simpl. destruct (k =? "id") eqn:E; [|reflexivity].
    apply String.eqb_eq in E. contradiction. }
  destruct (render_cases passedProps)
    as [(Hi & el' & H & _ & Hp)|[(Hi & _ & H)|[(Hi & _ & _ & H)|(Hi & _ & _ & H)]]].
  - rewrite Hr in H. injection H as <-. rewrite Hp.
    rewrite !get_assign_ne by assumption.
    rewrite get_spread_src; [now apply get_withoutIgnored|exact Hbase|reflexivity].
  - eapply Hinline; [| |exact H]; [now apply NoDup_delete_key|].
    now rewrite get_delete_key_ne.
  - destruct (get "dangerouslySetInnerHTML" passedProps) as [| | | | | |[html|]|];
      try (rewrite Hr in H; discriminate).
    eapply Hinline; [| |exact H]; [now apply NoDup_delete_key|].
    now rewrite get_delete_key_ne.
  - exact (Hinline _ _ Hinl Hget H).
Qed.

Lemma other_props_forwarded_witness :
  get "crossOrigin" (props forwarded_rendered) = VString "anonymous".
Proof.
  apply (other_props_forwarded forwarded_props forwarded_rendered "crossOrigin").
  - unfold keys. simpl. repeat constructor; rewrite list_elem_of_In; simpl;
      intros H; decompose [or] H; try discriminate; contradiction.
  - vm_compute. reflexivity.
  - reflexivity.
  - simpl. intros H. decompose [or] H; try discriminate; contradiction.
Defined.

